(** * hr-rag-system: the retrieval core, embedded and verified

    A shallow embedding of the services of [app/services] (PII masker,
    chunkers, embedder, vector store, retriever, RBAC filter, evaluation
    metrics) together with the properties their specification states.

    Conventions of the embedding.
    - A Python [str] that is processed character by character (document
      text, queries) is a [list ascii]; the model covers 7-bit ASCII text.
      Identifiers, role names and metadata keys are [string].
    - A Python [int] is a [Z]; [len] is [Z.of_nat (length _)].
    - A [dict] is a [gmap]; a [set] is a [gset].
    - A raised exception is the [Raise] outcome of [result].
    - Floating-point scores are kept abstract (a type with its product and
      its order) wherever the code computes with them. *)

From Stdlib Require Import ZArith List Ascii String QArith Lia Permutation Sorted.
From stdpp Require Import gmap strings list.

Open Scope Z_scope.

#[local] Set Warnings "-clear-no-such-hyp".

(** ** Part I. The program *)

(** *** Python sequences *)

Module PyList.

(** Slice bounds: a negative index counts from the end, and every index
    is clamped to [0, len]. *)
Definition clamp (n : Z) (i : Z) : Z :=
  if i <? 0 then Z.max (i + n) 0 else Z.min i n.

Section Slices.
Context {A : Type}.

(** [l[a:b]] *)
Definition slice (l : list A) (a b : Z) : list A :=
  let n := Z.of_nat (length l) in
  let a' := clamp n a in
  let b' := clamp n b in
  take (Z.to_nat (b' - a')) (drop (Z.to_nat a') l).

(** [l[a:]] *)
Definition slice_from (l : list A) (a : Z) : list A :=
  drop (Z.to_nat (clamp (Z.of_nat (length l)) a)) l.

(** [l[:b]] *)
Definition slice_to (l : list A) (b : Z) : list A :=
  take (Z.to_nat (clamp (Z.of_nat (length l)) b)) l.

(** [l[1:]] of a [for x in l[1:]] loop *)
Definition rest (l : list A) : list A := slice_from l 1.
End Slices.

(** [a or b] on integers, as in [k or self.k]: [None] and [0] are
    falsy. *)
Definition int_or (a : option Z) (b : Z) : Z :=
  match a with
  | Some n => if n =? 0 then b else n
  | None => b
  end.

End PyList.

(** *** Python strings *)

Module PyStr.

Abbreviation str := (list ascii).

Definition lit (s : string) : str := list_ascii_of_string s.

Definition len (s : str) : Z := Z.of_nat (length s).

(** [str.isspace] on one ASCII character: TAB..CR, FS..US and SPACE. *)
Definition is_space (c : ascii) : bool :=
  let n := nat_of_ascii c in
  ((9 <=? n)%nat && (n <=? 13)%nat) || ((28 <=? n)%nat && (n <=? 32)%nat).

Definition is_digit (c : ascii) : bool :=
  let n := nat_of_ascii c in (48 <=? n)%nat && (n <=? 57)%nat.

Definition is_upper (c : ascii) : bool :=
  let n := nat_of_ascii c in (65 <=? n)%nat && (n <=? 90)%nat.

Definition is_lower (c : ascii) : bool :=
  let n := nat_of_ascii c in (97 <=? n)%nat && (n <=? 122)%nat.

Definition is_alpha (c : ascii) : bool := is_upper c || is_lower c.

(** The class [\w] of [re]: letters, digits and the underscore. *)
Definition is_word (c : ascii) : bool :=
  is_alpha c || is_digit c || Ascii.eqb c "_".

Definition lower_char (c : ascii) : ascii :=
  if is_upper c then ascii_of_nat (nat_of_ascii c + 32) else c.

Definition upper_char (c : ascii) : ascii :=
  if is_lower c then ascii_of_nat (nat_of_ascii c - 32) else c.

(** [s.lower()] *)
Definition lower (s : str) : str := map lower_char s.

Fixpoint dropwhile (p : ascii -> bool) (s : str) : str :=
  match s with
  | [] => []
  | c :: s' => if p c then dropwhile p s' else s
  end.

Definition lstrip (s : str) : str := dropwhile is_space s.
Definition rstrip (s : str) : str := rev (dropwhile is_space (rev s)).

(** [s.strip()] *)
Definition strip (s : str) : str := lstrip (rstrip s).

(** Truth value of a string: non-empty. *)
Definition truthy (s : str) : bool :=
  match s with [] => false | _ => true end.

(** The guard [not text or not text.strip()] of the services. *)
Definition blank (s : str) : bool := negb (truthy s) || negb (truthy (strip s)).

Fixpoint starts_with (p s : str) : bool :=
  match p, s with
  | [], _ => true
  | _ :: _, [] => false
  | a :: p', b :: s' => Ascii.eqb a b && starts_with p' s'
  end.

(** [w in t] for strings: [w] occurs in [t] as a contiguous run. *)
Fixpoint contains (t w : str) : bool :=
  starts_with w t ||
  match t with
  | [] => false
  | _ :: t' => contains t' w
  end.

(** [s.split()] without argument: the maximal runs of non-whitespace. *)
Fixpoint split_ws_aux (cur : str) (s : str) : list str :=
  match s with
  | [] => match cur with [] => [] | _ => [rev cur] end
  | c :: s' =>
      if is_space c
      then match cur with
           | [] => split_ws_aux [] s'
           | _ => rev cur :: split_ws_aux [] s'
           end
      else split_ws_aux (c :: cur) s'
  end.

Definition split_ws (s : str) : list str := split_ws_aux [] s.

(** [s.split(sep)] for a non-empty [sep]: cut at the leftmost
    non-overlapping occurrences of [sep]; [skip] counts the characters of
    an occurrence still to be passed over. *)
Fixpoint split_aux (sep : str) (skip : nat) (cur : str) (s : str) : list str :=
  match s with
  | [] => [rev cur]
  | c :: s' =>
      match skip with
      | S k => split_aux sep k cur s'
      | O =>
          if starts_with sep s
          then rev cur :: split_aux sep (length sep - 1) [] s'
          else split_aux sep 0 (c :: cur) s'
      end
  end.

Definition split (s sep : str) : list str := split_aux sep 0 [] s.

(** [list(s)]: the one-character strings of [s]. *)
Definition chars (s : str) : list str := map (fun c => [c]) s.

(** [s[a:b]] and [s[a:]] *)
Definition slice (s : str) (a b : Z) : str := PyList.slice s a b.
Definition slice_from (s : str) (a : Z) : str := PyList.slice_from s a.

End PyStr.

(** *** Outcomes of calls that may raise *)

Inductive exn : Type :=
| ValueError (msg : string)
| IndexError (msg : string).

Inductive result (A : Type) : Type :=
| Ok (a : A)
| Raise (e : exn).

Arguments Ok {A} a.
Arguments Raise {A} e.

#[global] Instance result_ret : MRet result := fun A a => Ok a.

#[global] Instance result_bind : MBind result := fun A B k r =>
  match r with
  | Ok a => k a
  | Raise e => Raise e
  end.

(** *** Metadata *)

(** The values the services put in a metadata dictionary: integers
    ([chunk_size], [chunk_index]), strings ([chunking_strategy],
    [document_id], [filename], [department]) and lists of strings
    ([access_roles]). *)
Inductive value : Type :=
| VInt (z : Z)
| VStr (s : string)
| VList (l : list string).

Abbreviation metadata := (gmap string value).

(** *** RBAC: app/services/rbac.py *)

Module RBAC.

Definition ALL_STAFF_ROLE : string := "all_staff".

Record User := mkUser {
  user_id : string;
  username : string;
  roles : list string;
  department : option string
}.

Record RBACService := mkService {
  public_roles : list string
}.

(** [RBACService.__init__]: [public_roles or [ALL_STAFF_ROLE]]; both
    [None] and the empty list fall back to the default. *)
Definition init (arg : option (list string)) : RBACService :=
  match arg with
  | Some (r :: l) => mkService (r :: l)
  | _ => mkService [ALL_STAFF_ROLE]
  end.

(** [RBACService.can_access] *)
Definition can_access (svc : RBACService) (user : User)
    (document_roles : list string) : bool :=
  match document_roles with
  | [] => true
  | _ =>
      if existsb (fun public_role => bool_decide (public_role ∈ document_roles))
                 (public_roles svc)
      then true
      else
        let user_roles_set : gset string := list_to_set (roles user) in
        let document_roles_set : gset string := list_to_set document_roles in
        let matching_roles := user_roles_set ∩ document_roles_set in
        bool_decide (matching_roles ≠ ∅)
  end.

(** What [filter_results] can see of one element of [results]: an object
    with a [metadata] attribute, a [dict] (with or without a
    ["metadata"] key), or anything else. *)
Inductive shape : Type :=
| HasMetadata (md : metadata)
| IsDict (md : option metadata)
| Opaque.

(** [md.get(roles_field, [])].  [document_roles] is declared
    [list[str]]: a field holding another kind of value is outside the
    model ([None]). *)
Definition get_roles (md : metadata) (roles_field : string)
    : option (list string) :=
  match md !! roles_field with
  | None => Some []
  | Some (VList l) => Some l
  | Some _ => None
  end.

(** The roles [filter_results] reads off one result; [Some None] is the
    branch that skips the result. *)
Definition document_roles_of (sh : shape) (roles_field : string)
    : option (option (list string)) :=
  match sh with
  | HasMetadata md => Some <$> get_roles md roles_field
  | IsDict (Some md) => Some <$> get_roles md roles_field
  | IsDict None => Some <$> get_roles ∅ roles_field
  | Opaque => Some None
  end.

Section Filter.
Context {A : Type} (shape_of : A -> shape).

(** [RBACService.filter_results] *)
Fixpoint filter_results (svc : RBACService) (user : User)
    (results : list A) (roles_field : string) : option (list A) :=
  match results with
  | [] => Some []
  | r :: rest =>
      match document_roles_of (shape_of r) roles_field with
      | None => None
      | Some None => filter_results svc user rest roles_field
      | Some (Some document_roles) =>
          filtered ← filter_results svc user rest roles_field;
          Some (if can_access svc user document_roles
                then r :: filtered else filtered)
      end
  end.
End Filter.

Definition default_roles_field : string := "access_roles".

End RBAC.

(** *** Evaluation metrics: app/services/evaluation.py *)

Module Evaluation.

Record EvaluationService := mkEvaluationService {
  k : Z
}.

(** [EvaluationService.recall_at_k].  The quotient of the two set sizes
    is Python's true division of integers; it is kept as the exact
    rational. *)
Definition recall_at_k (svc : EvaluationService)
    (relevant_ids retrieved_ids : list string) (k_arg : option Z) : Q :=
  match relevant_ids with
  | [] => 1%Q
  | _ =>
      let k := PyList.int_or k_arg (k svc) in
      let top_k_retrieved : gset string :=
        list_to_set (PyList.slice_to retrieved_ids k) in
      let relevant_set : gset string := list_to_set relevant_ids in
      let relevant_found := size (top_k_retrieved ∩ relevant_set) in
      (Z.of_nat relevant_found # Pos.of_nat (size relevant_set))%Q
  end.

End Evaluation.

(** *** Regular expressions: the fragment of [re] the services use *)

Module Re.
Import PyStr.

(** Patterns.  A repetition applies to a character class, which is all
    the patterns of the services need; a group that may be absent is an
    alternative with the empty pattern. *)
Inductive regex : Type :=
| Eps
| Cls (p : ascii -> bool)
| Seq (r1 r2 : regex)
| Alt (r1 r2 : regex)
| Rep (p : ascii -> bool) (lo : nat) (hi : option nat)
| WordB
| Behind (p : ascii -> bool).

Definition Chr (c : ascii) : regex := Cls (Ascii.eqb c).
Definition Opt (r : regex) : regex := Alt r Eps.

Fixpoint Seqs (rs : list regex) : regex :=
  match rs with
  | [] => Eps
  | [r] => r
  | r :: rs' => Seq r (Seqs rs')
  end.

(** Character classes. *)
Definition range (lo hi : ascii) (c : ascii) : bool :=
  (nat_of_ascii lo <=? nat_of_ascii c)%nat && (nat_of_ascii c <=? nat_of_ascii hi)%nat.

Definition one_of (cs : string) (c : ascii) : bool :=
  existsb (Ascii.eqb c) (list_ascii_of_string cs).

Definition either (p q : ascii -> bool) (c : ascii) : bool := p c || q c.

(** A class under [re.IGNORECASE]. *)
Definition nocase (p : ascii -> bool) (c : ascii) : bool :=
  p c || p (lower_char c) || p (upper_char c).

Definition is_word_at (o : option ascii) : bool :=
  match o with Some c => is_word c | None => false end.

(** A position of the subject: the character before it, if any, and the
    text from it on. *)
Definition pos : Type := option ascii * str.

Definition dec_hi (hi : option nat) : option nat := Nat.pred <$> hi.

Definition hi_allows (hi : option nat) : bool :=
  match hi with Some O => false | _ => true end.

(** Greedy repetition of a class: the longer runs come first. *)
Fixpoint rep (p : ascii -> bool) (lo : nat) (hi : option nat)
    (prev : option ascii) (s : str) : list pos :=
  (match s with
   | c :: s' =>
       if p c && hi_allows hi
       then rep p (Nat.pred lo) (dec_hi hi) (Some c) s'
       else []
   | [] => []
   end) ++ (if (lo =? 0)%nat then [(prev, s)] else []).

(** The backtracking matcher: every way [r] matches at a position, as
    the positions reached, in the order the engine tries them. *)
Fixpoint matches (r : regex) (prev : option ascii) (s : str) : list pos :=
  match r with
  | Eps => [(prev, s)]
  | Cls p =>
      match s with
      | c :: s' => if p c then [(Some c, s')] else []
      | [] => []
      end
  | Seq r1 r2 => flat_map (fun q => matches r2 (fst q) (snd q)) (matches r1 prev s)
  | Alt r1 r2 => matches r1 prev s ++ matches r2 prev s
  | Rep p lo hi => rep p lo hi prev s
  | WordB =>
      if xorb (is_word_at prev) (is_word_at (head s)) then [(prev, s)] else []
  | Behind p =>
      match prev with
      | Some c => if p c then [(prev, s)] else []
      | None => []
      end
  end.

(** The number of characters of the match the engine returns at a
    position; with [must_advance] an empty match is rejected and the
    engine backtracks to the next alternative. *)
Definition first_match (r : regex) (prev : option ascii) (s : str)
    (must_advance : bool) : option nat :=
  head (List.filter (fun n => if must_advance then (0 <? n)%nat else true)
               (map (fun q : pos => (length s - length (snd q))%nat)
                    (matches r prev s))).

(** One left-to-right scan of a subject, as [finditer] does it: the
    characters outside every match, and a mark for each match. *)
Inductive piece : Type :=
| Txt (c : ascii)
| Hit.

Fixpoint scan (r : regex) (prev : option ascii) (s : str) (skip : nat)
    : list piece :=
  match skip with
  | S n =>
      match s with
      | c :: s' => scan r (Some c) s' n
      | [] => []
      end
  | O =>
      let advance :=
        match s with
        | c :: s' => Txt c :: scan r (Some c) s' 0
        | [] => []
        end in
      let consume n :=
        match s with
        | c :: s' => scan r (Some c) s' n
        | [] => []
        end in
      match first_match r prev s false with
      | None => advance
      | Some (S n) => Hit :: consume n
      | Some O =>
          Hit :: match first_match r prev s true with
                 | Some (S n) => Hit :: consume n
                 | _ => advance
                 end
      end
  end.

(** [pattern.sub(repl, s)] for a replacement without group references. *)
Definition sub (r : regex) (repl : str) (s : str) : str :=
  flat_map (fun p => match p with Txt c => [c] | Hit => repl end)
           (scan r None s 0).

(** [pattern.split(s)] for a pattern without capturing groups. *)
Fixpoint split_pieces (cur : str) (ps : list piece) : list str :=
  match ps with
  | [] => [rev cur]
  | Txt c :: ps' => split_pieces (c :: cur) ps'
  | Hit :: ps' => rev cur :: split_pieces [] ps'
  end.

Definition split (r : regex) (s : str) : list str :=
  split_pieces [] (scan r None s 0).

End Re.

(** *** PII masker: app/services/pii_masker.py *)

Module PIIMasker.
Import PyStr Re.

Record PIIPattern := mkPattern {
  name : string;
  pattern : regex;
  replacement : str
}.

Definition digit : regex := Cls is_digit.
Definition digits (n : nat) : regex := Rep is_digit n (Some n).
Definition upper_az : ascii -> bool := range "A" "Z".

(** [\b[A-CEGHJ-PR-TW-Z][A-CEGHJ-NPR-TW-Z]\d{6}[A-D]\b], IGNORECASE *)
Definition ni_number : regex :=
  Seqs [ WordB;
         Cls (nocase (either (range "A" "C") (either (one_of "EGH")
                (either (range "J" "P") (either (range "R" "T") (range "W" "Z"))))));
         Cls (nocase (either (range "A" "C") (either (one_of "EGH")
                (either (range "J" "N") (either (one_of "P")
                (either (range "R" "T") (range "W" "Z")))))));
         digits 6;
         Cls (nocase (range "A" "D"));
         WordB ].

(** [\b(?:0[1-9]|[12]\d|3[01])[-/.](?:0[1-9]|1[0-2])[-/.](?:19|20)\d{2}\b] *)
Definition dob : regex :=
  Seqs [ WordB;
         Alt (Seq (Chr "0") (Cls (range "1" "9")))
             (Alt (Seq (Cls (one_of "12")) digit)
                  (Seq (Chr "3") (Cls (one_of "01"))));
         Cls (one_of "-/.");
         Alt (Seq (Chr "0") (Cls (range "1" "9")))
             (Seq (Chr "1") (Cls (range "0" "2")));
         Cls (one_of "-/.");
         Alt (Seq (Chr "1") (Chr "9")) (Seq (Chr "2") (Chr "0"));
         digits 2;
         WordB ].

Definition space_dot_dash : ascii -> bool := either is_space (one_of ".-").

(** [(?:\+44\s?)?(?:0|\(0\))?\s?] *)
Definition phone_prefix : regex :=
  Seqs [ Opt (Seqs [Chr "+"; Chr "4"; Chr "4"; Rep is_space 0 (Some 1%nat)]);
         Opt (Alt (Chr "0") (Seqs [Chr "("; Chr "0"; Chr ")"]));
         Rep is_space 0 (Some 1%nat) ].

(** [...7\d{3}[\s.-]?\d{3}[\s.-]?\d{3}|...[1-2]\d{2,3}[\s.-]?\d{3}[\s.-]?\d{3,4}] *)
Definition phone_uk : regex :=
  Alt (Seqs [ phone_prefix; Chr "7"; digits 3;
              Rep space_dot_dash 0 (Some 1%nat); digits 3;
              Rep space_dot_dash 0 (Some 1%nat); digits 3 ])
      (Seqs [ phone_prefix; Cls (range "1" "2"); Rep is_digit 2 (Some 3%nat);
              Rep space_dot_dash 0 (Some 1%nat); digits 3;
              Rep space_dot_dash 0 (Some 1%nat); Rep is_digit 3 (Some 4%nat) ]).

Definition alnum : ascii -> bool :=
  either (range "A" "Z") (either (range "a" "z") (range "0" "9")).

(** [\b[A-Za-z0-9._%+-]+@[A-Za-z0-9.-]+\.[A-Z|a-z]{2,}\b] *)
Definition email : regex :=
  Seqs [ WordB;
         Rep (either alnum (one_of "._%+-")) 1 None;
         Chr "@";
         Rep (either alnum (one_of ".-")) 1 None;
         Chr ".";
         Rep (either (range "A" "Z") (either (one_of "|") (range "a" "z"))) 2 None;
         WordB ].

(** [\b[A-Z]{1,2}\d[A-Z\d]?\s*\d[A-Z]{2}\b], IGNORECASE *)
Definition postcode : regex :=
  Seqs [ WordB;
         Rep (nocase upper_az) 1 (Some 2%nat);
         digit;
         Rep (nocase (either upper_az is_digit)) 0 (Some 1%nat);
         Rep is_space 0 None;
         digit;
         Rep (nocase upper_az) 2 (Some 2%nat);
         WordB ].

(** [\b\d{2}-\d{2}-\d{2}\b] *)
Definition sort_code : regex :=
  Seqs [ WordB; digits 2; Chr "-"; digits 2; Chr "-"; digits 2; WordB ].

(** [\b\d{8}\b] and [\b\d{9}\b] *)
Definition bank_account : regex := Seqs [ WordB; digits 8; WordB ].
Definition passport : regex := Seqs [ WordB; digits 9; WordB ].

(** [PIIMasker._build_patterns] *)
Definition _build_patterns : list PIIPattern :=
  [ mkPattern "NI_NUMBER" ni_number (lit "[NI_NUMBER]");
    mkPattern "DOB" dob (lit "[DOB]");
    mkPattern "PHONE_UK" phone_uk (lit "[PHONE]");
    mkPattern "EMAIL" email (lit "[EMAIL]");
    mkPattern "POSTCODE" postcode (lit "[POSTCODE]");
    mkPattern "SORT_CODE" sort_code (lit "[SORT_CODE]");
    mkPattern "BANK_ACCOUNT" bank_account (lit "[BANK_ACCOUNT]");
    mkPattern "PASSPORT" passport (lit "[PASSPORT]") ].

Record PIIMasker := mkMasker {
  patterns : list PIIPattern
}.

(** [PIIMasker.__init__] *)
Definition init : PIIMasker := mkMasker _build_patterns.

(** [PIIMasker.mask]: the patterns are substituted one after the other,
    each in the text the previous ones left.  The [findall] of the loop
    only feeds the log. *)
Definition mask (self : PIIMasker) (text : str) : str :=
  if negb (truthy text) then text
  else
    fold_left (fun masked_text pii_pattern =>
                 sub (pattern pii_pattern) (replacement pii_pattern) masked_text)
              (patterns self) text.

End PIIMasker.

(** *** Chunkers: app/services/chunker.py *)

Module Chunker.
Import PyStr.

Record Chunk := mkChunk {
  text : str;
  index : Z;
  metadata : gmap string value
}.

Record ChunkerConfig := mkConfig {
  chunk_size : Z;
  chunk_overlap : Z;
  min_chunk_size : Z;
  separators : list str
}.

Definition NL : ascii := ascii_of_nat 10.

Definition default_separators : list str :=
  [ [NL; NL; NL]; [NL; NL]; [NL]; lit ". "; lit "? "; lit "! "; lit "; ";
    lit ", "; lit " "; [] ].

Definition default_config : ChunkerConfig :=
  mkConfig 1000 200 100 default_separators.

Definition chunk_metadata (size : Z) (strategy : string) : gmap string value :=
  <["chunk_size" := VInt size]> (<["chunking_strategy" := VStr strategy]> ∅).

(** [enumerate] *)
Definition enumerate {A} (l : list A) : list (Z * A) :=
  imap (fun i x => (Z.of_nat i, x)) l.

(** **** RecursiveChunker *)

Section Recursive.
Variable config : ChunkerConfig.

(** The closing of a running buffer in [_split_recursive]: nothing
    for an empty buffer, a further split for one above [chunk_size]. *)
Definition close_chunk (rec : str -> list str) (current_chunk : str) : list str :=
  if truthy current_chunk then
    if len current_chunk >? chunk_size config
    then rec current_chunk
    else [current_chunk]
  else [].

(** The [for split in splits] loop of [_split_recursive], followed by
    the closing of the last buffer. *)
Fixpoint split_loop (separator : str) (rec : str -> list str)
    (splits : list str) (chunks : list str) (current_chunk : str) : list str :=
  match splits with
  | [] => chunks ++ close_chunk rec current_chunk
  | split :: splits' =>
      let piece := if truthy separator then split ++ separator else split in
      if len current_chunk + len piece >? chunk_size config
      then split_loop separator rec splits'
             (chunks ++ close_chunk rec current_chunk) piece
      else split_loop separator rec splits' chunks (current_chunk ++ piece)
  end.

(** [RecursiveChunker._split_recursive] *)
Fixpoint _split_recursive (separators : list str) (text : str) : list str :=
  match separators with
  | [] => [text]
  | separator :: remaining_separators =>
      if len text <=? chunk_size config then [text]
      else
        let splits :=
          if truthy separator then PyStr.split text separator else chars text in
        split_loop separator (_split_recursive remaining_separators) splits [] []
  end.

(** The [for next_chunk in chunks[1:]] loop of [_merge_small_chunks];
    it returns [merged] and [current]. *)
Fixpoint merge_loop (nexts : list str) (merged : list str) (current : str)
    : list str * str :=
  match nexts with
  | [] => (merged, current)
  | next_chunk :: nexts' =>
      if len current + len next_chunk <=? chunk_size config
      then merge_loop nexts' merged (current ++ next_chunk)
      else
        let merged' :=
          if len current >=? min_chunk_size config
          then merged ++ [current] else merged in
        let overlap_text :=
          if len current >? chunk_overlap config
          then slice_from current (- chunk_overlap config)
          else current in
        merge_loop nexts' merged' (overlap_text ++ next_chunk)
  end.

(** [merged[-1] += current] *)
Definition append_to_last (merged : list str) (current : str) : list str :=
  match rev merged with
  | [] => merged
  | last :: front => rev front ++ [last ++ current]
  end.

(** [RecursiveChunker._merge_small_chunks] *)
Definition _merge_small_chunks (chunks : list str) : list str :=
  match chunks with
  | [] => []
  | first :: _ =>
      let '(merged, current) := merge_loop (PyList.rest chunks) [] first in
      if truthy current && (len current >=? min_chunk_size config)
      then merged ++ [current]
      else if truthy current && (match merged with [] => false | _ => true end)
      then append_to_last merged current
      else if truthy current
      then merged ++ [current]
      else merged
  end.

(** The comprehension that builds the [Chunk] objects. *)
Definition make_chunks (merged_chunks : list str) : list Chunk :=
  flat_map (fun '(i, chunk_text) =>
              if truthy (strip chunk_text)
              then [mkChunk (strip chunk_text) i
                      (chunk_metadata (len chunk_text) "recursive")]
              else [])
           (enumerate merged_chunks).

(** [RecursiveChunker.chunk] *)
Definition recursive_chunk (text : str) : list Chunk :=
  if blank text then []
  else
    let raw_chunks := _split_recursive (separators config) text in
    let merged_chunks := _merge_small_chunks raw_chunks in
    make_chunks merged_chunks.
End Recursive.

(** **** SentenceChunker *)

(** [(?<=[.!?])\s+] *)
Definition sentence_pattern : Re.regex :=
  Re.Seq (Re.Behind (Re.one_of ".!?")) (Re.Rep is_space 1 None).

Section Sentence.
Variable config : ChunkerConfig.

(** The [for sentence in sentences] loop; it returns [chunks] and
    [current_chunk]. *)
Fixpoint sentence_loop (sentences : list str) (chunks : list str)
    (current_chunk : str) : list str * str :=
  match sentences with
  | [] => (chunks, current_chunk)
  | sentence :: sentences' =>
      if len current_chunk + len sentence <=? chunk_size config
      then sentence_loop sentences' chunks (current_chunk ++ sentence ++ lit " ")
      else
        let chunks' :=
          if truthy (strip current_chunk)
          then chunks ++ [strip current_chunk] else chunks in
        sentence_loop sentences' chunks' (sentence ++ lit " ")
  end.

Definition sentence_texts (text : str) : list str :=
  let sentences := Re.split sentence_pattern text in
  let '(chunks, current_chunk) := sentence_loop sentences [] [] in
  if truthy (strip current_chunk)
  then chunks ++ [strip current_chunk] else chunks.

(** [SentenceChunker.chunk] *)
Definition sentence_chunk (text : str) : list Chunk :=
  if blank text then []
  else
    map (fun '(i, chunk_text) =>
           mkChunk chunk_text i (chunk_metadata (len chunk_text) "sentence"))
        (enumerate (sentence_texts text)).
End Sentence.

(** **** FixedSizeChunker *)

Section Fixed.
Variable config : ChunkerConfig.

(** The body of the [while] loop on the list of chunks: the window
    [text[start:end]], kept when it is not blank. *)
Definition fixed_step (text : str) (start : Z) (chunks : list Chunk) : list Chunk :=
  let end_ := start + chunk_size config in
  let chunk_text := slice text start end_ in
  if truthy (strip chunk_text)
  then chunks ++ [mkChunk (strip chunk_text) (Z.of_nat (length chunks))
                    (chunk_metadata (len chunk_text) "fixed_size")]
  else chunks.

(** The body of the loop on [start]: [start = end - chunk_overlap]. *)
Definition next_start (start : Z) : Z :=
  let end_ := start + chunk_size config in
  end_ - chunk_overlap config.

(** The [while start < len(text)] loop, run for at most [fuel]
    iterations; [None] when the fuel does not suffice. *)
Fixpoint fixed_loop (fuel : nat) (text : str) (start : Z) (chunks : list Chunk)
    : option (list Chunk) :=
  if start <? len text then
    match fuel with
    | O => None
    | S fuel' =>
        fixed_loop fuel' text (next_start start) (fixed_step text start chunks)
    end
  else Some chunks.

(** [FixedSizeChunker.chunk] with a bound on the iterations. *)
Definition fixed_chunk_fuel (fuel : nat) (text : str) : option (list Chunk) :=
  if blank text then Some [] else fixed_loop fuel text 0 [].

(** [FixedSizeChunker.chunk]: a loop that ends at all ends within
    [len(text)] iterations, so [None] stands for a call that does not
    return. *)
Definition fixed_chunk (text : str) : option (list Chunk) :=
  fixed_chunk_fuel (length text) text.
End Fixed.

(** **** ChunkerFactory *)

Inductive strategy : Type := Recursive | Sentence | Fixed.

(** The keys of [ChunkerFactory.CHUNKERS]. *)
Definition strategy_name (s : strategy) : string :=
  match s with
  | Recursive => "recursive"
  | Sentence => "sentence"
  | Fixed => "fixed"
  end.

(** [ChunkerFactory.get_chunker] *)
Definition get_chunker (name : string) : result strategy :=
  if String.eqb name "recursive" then Ok Recursive
  else if String.eqb name "sentence" then Ok Sentence
  else if String.eqb name "fixed" then Ok Fixed
  else Raise (ValueError
    ("Unknown chunking strategy: " ++ name ++ ". Available: recursive, sentence, fixed")).

(** [chunker.chunk(text)] for the chunker of a strategy. *)
Definition chunk (s : strategy) (config : ChunkerConfig) (text : str)
    : option (list Chunk) :=
  match s with
  | Recursive => Some (recursive_chunk config text)
  | Sentence => Some (sentence_chunk config text)
  | Fixed => fixed_chunk config text
  end.

End Chunker.

(** *** Floating-point numbers *)

(** The operations the services apply to [float] scores.  The arithmetic
    is left abstract: nothing proved below depends on how a product or a
    sum is rounded. *)
Class Float (F : Type) := {
  fadd : F -> F -> F;
  fmul : F -> F -> F;
  of_int : Z -> F;
  one : F;
  tenth : F;
  fltb : F -> F -> bool;
  fnonzero : F -> bool
}.

(** [l.sort(key=..., reverse=True)].  The sort of Python lists is stable
    and compares keys with [<] only; with [reverse=True] the result is
    descending and elements with equal keys keep their order.  An
    insertion sort has the same result. *)
Section Sorting.
Context {F : Type} `{Float F} {A : Type} (key : A -> F).

Fixpoint insert_desc (x : A) (l : list A) : list A :=
  match l with
  | [] => [x]
  | y :: l' => if fltb (key x) (key y) then y :: insert_desc x l' else x :: l
  end.

Definition sort_desc (l : list A) : list A := foldr insert_desc [] l.
End Sorting.

(** *** Embedders: app/services/embedder.py *)

Module Embedder.
Import PyStr.

Section Embedders.
Context {F : Type}.

Record EmbeddingResult := mkEmbedding {
  text : str;
  vector : list F;
  model : string;
  dimensions : Z
}.

(** [EmbedderProtocol] *)
Record EmbedderProtocol := mkEmbedder {
  embed : str -> result EmbeddingResult;
  embed_batch : list str -> result (list EmbeddingResult)
}.

(** A comprehension whose element expression may raise. *)
Fixpoint collect {A B} (f : A -> result B) (l : list A) : result (list B) :=
  match l with
  | [] => Ok []
  | a :: l' => b ← f a; bs ← collect f l'; Ok (b :: bs)
  end.

(** **** MockEmbedder.  [_generate_vector] derives the vector from a
    SHA-256 digest of the text; it is a parameter here. *)
Section Mock.
Variable mock_dimensions : Z.
Variable _generate_vector : str -> list F.

Definition mock_embed (text : str) : result EmbeddingResult :=
  if blank text then Raise (ValueError "Cannot embed empty text")
  else Ok (mkEmbedding text (_generate_vector text) "mock-embedder" mock_dimensions).

Definition mock_embed_batch (texts : list str) : result (list EmbeddingResult) :=
  collect mock_embed (List.filter (fun text => truthy (strip text)) texts).

Definition MockEmbedder : EmbedderProtocol :=
  mkEmbedder mock_embed mock_embed_batch.
End Mock.

(** **** OpenAIEmbedder.  [create] is the call
    [client.embeddings.create(input=..., model=...)], giving the
    embeddings of [response.data]. *)
Section OpenAI.
Variable openai_model : string.
Variable create : list str -> result (list (list F)).

(** [text.replace("\n", " ").strip()] *)
Definition clean (text : str) : str :=
  strip (map (fun c => if Ascii.eqb c (ascii_of_nat 10) then " "%char else c) text).

Definition openai_embed (text : str) : result EmbeddingResult :=
  if blank text then Raise (ValueError "Cannot embed empty text")
  else
    let text := clean text in
    data ← create [text];
    match data with
    | vector :: _ =>
        Ok (mkEmbedding text vector openai_model (Z.of_nat (length vector)))
    | [] => Raise (IndexError "list index out of range")
    end.

(** The loop over [response.data], reading [texts_to_embed[i]]. *)
Fixpoint openai_results (texts_to_embed : list str) (data : list (list F))
    : result (list EmbeddingResult) :=
  match data with
  | [] => Ok []
  | embedding :: data' =>
      match texts_to_embed with
      | [] => Raise (IndexError "tuple index out of range")
      | t :: texts' =>
          rest ← openai_results texts' data';
          Ok (mkEmbedding t embedding openai_model (Z.of_nat (length embedding)) :: rest)
      end
  end.

Definition openai_embed_batch (texts : list str) : result (list EmbeddingResult) :=
  match texts with
  | [] => Ok []
  | _ =>
      let cleaned_texts := map clean texts in
      let texts_to_embed := List.filter truthy cleaned_texts in
      match texts_to_embed with
      | [] => Raise (ValueError "All texts are empty")
      | _ =>
          data ← create texts_to_embed;
          openai_results texts_to_embed data
      end
  end.

Definition OpenAIEmbedder : EmbedderProtocol :=
  mkEmbedder openai_embed openai_embed_batch.
End OpenAI.
End Embedders.

Arguments EmbeddingResult : clear implicits.
Arguments EmbedderProtocol : clear implicits.

End Embedder.

#[global] Instance value_eq_dec : EqDecision value.
Proof. solve_decision. Defined.

(** *** Vector stores: app/services/vector_store.py *)

Module VectorStore.
Import PyStr.

Section Stores.
Context {F : Type} `{Float F}.

Record VectorDocument := mkDoc {
  doc_id : string;
  doc_vector : list F;
  doc_text : str;
  doc_metadata : gmap string value
}.

Record SearchResult := mkHit {
  id : string;
  text : str;
  score : F;
  metadata : gmap string value
}.

(** The store as the retriever sees it: a state and the two calls the
    retriever makes. *)
Record VectorStoreProtocol (St : Type) := mkStore {
  upsert : St -> list VectorDocument -> result (St * Z);
  search : St -> list F -> Z -> option (gmap string value) -> option F
           -> result (list SearchResult)
}.

(** **** MockVectorStore.  [_documents] is a [dict], which keeps its
    keys in insertion order. *)
Definition documents : Type := list (string * VectorDocument).

(** [d[k] = v] *)
Fixpoint dict_set (d : documents) (k : string) (v : VectorDocument) : documents :=
  match d with
  | [] => [(k, v)]
  | (k', v') :: d' =>
      if String.eqb k' k then (k, v) :: d' else (k', v') :: dict_set d' k v
  end.

Definition mock_upsert (_documents : documents) (docs : list VectorDocument)
    : documents * Z :=
  (fold_left (fun d doc => dict_set d (doc_id doc) doc) docs _documents,
   Z.of_nat (length docs)).

(** [cosine_similarity] computes with [math.sqrt]; it is a
    parameter. *)
Variable cosine_similarity : list F -> list F -> F.

Definition passes_filters (filters : option (gmap string value))
    (doc : VectorDocument) : bool :=
  match filters with
  | None => true
  | Some fs =>
      if bool_decide (fs = ∅) then true
      else bool_decide (map_Forall (fun k v => doc_metadata doc !! k = Some v) fs)
  end.

Definition below_threshold (score_threshold : option F) (score : F) : bool :=
  match score_threshold with
  | None => false
  | Some t => fnonzero t && fltb score t
  end.

Definition mock_search (_documents : documents) (query_vector : list F)
    (top_k : Z) (filters : option (gmap string value))
    (score_threshold : option F) : list SearchResult :=
  let scored_docs :=
    flat_map (fun kv : string * VectorDocument =>
                let doc := snd kv in
                if negb (passes_filters filters doc) then []
                else
                  let score := cosine_similarity query_vector (doc_vector doc) in
                  if below_threshold score_threshold score then []
                  else [(doc, score)])
             _documents in
  let sorted := sort_desc snd scored_docs in
  let top_docs := PyList.slice_to sorted top_k in
  map (fun ds : VectorDocument * F =>
         mkHit (doc_id (fst ds)) (doc_text (fst ds)) (snd ds) (doc_metadata (fst ds)))
      top_docs.

Definition MockVectorStore : VectorStoreProtocol documents :=
  mkStore documents
    (fun st docs => Ok (mock_upsert st docs))
    (fun st qv k fs th => Ok (mock_search st qv k fs th)).
End Stores.

Arguments VectorDocument : clear implicits.
Arguments SearchResult : clear implicits.
Arguments VectorStoreProtocol : clear implicits.
Arguments documents : clear implicits.
Arguments upsert {F St} _ _ _.
Arguments search {F St} _ _ _ _ _ _.

End VectorStore.

(** *** Retriever: app/services/retriever.py *)

Module Retriever.
Import PyStr.
Import Embedder VectorStore.

Section Retrievers.
Context {F : Type} `{Float F} {St : Type}.

Record RetrievalResult := mkResult {
  query : str;
  results : list (SearchResult F);
  total_results : Z;
  filters_applied : gmap string value
}.

Record RetrieverConfig := mkConfig {
  top_k : Z;
  score_threshold : option F;
  use_reranking : bool;
  embedder_provider : string;
  vector_store_provider : string
}.

Record Retriever := mkRetriever {
  config : RetrieverConfig;
  embedder : EmbedderProtocol F;
  vector_store : VectorStoreProtocol F St
}.

(** The calls a retriever makes to its two collaborators. *)
Inductive port_call : Type :=
| EmbedCall (text : str)
| EmbedBatchCall (texts : list str)
| UpsertCall (docs : list (VectorDocument F))
| SearchCall (query_vector : list F) (top_k : Z)
    (filters : option (gmap string value)) (score_threshold : option F).

(** What a call of the retriever can change: the content of the
    vector store, the calls made so far (latest first), and the number
    of identifiers drawn from [uuid.uuid4]. *)
Record world := mkWorld {
  store : St;
  calls : list port_call;
  drawn : nat
}.

Definition log (c : port_call) (w : world) : world :=
  mkWorld (store w) (c :: calls w) (drawn w).

(** [str(uuid.uuid4())]: the [n]-th identifier drawn. *)
Variable uuid4 : nat -> string.

(** The metadata of one indexed passage. *)
Definition passage_metadata (chunk : Chunker.Chunk) (document_id : option string)
    : gmap string value :=
  let metadata := <["chunk_index" := VInt (Chunker.index chunk)]> (Chunker.metadata chunk) in
  match document_id with
  | Some d => if String.eqb d "" then metadata else <["document_id" := VStr d]> metadata
  | None => metadata
  end.

(** The [for chunk, embedding in zip(chunks, embeddings)] loop. *)
Fixpoint make_vector_docs (pairs : list (Chunker.Chunk * EmbeddingResult F))
    (document_id : option string) (n : nat) : list (VectorDocument F) :=
  match pairs with
  | [] => []
  | (chunk, embedding) :: pairs' =>
      let vector_id := uuid4 n in
      mkDoc vector_id (vector embedding) (Chunker.text chunk)
            (passage_metadata chunk document_id)
        :: make_vector_docs pairs' document_id (S n)
  end.

(** [Retriever.index_chunks] *)
Definition index_chunks (self : Retriever) (w : world)
    (chunks : list Chunker.Chunk) (document_id : option string)
    : result Z * world :=
  match chunks with
  | [] => (Ok 0, w)
  | _ =>
      let texts := map Chunker.text chunks in
      let w := log (EmbedBatchCall texts) w in
      match embed_batch (embedder self) texts with
      | Raise e => (Raise e, w)
      | Ok embeddings =>
          let pairs := zip chunks embeddings in
          let vector_docs := make_vector_docs pairs document_id (drawn w) in
          let w := mkWorld (store w) (calls w) (drawn w + length pairs)%nat in
          let w := log (UpsertCall vector_docs) w in
          match upsert (vector_store self) (store w) vector_docs with
          | Raise e => (Raise e, w)
          | Ok (st, count) => (Ok count, mkWorld st (calls w) (drawn w))
          end
      end
  end.

(** The number of query words found in a text: the [sum(1 for word
    in query_words if word in text_lower)] of [_rerank]. *)
Definition word_matches (query_lower : str) (text_lower : str) : Z :=
  let query_words := split_ws query_lower in
  Z.of_nat (length (List.filter (fun word => contains text_lower word) query_words)).

(** The body of the [for result in results] loop of [_rerank]. *)
Definition boosted (query_lower : str) (result : SearchResult F) : SearchResult F :=
  let text_lower := lower (text result) in
  let boost := fadd one (fmul (of_int (word_matches query_lower text_lower)) tenth) in
  mkHit (id result) (text result) (fmul (score result) boost) (metadata result).

(** [Retriever._rerank] *)
Definition _rerank (query : str) (results : list (SearchResult F))
    : list (SearchResult F) :=
  let query_lower := lower query in
  let results := map (boosted query_lower) results in
  sort_desc score results.

(** [Retriever.retrieve] *)
Definition retrieve (self : Retriever) (w : world) (query : str)
    (top_k_arg : option Z) (filters : option (gmap string value))
    : result RetrievalResult * world :=
  if blank query then (Raise (ValueError "Query cannot be empty"), w)
  else
    let w := log (EmbedCall query) w in
    match embed (embedder self) query with
    | Raise e => (Raise e, w)
    | Ok query_embedding =>
        let k := PyList.int_or top_k_arg (top_k (config self)) in
        let threshold := score_threshold (config self) in
        let w := log (SearchCall (vector query_embedding) k filters threshold) w in
        match search (vector_store self) (store w)
                (vector query_embedding) k filters threshold with
        | Raise e => (Raise e, w)
        | Ok results =>
            let results :=
              if use_reranking (config self)
                 && (match results with [] => false | _ => true end)
              then _rerank query results else results in
            (Ok (mkResult query results (Z.of_nat (length results))
                   (default ∅ filters)), w)
        end
    end.
End Retrievers.

Arguments RetrievalResult : clear implicits.
Arguments RetrieverConfig : clear implicits.
Arguments Retriever : clear implicits.
Arguments world : clear implicits.
Arguments port_call : clear implicits.

End Retriever.

(** *** Evaluation metrics, continued: app/services/evaluation.py *)

Module EvaluationQuery.
Record t := mk {
  query : string;
  relevant_ids : list string;
  retrieved_ids : list string
}.

Definition has_results (eq : t) : bool := 0 <? Z.of_nat (length (retrieved_ids eq)).
Definition has_relevant (eq : t) : bool := 0 <? Z.of_nat (length (relevant_ids eq)).
End EvaluationQuery.

Module EvaluationResult.
Record t := mk {
  query : string;
  recall : Q;
  precision : Q;
  reciprocal_rank : Q;
  relevant_found : Z;
  relevant_total : Z;
  retrieved_total : Z
}.
End EvaluationResult.

Module AggregateResults.
Record t := mk {
  mean_recall : Q;
  mean_precision : Q;
  mrr : Q;
  total_queries : Z;
  individual_results : list EvaluationResult.t
}.
End AggregateResults.

Module Metrics.
Import Evaluation.

(** [EvaluationService.precision_at_k]; the quotient is exact, as in
    [recall_at_k]. *)
Definition precision_at_k (svc : EvaluationService)
    (relevant_ids retrieved_ids : list string) (k_arg : option Z) : Q :=
  let k := PyList.int_or k_arg (k svc) in
  let top_k_retrieved := PyList.slice_to retrieved_ids k in
  match top_k_retrieved with
  | [] => 0%Q
  | _ =>
      let relevant_set : gset string := list_to_set relevant_ids in
      let relevant_found :=
        length (List.filter (fun doc_id => bool_decide (doc_id ∈ relevant_set))
                            top_k_retrieved) in
      (Z.of_nat relevant_found # Pos.of_nat (length top_k_retrieved))%Q
  end.

(** The [for rank, doc_id in enumerate(retrieved_ids, start=1)] loop of
    [reciprocal_rank]. *)
Fixpoint rank_loop (relevant_set : gset string) (rank : positive)
    (retrieved_ids : list string) : Q :=
  match retrieved_ids with
  | [] => 0%Q
  | doc_id :: rest =>
      if bool_decide (doc_id ∈ relevant_set) then (1 # rank)%Q
      else rank_loop relevant_set (Pos.succ rank) rest
  end.

(** [EvaluationService.reciprocal_rank] *)
Definition reciprocal_rank (svc : EvaluationService)
    (relevant_ids retrieved_ids : list string) : Q :=
  match relevant_ids, retrieved_ids with
  | [], _ | _, [] => 0%Q
  | _, _ => rank_loop (list_to_set relevant_ids) 1 retrieved_ids
  end.

(** [EvaluationService.evaluate_query] *)
Definition evaluate_query (svc : EvaluationService) (query : string)
    (relevant_ids retrieved_ids : list string) (k_arg : option Z)
    : EvaluationResult.t :=
  let k := PyList.int_or k_arg (k svc) in
  let recall := recall_at_k svc relevant_ids retrieved_ids (Some k) in
  let precision := precision_at_k svc relevant_ids retrieved_ids (Some k) in
  let rr := reciprocal_rank svc relevant_ids retrieved_ids in
  let top_k_retrieved : gset string := list_to_set (PyList.slice_to retrieved_ids k) in
  let relevant_set : gset string := list_to_set relevant_ids in
  let relevant_found := size (top_k_retrieved ∩ relevant_set) in
  EvaluationResult.mk query recall precision rr (Z.of_nat relevant_found)
    (Z.of_nat (length relevant_ids)) (Z.of_nat (length retrieved_ids)).

(** [sum(...)] of floats, from the left, starting at 0. *)
Definition qsum (l : list Q) : Q := fold_left Qplus l 0%Q.

(** [sum(...) / len(results)] *)
Definition mean (l : list Q) : Q := (qsum l / inject_Z (Z.of_nat (length l)))%Q.

(** [EvaluationService.evaluate_batch] *)
Definition evaluate_batch (svc : EvaluationService)
    (queries : list EvaluationQuery.t) (k_arg : option Z) : AggregateResults.t :=
  match queries with
  | [] => AggregateResults.mk 0 0 0 0 []
  | _ =>
      let k := PyList.int_or k_arg (k svc) in
      let results :=
        map (fun eq => evaluate_query svc (EvaluationQuery.query eq)
                         (EvaluationQuery.relevant_ids eq)
                         (EvaluationQuery.retrieved_ids eq) (Some k))
            queries in
      let mean_recall := mean (map EvaluationResult.recall results) in
      let mean_precision := mean (map EvaluationResult.precision results) in
      let mrr := mean (map EvaluationResult.reciprocal_rank results) in
      AggregateResults.mk mean_recall mean_precision mrr
        (Z.of_nat (length queries)) results
  end.

End Metrics.

(** *** RBAC, continued: app/services/rbac.py *)

Module Access.
Import RBAC.

(** [User.has_role] *)
Definition has_role (user : User) (role : string) : bool :=
  bool_decide (role ∈ roles user).

(** [User.has_any_role] *)
Definition has_any_role (user : User) (roles' : list string) : bool :=
  bool_decide ((list_to_set (roles user) : gset string) ∩ list_to_set roles' ≠ ∅).

(** [role_department_map.get(role)]; the entry of ["admin"] is [None]. *)
Definition role_department (role : string) : option string :=
  if String.eqb role "hr" then Some "HR"
  else if String.eqb role "it" then Some "IT"
  else if String.eqb role "finance" then Some "Finance"
  else if String.eqb role "engineering" then Some "Engineering"
  else None.

(** The [for role in user.roles] loop of [get_accessible_departments].
    [list(departments)] lists a set, in an order Python does not fix;
    here it is the order of [elements]. *)
Fixpoint departments_loop (user_roles : list string) (departments : gset string)
    : list string :=
  match user_roles with
  | [] => elements departments
  | role :: rest =>
      if String.eqb role "admin" then ["*"]
      else
        match role_department role with
        | Some dept => departments_loop rest ({[dept]} ∪ departments)
        | None => departments_loop rest departments
        end
  end.

(** [RBACService.get_accessible_departments] *)
Definition get_accessible_departments (user : User) : list string :=
  let departments : gset string :=
    match department user with
    | Some d => if String.eqb d "" then ∅ else {[d]}
    | None => ∅
    end in
  departments_loop (roles user) departments.

Section Middleware.
Context {F : Type} `{Float F} {St : Type}.

Record RBACMiddleware := mkMiddleware {
  retriever : Retriever.Retriever F St;
  rbac : RBACService
}.

(** [RBACMiddleware.__init__] *)
Definition middleware_init (retriever : Retriever.Retriever F St)
    (rbac_service : option RBACService) : RBACMiddleware :=
  mkMiddleware retriever (default (init None) rbac_service).

(** A [SearchResult] has a [metadata] attribute. *)
Definition result_shape (r : VectorStore.SearchResult F) : shape :=
  HasMetadata (VectorStore.metadata r).

(** [RBACMiddleware.retrieve]; the keyword arguments passed on are the
    [filters] of the retriever.  [None] when a role field read by the
    filter does not hold a list of roles, as in [filter_results]. *)
Definition middleware_retrieve (self : RBACMiddleware) (w : Retriever.world F St)
    (query : PyStr.str) (user : User) (top_k : Z)
    (filters : option (gmap string value))
    : option (result (Retriever.RetrievalResult F) * Retriever.world F St) :=
  let fetch_multiplier := 3 in
  match Retriever.retrieve (retriever self) w query
          (Some (top_k * fetch_multiplier)) filters with
  | (Raise e, w) => Some (Raise e, w)
  | (Ok raw_results, w) =>
      filtered_results ←
        filter_results result_shape (rbac self) user
          (Retriever.results raw_results) default_roles_field;
      let filtered_results := PyList.slice_to filtered_results top_k in
      Some (Ok (Retriever.mkResult (Retriever.query raw_results) filtered_results
                  (Z.of_nat (length filtered_results))
                  (Retriever.filters_applied raw_results)), w)
  end.
End Middleware.

Arguments RBACMiddleware : clear implicits.

End Access.

(** *** PII masker, continued: app/services/pii_masker.py *)

Module Findall.
Import PyStr Re.

(** [pattern.findall(s)] for a pattern without groups: the matched
    texts, found by the scan of [Re.scan]. *)
Fixpoint findall_from (r : regex) (prev : option ascii) (s : str) (skip : nat)
    : list str :=
  match skip with
  | S n =>
      match s with
      | c :: s' => findall_from r (Some c) s' n
      | [] => []
      end
  | O =>
      let advance :=
        match s with
        | c :: s' => findall_from r (Some c) s' 0
        | [] => []
        end in
      let consume n :=
        match s with
        | c :: s' => findall_from r (Some c) s' n
        | [] => []
        end in
      match first_match r prev s false with
      | None => advance
      | Some (S n) => take (S n) s :: consume n
      | Some O =>
          [] :: match first_match r prev s true with
                | Some (S n) => take (S n) s :: consume n
                | _ => advance
                end
      end
  end.

Definition findall (r : regex) (s : str) : list str := findall_from r None s 0.

End Findall.

Module MaskerStats.
Import PyStr Re PIIMasker Findall.

(** [PIIMasker.mask_with_stats] *)
Definition mask_with_stats (self : PIIMasker) (text : str) : str * gmap string Z :=
  if negb (truthy text) then (text, ∅)
  else
    fold_left
      (fun (acc : str * gmap string Z) pii_pattern =>
         let '(masked_text, stats) := acc in
         let matches := findall (pattern pii_pattern) masked_text in
         match matches with
         | [] => (masked_text, stats)
         | _ =>
             (sub (pattern pii_pattern) (replacement pii_pattern) masked_text,
              <[name pii_pattern := Z.of_nat (length matches)]> stats)
         end)
      (patterns self) (text, ∅).

(** [PIIMasker.detect_only] *)
Definition detect_only (self : PIIMasker) (text : str) : gmap string (list str) :=
  if negb (truthy text) then ∅
  else
    fold_left
      (fun (detections : gmap string (list str)) pii_pattern =>
         let matches := findall (pattern pii_pattern) text in
         match matches with
         | [] => detections
         | _ => <[name pii_pattern := matches]> detections
         end)
      (patterns self) ∅.

End MaskerStats.

(** *** Vector store, continued: app/services/vector_store.py *)

Module MockStore.
Import VectorStore.

Section Dict.
Context {F : Type}.

(** [d.get(k)] *)
Fixpoint dict_get (d : documents F) (k : string) : option (VectorDocument F) :=
  match d with
  | [] => None
  | (k', v) :: d' => if String.eqb k' k then Some v else dict_get d' k
  end.

(** [del d[k]] *)
Fixpoint dict_del (d : documents F) (k : string) : documents F :=
  match d with
  | [] => []
  | (k', v) :: d' => if String.eqb k' k then d' else (k', v) :: dict_del d' k
  end.

(** [MockVectorStore.create_collection] *)
Definition mock_create_collection (_documents : documents F) (recreate : bool)
    : documents F :=
  if recreate then [] else _documents.

(** [MockVectorStore.delete] *)
Fixpoint mock_delete (_documents : documents F) (ids : list string)
    : documents F * Z :=
  match ids with
  | [] => (_documents, 0)
  | id :: ids' =>
      match dict_get _documents id with
      | Some _ =>
          let '(d, count) := mock_delete (dict_del _documents id) ids' in
          (d, count + 1)
      | None => mock_delete _documents ids'
      end
  end.

(** [all(doc.metadata.get(k) == v for k, v in filters.items())] *)
Definition matches_filters (filters : gmap string value) (doc : VectorDocument F)
    : bool :=
  bool_decide (map_Forall (fun k v => doc_metadata doc !! k = Some v) filters).

(** [MockVectorStore.delete_by_filter] *)
Definition mock_delete_by_filter (_documents : documents F)
    (filters : gmap string value) : documents F :=
  let to_delete :=
    map fst (List.filter (fun kv => matches_filters filters (snd kv)) _documents) in
  fold_left dict_del to_delete _documents.

(** [MockVectorStore.count] *)
Definition mock_count (_documents : documents F) : Z :=
  Z.of_nat (length _documents).
End Dict.

End MockStore.

(** *** Retriever, continued: app/services/retriever.py *)

Module RetrieverAdmin.
Import VectorStore Retriever.

Section Admin.
Context {F : Type} `{Float F} {St : Type}.

(** The two further calls a retriever makes to its vector store. *)
Record VectorStoreAdmin := mkAdmin {
  delete_by_filter : St -> gmap string value -> result St;
  count : St -> result Z
}.

(** [Retriever.delete_document]; the calls logged in [world] are those
    of [index_chunks] and [retrieve]. *)
Definition delete_document (admin : VectorStoreAdmin) (w : world F St)
    (document_id : string) : result unit * world F St :=
  match delete_by_filter admin (store w) {["document_id" := VStr document_id]} with
  | Raise e => (Raise e, w)
  | Ok st => (Ok tt, mkWorld st (calls w) (drawn w))
  end.

(** [Retriever.get_stats] *)
Definition get_stats (self : Retriever F St) (admin : VectorStoreAdmin)
    (w : world F St) : result (gmap string value) :=
  total ← count admin (store w);
  Ok (<["total_vectors" := VInt total]>
      (<["embedder" := VStr (embedder_provider (config self))]>
       (<["vector_store" := VStr (vector_store_provider (config self))]>
        (<["top_k" := VInt (top_k (config self))]> ∅)))).
End Admin.

Arguments VectorStoreAdmin : clear implicits.

(** The mock store behind these calls. *)
Definition MockVectorStoreAdmin {F : Type} : VectorStoreAdmin (documents F) :=
  mkAdmin
    (fun st filters => Ok (MockStore.mock_delete_by_filter st filters))
    (fun st => Ok (MockStore.mock_count st)).

End RetrieverAdmin.

(** ** Part II. The vocabulary of the properties *)

(** *** Access control *)

Section KeptResults.
Import RBAC.
Context {A : Type} (shape_of : A -> shape).

(** Whether [filter_results] keeps a result. *)
Definition kept (svc : RBACService) (user : User) (roles_field : string)
    (r : A) : bool :=
  match document_roles_of (shape_of r) roles_field with
  | Some (Some document_roles) => can_access svc user document_roles
  | _ => false
  end.
End KeptResults.

(** A hit as an object with a [metadata] attribute, for the examples. *)
Definition hit_shape (md : gmap string value) : RBAC.shape := RBAC.HasMetadata md.

(** *** Evaluation metrics *)

(** Recall@k in the words of its definition: the share of the distinct
    relevant ids that occur among the first [k] retrieved ids. *)
Definition recall_spec (relevant retrieved : list string) (k : Z) : Q :=
  let top_k := take (Z.to_nat k) retrieved in
  let distinct := remove_dups relevant in
  let found := filter (fun r => r ∈ top_k) distinct in
  (Z.of_nat (length found) # Pos.of_nat (length distinct))%Q.

(** *** Strings and counting *)

(** [w] occurs in [t]: the meaning of [w in t]. *)
Definition occurs_in (w t : PyStr.str) : Prop :=
  exists pre post, t = pre ++ w ++ post.

(** [counts P l n]: exactly [n] of the elements of [l], repetitions
    counted, have the property [P]. *)
Inductive counts {A : Type} (P : A -> Prop) : list A -> nat -> Prop :=
| counts_nil : counts P [] 0
| counts_yes (x : A) (l : list A) (n : nat) :
    P x -> counts P l n -> counts P (x :: l) (S n)
| counts_no (x : A) (l : list A) (n : nat) :
    ~ P x -> counts P l n -> counts P (x :: l) n.


(** *** Scores and their order *)

(** Exact rational arithmetic, the arithmetic floating point rounds; it
    serves in the examples. *)
#[global] Instance exact_float : Float Q := {|
  fadd := Qplus;
  fmul := Qmult;
  of_int := inject_Z;
  one := 1%Q;
  tenth := (1 # 10)%Q;
  fltb := fun a b => negb (Qle_bool b a);
  fnonzero := fun a => negb (Qeq_bool a 0%Q)
|}.

Section Order.
Context {F : Type} `{Float F} {A : Type} (key : A -> F).

(** Two keys neither of which is below the other. *)
Definition tie (a b : F) : bool := negb (fltb a b) && negb (fltb b a).

(** [a] may stand before [b] in a descending list. *)
Definition not_below (a b : A) : Prop := fltb (key a) (key b) = false.
End Order.

(** *** Retrieval *)

(** A hit without its score. *)
Definition unscored {F : Type} (r : VectorStore.SearchResult F)
    : string * PyStr.str * gmap string value :=
  (VectorStore.id r, VectorStore.text r, VectorStore.metadata r).

(** Two hits for the query "Leave policy": the second mentions both
    words and overtakes the first, 0.45 * 1.2 against 0.5 * 1.0. *)
Definition sample_hits : list (VectorStore.SearchResult Q) :=
  [ VectorStore.mkHit "a" (PyStr.lit "Sick pay rules") (1 # 2)%Q ∅;
    VectorStore.mkHit "b" (PyStr.lit "Annual LEAVE policy") (45 # 100)%Q ∅ ].

(** A retriever over the mock embedder and the mock vector store. *)
Definition mock_retriever {F : Type} `{Float F} (generate_vector : PyStr.str -> list F)
    (cosine_similarity : list F -> list F -> F)
    (config : Retriever.RetrieverConfig F)
    : Retriever.Retriever F (VectorStore.documents F) :=
  Retriever.mkRetriever config
    (Embedder.MockEmbedder 1536 generate_vector)
    (VectorStore.MockVectorStore cosine_similarity).

Definition empty_world {F : Type} : Retriever.world F (VectorStore.documents F) :=
  Retriever.mkWorld [] [] 0.

Section Passages.
Import PyStr Embedder VectorStore Retriever.
Context {F : Type} (generate_vector : str -> list F).

(** The embedding the mock embedder gives a text. *)
Definition mock_embedding (text : str) : EmbeddingResult F :=
  mkEmbedding text (generate_vector text) "mock-embedder" 1536.

(** The passage [index_chunks] should store for a chunk. *)
Definition passage_of (document_id : option string) (chunk : Chunker.Chunk)
    (doc : VectorDocument F) : Prop :=
  doc_text doc = Chunker.text chunk /\
  doc_vector doc = generate_vector (Chunker.text chunk) /\
  doc_metadata doc = passage_metadata chunk document_id.
End Passages.

(** *** Masking *)

Section Free.
Import PyStr Re.

(** A character property [P], and the texts none of whose characters
    has it. *)
Variable P : ascii -> bool.

Definition free (s : str) : Prop := forall c, c ∈ s -> P c = false.

(** Every character of the class [p] has the property: checked on the
    256 characters. *)
Definition class_within (p : ascii -> bool) : bool :=
  forallb (fun n => implb (p (ascii_of_nat n)) (P (ascii_of_nat n))) (seq 0 256).

(** Whether every match of a pattern contains a character with the
    property. *)
Fixpoint needs (r : regex) : bool :=
  match r with
  | Eps | WordB | Behind _ => false
  | Cls p => class_within p
  | Seq r1 r2 => needs r1 || needs r2
  | Alt r1 r2 => needs r1 && needs r2
  | Rep p lo _ => (0 <? lo)%nat && class_within p
  end.
End Free.

(** A digit or the at sign: what every pattern of the masker needs. *)
Definition digit_or_at (c : ascii) : bool := PyStr.is_digit c || Ascii.eqb c "@".

(** The placeholder tokens the masker writes. *)
Definition placeholders : list PyStr.str :=
  map PIIMasker.replacement (PIIMasker.patterns PIIMasker.init).

(** A text made of placeholder tokens and whitespace only. *)
Inductive placeholder_text : PyStr.str -> Prop :=
| pt_end : placeholder_text []
| pt_space (c : ascii) (s : PyStr.str) :
    PyStr.is_space c = true -> placeholder_text s -> placeholder_text (c :: s)
| pt_token (p s : PyStr.str) :
    p ∈ placeholders -> placeholder_text s -> placeholder_text (p ++ s).

(** *** Chunking *)

Section ChunkVocabulary.
Import PyStr Chunker.





(** The chunks the recursive chunker builds from the candidates [l], the
    first of which has position [k]. *)
Definition chunks_from (k : nat) (l : list str) : list Chunk :=
  flat_map (fun '(i, chunk_text) =>
              if truthy (strip chunk_text)
              then [mkChunk (strip chunk_text) i
                      (chunk_metadata (len chunk_text) "recursive")]
              else [])
           (imap (fun i x => (Z.of_nat (k + i), x)) l).


(** The same for the sentence chunker. *)
Definition sentence_chunks_from (k : nat) (l : list str) : list Chunk :=
  map (fun '(i, chunk_text) =>
         mkChunk chunk_text i (chunk_metadata (len chunk_text) "sentence"))
      (imap (fun i x => (Z.of_nat (k + i), x)) l).
End ChunkVocabulary.

(** A text that neither begins nor ends with whitespace. *)
Definition trimmed (s : PyStr.str) : Prop := PyStr.strip s = s.

(** ** Part III. Proofs *)

(** *** Access control *)

Section RBACProperties.
Import RBAC.

(** When [can_access] grants: the three cases of its docstring. *)
Lemma can_access_spec svc user document_roles :
  can_access svc user document_roles = true <->
  document_roles = []
  \/ (exists r, r ∈ public_roles svc /\ r ∈ document_roles)
  \/ (exists r, r ∈ roles user /\ r ∈ document_roles).
Proof.
  unfold can_access.
  destruct document_roles as [|d ds]; [ tauto | ].
  set (doc := d :: ds).
  destruct (existsb _ (public_roles svc)) eqn:Hpub.
  - apply existsb_exists in Hpub as (r & Hin & Hr).
    apply bool_decide_eq_true in Hr. apply list_elem_of_In in Hin.
    split; [ intros _; right; left; eauto | reflexivity ].
  - assert (Hnone : forall r, r ∈ public_roles svc -> r ∉ doc).
    { intros r Hin Hdoc.
      assert (existsb (fun p => bool_decide (p ∈ doc)) (public_roles svc) = true) as E.
      { apply existsb_exists. exists r. split; [ by apply list_elem_of_In | ].
        by apply bool_decide_eq_true. }
      congruence. }
    rewrite bool_decide_eq_true. split.
    + intros Hne. right; right.
      apply set_choose_L in Hne as (r & Hr).
      exists r. set_solver.
    + intros [Hnil | [(r & Hin & Hdoc) | (r & Hin & Hdoc)]].
      * discriminate.
      * destruct (Hnone r Hin Hdoc).
      * set_solver.
Qed.

(** The service built by [__init__] always has a public role, and has
    the default one exactly when no non-empty list is configured. *)
Lemma init_public_roles arg :
  public_roles (init arg) = match arg with
                            | Some (r :: l) => r :: l
                            | _ => [ALL_STAFF_ROLE]
                            end.
Proof. by destruct arg as [[|]|]. Qed.

Context {A : Type} (shape_of : A -> shape).

Lemma filter_results_spec svc user results roles_field out :
  filter_results shape_of svc user results roles_field = Some out ->
  out = List.filter (kept shape_of svc user roles_field) results.
Proof.
  revert out. induction results as [|r rest IH]; intros out; simpl.
  - by intros [= <-].
  - unfold kept at 1.
    destruct (document_roles_of (shape_of r) roles_field) as [[d|]|]; [ | auto | done ].
    destruct (filter_results shape_of svc user rest roles_field) as [filtered|];
      simpl; [ | done ].
    intros [= <-]. rewrite (IH filtered eq_refl). by destruct (can_access svc user d).
Qed.

Lemma filter_results_total svc user results roles_field :
  (forall r, r ∈ results -> document_roles_of (shape_of r) roles_field <> None) ->
  exists out, filter_results shape_of svc user results roles_field = Some out.
Proof.
  induction results as [|r rest IH]; intros Hty; simpl; [ eauto | ].
  destruct IH as (out & ->). { intros r' Hr'. apply Hty. by right. }
  specialize (Hty r (list_elem_of_here _ _)).
  destruct (document_roles_of (shape_of r) roles_field) as [[d|]|]; simpl; eauto.
  done.
Qed.

End RBACProperties.

(** Cases of the test suite: a mapping result, and a mixed list. *)
Example filter_mixed_results :
  let user := RBAC.mkUser "1" "alice" ["employee"; "hr"] None in
  let md (roles : list string) : gmap string value := <["access_roles" := VList roles]> ∅ in
  RBAC.filter_results hit_shape (RBAC.init None) user
    [md ["hr"]; md ["executive"]; md ["all_staff"]; md []] "access_roles"
  = Some [md ["hr"]; md ["all_staff"]; md []].
Proof. vm_compute. reflexivity. Qed.

(** C1, as stated, fails: a hit whose metadata has no access-roles field
    is kept, even for a user without any role. *)
Lemma C1_counterexample :
  let user := RBAC.mkUser "1" "alice" [] None in
  let hit : gmap string value := <["department" := VStr "HR"]> ∅ in
  hit !! RBAC.default_roles_field = None /\
  RBAC.filter_results hit_shape (RBAC.init None) user [hit] RBAC.default_roles_field
  = Some [hit].
Proof. split; reflexivity. Qed.

(** C1, amended: [filter_results] reads a missing access-roles field as the
    empty role list, which [can_access] treats as public: whenever every
    role field read holds a list of roles, the call returns, a hit whose
    metadata lacks the field is kept for every user, and the only results
    dropped without a role check are those that carry no metadata at
    all. *)
Theorem C1_missing_roles_field_is_public {A : Type} (shape_of : A -> RBAC.shape)
    (svc : RBAC.RBACService) (user : RBAC.User) (results : list A)
    (roles_field : string) :
  (forall r, r ∈ results -> RBAC.document_roles_of (shape_of r) roles_field <> None) ->
  exists out,
    RBAC.filter_results shape_of svc user results roles_field = Some out /\
    (forall r md, r ∈ results ->
       shape_of r = RBAC.HasMetadata md \/ shape_of r = RBAC.IsDict (Some md) ->
       md !! roles_field = None -> r ∈ out) /\
    (forall r, r ∈ results -> shape_of r = RBAC.IsDict None -> r ∈ out) /\
    (forall r, r ∈ out -> r ∈ results /\ shape_of r <> RBAC.Opaque).
Proof.
  intros Hty.
  destruct (filter_results_total shape_of svc user results roles_field Hty) as (out & Hout).
  exists out. split; [ exact Hout | ].
  apply filter_results_spec in Hout. subst out.
  repeat split.
  - intros r md Hin Hsh Hnone.
    apply list_elem_of_In, filter_In. split; [ by apply list_elem_of_In | ].
    unfold kept, RBAC.document_roles_of, RBAC.get_roles.
    by destruct Hsh as [-> | ->]; rewrite Hnone.
  - intros r Hin Hsh.
    apply list_elem_of_In, filter_In. split; [ by apply list_elem_of_In | ].
    unfold kept. by rewrite Hsh.
  - apply list_elem_of_In, filter_In in H as [H _]. by apply list_elem_of_In.
  - apply list_elem_of_In, filter_In in H as [_ H].
    unfold kept in H. intros Hsh. by rewrite Hsh in H.
Qed.

Lemma C1_missing_roles_field_is_public_witness :
  let user := RBAC.mkUser "1" "alice" [] None in
  let hit : gmap string value := <["department" := VStr "HR"]> ∅ in
  exists out,
    RBAC.filter_results hit_shape (RBAC.init None) user [hit] "access_roles" = Some out /\
    hit ∈ out.
Proof.
  intros user hit.
  destruct (C1_missing_roles_field_is_public hit_shape (RBAC.init None) user [hit]
              "access_roles") as (out & Hout & Hkeep & _).
  - intros r Hr. apply list_elem_of_singleton in Hr as ->. vm_compute. discriminate.
  - exists out. split; [ exact Hout | ].
    apply (Hkeep hit hit).
    + apply list_elem_of_here.
    + left. reflexivity.
    + reflexivity.
Defined.

(** C5, as stated, fails: with other public roles configured,
    ["all_staff"] is an ordinary role. *)
Lemma C5_counterexample :
  let rbac := RBAC.init (Some ["everyone"; "public"]) in
  let user := RBAC.mkUser "1" "alice" ["employee"] None in
  RBAC.can_access rbac user ["all_staff"] = false.
Proof. reflexivity. Qed.

(** C5, amended: for every service and user, [can_access(user, [])] is
    true; [can_access(user, ["all_staff"])] is true exactly when
    ["all_staff"] is one of the service's public roles (as it is when no
    public role is configured) or one of the user's roles; and a user whose
    roles do not meet a non-empty document-role list without any configured
    public role is denied. *)
Theorem C5_can_access (arg : option (list string)) (user : RBAC.User) :
  let svc := RBAC.init arg in
  RBAC.can_access svc user [] = true /\
  (RBAC.can_access svc user ["all_staff"] = true <->
     "all_staff" ∈ RBAC.public_roles svc \/ "all_staff" ∈ RBAC.roles user) /\
  (arg = None \/ arg = Some [] -> RBAC.can_access svc user ["all_staff"] = true) /\
  (forall document_roles,
     document_roles <> [] ->
     (forall r, r ∈ RBAC.roles user -> r ∉ document_roles) ->
     (forall r, r ∈ RBAC.public_roles svc -> r ∉ document_roles) ->
     RBAC.can_access svc user document_roles = false).
Proof.
  intros svc. repeat split.
  - intros Hacc. apply can_access_spec in Hacc
      as [Hnil | [(r & Hin & Hdoc) | (r & Hin & Hdoc)]].
    + discriminate.
    + apply list_elem_of_singleton in Hdoc as ->. by left.
    + apply list_elem_of_singleton in Hdoc as ->. by right.
  - intros [Hp | Hu]; apply can_access_spec; right; [ left | right ];
      exists "all_staff"; (split; [ done | apply list_elem_of_here ]).
  - intros Harg. apply can_access_spec. right; left. exists "all_staff".
    split; [ | apply list_elem_of_here ].
    subst svc. destruct Harg as [-> | ->]; apply list_elem_of_here.
  - intros document_roles Hne Hu Hp.
    destruct (RBAC.can_access svc user document_roles) eqn:E; [ | done ].
    apply can_access_spec in E as [Hnil | [(r & Hin & Hdoc) | (r & Hin & Hdoc)]].
    + done.
    + by destruct (Hp r Hin).
    + by destruct (Hu r Hin).
Qed.

Lemma C5_can_access_witness :
  let user := RBAC.mkUser "1" "alice" ["employee"] None in
  RBAC.can_access (RBAC.init None) user ["all_staff"] = true /\
  RBAC.can_access (RBAC.init None) user ["hr"; "executive"] = false.
Proof.
  intros user.
  destruct (C5_can_access None user) as (_ & _ & Hdefault & Hdeny).
  split.
  - apply Hdefault. by left.
  - apply Hdeny.
    + discriminate.
    + intros r Hr. apply list_elem_of_singleton in Hr as ->. set_solver.
    + intros r Hr. apply list_elem_of_singleton in Hr as ->. set_solver.
Defined.

(** *** Evaluation metrics *)

Section EvaluationProperties.
Import Evaluation.

Lemma slice_to_positive {A} (l : list A) (k : Z) :
  0 < k -> PyList.slice_to l k = take (Z.to_nat k) l.
Proof.
  intros Hk. unfold PyList.slice_to, PyList.clamp.
  destruct (k <? 0) eqn:E; [ lia | ].
  destruct (Z.min_spec k (Z.of_nat (length l))) as [[Hlt ->] | [Hge ->]]; [ done | ].
  rewrite Nat2Z.id, firstn_all. symmetry. apply take_ge. lia.
Qed.

Lemma size_inter_filter (top_k relevant : list string) :
  size ((list_to_set top_k : gset string) ∩ list_to_set relevant)
  = length (filter (fun r => r ∈ top_k) (remove_dups relevant)).
Proof.
  rewrite <- (size_list_to_set (C := gset string)).
  - f_equal. apply set_eq. intros x.
    rewrite elem_of_intersection, !elem_of_list_to_set, list_elem_of_filter,
      elem_of_remove_dups. tauto.
  - apply NoDup_filter, NoDup_remove_dups.
Qed.

Lemma size_relevant (relevant : list string) :
  size (list_to_set relevant : gset string) = length (remove_dups relevant).
Proof.
  rewrite <- (size_list_to_set (C := gset string)) by apply NoDup_remove_dups.
  f_equal. apply set_eq. intros x.
  by rewrite !elem_of_list_to_set, elem_of_remove_dups.
Qed.

Lemma remove_dups_nonempty (x : string) (l : list string) :
  (0 < length (remove_dups (x :: l)))%nat.
Proof.
  assert (x ∈ remove_dups (x :: l)) as Hin
    by (apply elem_of_remove_dups, list_elem_of_here).
  destruct (remove_dups (x :: l)); [ inversion Hin | simpl; lia ].
Qed.
End EvaluationProperties.

(** The examples of the specification. *)
Example recall_all_found :
  Qeq (Evaluation.recall_at_k (Evaluation.mkEvaluationService 5)
         ["a"; "b"] ["a"; "b"; "c"] (Some 5)) 1%Q.
Proof. reflexivity. Qed.

Example recall_default_k :
  Evaluation.recall_at_k (Evaluation.mkEvaluationService 2)
    ["a"; "b"; "c"; "d"] ["a"; "x"; "b"] None = (1 # 4)%Q.
Proof. vm_compute. reflexivity. Qed.

(** C8: for a positive [k], [recall_at_k] is the number of distinct
    relevant ids among the first [k] retrieved ids divided by the number
    of distinct relevant ids, a value between 0 and 1; and it is exactly 1
    when no relevant id is given, whatever was retrieved and whatever
    [k]. *)
Theorem C8_recall_at_k (svc : Evaluation.EvaluationService)
    (relevant retrieved : list string) (k : Z) :
  0 < k ->
  (relevant <> [] ->
     Evaluation.recall_at_k svc relevant retrieved (Some k)
     = recall_spec relevant retrieved k /\
     (0 <= Evaluation.recall_at_k svc relevant retrieved (Some k) <= 1)%Q) /\
  (forall k', Evaluation.recall_at_k svc [] retrieved k' = 1%Q).
Proof.
  intros Hk. split; [ | reflexivity ].
  intros Hne. destruct relevant as [|x rel]; [ done | ].
  assert (Evaluation.recall_at_k svc (x :: rel) retrieved (Some k)
          = recall_spec (x :: rel) retrieved k) as Heq.
  { unfold Evaluation.recall_at_k, recall_spec, PyList.int_or.
    destruct (k =? 0) eqn:E; [ lia | ].
    rewrite slice_to_positive by done.
    by rewrite size_inter_filter, size_relevant. }
  split; [ exact Heq | ].
  rewrite Heq. unfold recall_spec.
  pose proof (remove_dups_nonempty x rel) as Hpos.
  pose proof (length_filter (fun r => r ∈ take (Z.to_nat k) retrieved)
                (remove_dups (x :: rel))) as Hle.
  unfold Qle; cbn [Qnum Qden].
  rewrite !Z.mul_1_r, Z.mul_1_l, <- positive_nat_Z, Nat2Pos.id by lia. lia.
Qed.

Lemma C8_recall_at_k_witness :
  Evaluation.recall_at_k (Evaluation.mkEvaluationService 5)
    ["a"; "b"; "a"; "d"] ["x"; "a"; "b"; "c"] (Some 2)
  = (1 # 3)%Q.
Proof.
  destruct (C8_recall_at_k (Evaluation.mkEvaluationService 5)
              ["a"; "b"; "a"; "d"] ["x"; "a"; "b"; "c"] 2) as [H _]; [ lia | ].
  destruct H as [H _]; [ discriminate | ].
  rewrite H. vm_compute. reflexivity.
Defined.

(** *** Strings *)

Section StringProperties.
Import PyStr.

Lemma dropwhile_all (p : ascii -> bool) (s : str) :
  (forall c, c ∈ s -> p c = true) -> dropwhile p s = [].
Proof.
  induction s as [|c s IH]; intros Hall; simpl; [ done | ].
  rewrite (Hall c) by apply list_elem_of_here.
  apply IH. intros c' Hc'. apply Hall. by right.
Qed.

(** A string of whitespace only, the empty one included, is blank. *)
Lemma blank_of_spaces (s : str) :
  (forall c, c ∈ s -> is_space c = true) -> blank s = true.
Proof.
  intros Hall. unfold blank, strip, rstrip, lstrip.
  rewrite (dropwhile_all is_space (rev s)).
  - simpl. by rewrite orb_true_r.
  - intros c Hc. apply Hall. by apply list_elem_of_In, in_rev, list_elem_of_In.
Qed.

Lemma starts_with_spec (p s : str) :
  starts_with p s = true <-> exists post, s = p ++ post.
Proof.
  revert s. induction p as [|a p IH]; intros s; simpl.
  - split; eauto.
  - destruct s as [|b s].
    + split; [ done | intros (post & Hpost); discriminate ].
    + rewrite andb_true_iff, IH, Ascii.eqb_eq. split.
      * intros (-> & post & ->). eauto.
      * intros (post & [= -> ->]). eauto.
Qed.

Lemma contains_spec (t w : str) :
  contains t w = true <-> occurs_in w t.
Proof.
  unfold occurs_in. induction t as [|c t IH]; simpl.
  - rewrite orb_false_r, starts_with_spec. split.
    + intros (post & ->). by exists [], post.
    + intros (pre & post & Heq). destruct pre; [ eauto | discriminate ].
  - rewrite orb_true_iff, IH, starts_with_spec. split.
    + intros [(post & ->) | (pre & post & ->)].
      * by exists [], post.
      * by exists (c :: pre), post.
    + intros (pre & post & Heq). destruct pre as [|c' pre].
      * left. eauto.
      * right. injection Heq as -> ->. eauto.
Qed.

Lemma is_space_lower_char (c : ascii) : is_space (lower_char c) = is_space c.
Proof. destruct c as [[] [] [] [] [] [] [] []]; reflexivity. Qed.

Lemma split_ws_aux_lower (cur s : str) :
  split_ws_aux (lower cur) (lower s) = map lower (split_ws_aux cur s).
Proof.
  revert cur. induction s as [|c s IH]; intros cur.
  - destruct cur as [|c' cur]; [ done | ].
    cbn. unfold lower. by rewrite map_app, map_rev.
  - cbn. rewrite is_space_lower_char. destruct (is_space c).
    + destruct cur as [|c' cur].
      * apply (IH []).
      * cbn. rewrite <- (IH []). unfold lower. by rewrite map_app, map_rev.
    + apply (IH (c :: cur)).
Qed.

(** Lower-casing commutes with splitting at whitespace. *)
Lemma split_ws_lower (s : str) : split_ws (lower s) = map lower (split_ws s).
Proof. apply (split_ws_aux_lower [] s). Qed.
End StringProperties.

(** *** Sorting *)

Section SortingProperties.
Context {F : Type} `{Float F} {A : Type} (key : A -> F).

Lemma insert_desc_perm (x : A) (l : list A) :
  Permutation (insert_desc key x l) (x :: l).
Proof.
  induction l as [|y l IH]; simpl; [ done | ].
  destruct (fltb (key x) (key y)); [ | done ].
  rewrite IH. apply perm_swap.
Qed.

Lemma sort_desc_perm (l : list A) : Permutation (sort_desc key l) l.
Proof.
  induction l as [|x l IH]; simpl; [ done | ].
  rewrite insert_desc_perm. by constructor.
Qed.

(** The order of floats without NaN: [<] is asymmetric, and [>=] is
    transitive. *)
Hypothesis fltb_asym : forall a b : F, fltb a b = true -> fltb b a = false.
Hypothesis fltb_negtrans :
  forall a b c : F, fltb a b = false -> fltb b c = false -> fltb a c = false.

Lemma insert_desc_sorted (x : A) (l : list A) :
  StronglySorted (not_below key) l -> StronglySorted (not_below key) (insert_desc key x l).
Proof.
  induction 1 as [|y l Hs IH Hy]; simpl.
  - repeat constructor.
  - destruct (fltb (key x) (key y)) eqn:E.
    + constructor; [ exact IH | ].
      eapply Permutation_Forall; [ symmetry; apply insert_desc_perm | ].
      constructor; [ | exact Hy ]. by apply fltb_asym.
    + constructor; [ by constructor | ].
      constructor; [ exact E | ].
      eapply Forall_impl; [ exact Hy | ].
      intros b Hb. by apply (fltb_negtrans _ (key y)).
Qed.

Lemma sort_desc_sorted (l : list A) : StronglySorted (not_below key) (sort_desc key l).
Proof.
  induction l as [|x l IH]; simpl; [ constructor | by apply insert_desc_sorted ].
Qed.

Lemma insert_desc_stable (k : F) (x : A) (l : list A) :
  List.filter (fun a => tie k (key a)) (insert_desc key x l)
  = List.filter (fun a => tie k (key a)) (x :: l).
Proof.
  induction l as [|y l IH]; [ done | ].
  cbn [insert_desc]. destruct (fltb (key x) (key y)) eqn:E; [ | done ].
  cbn [List.filter] in *. rewrite IH.
  destruct (tie k (key x)) eqn:Ex; [ | done ].
  destruct (tie k (key y)) eqn:Ey; [ | done ].
  exfalso. unfold tie in Ex, Ey.
  apply andb_true_iff in Ex as [_ Ex]. apply andb_true_iff in Ey as [Ey _].
  apply negb_true_iff in Ex, Ey.
  rewrite (fltb_negtrans _ _ _ Ex Ey) in E. discriminate.
Qed.

(** Stability: the elements whose keys tie with a given one come out in
    the order they went in. *)
Lemma sort_desc_stable (k : F) (l : list A) :
  List.filter (fun a => tie k (key a)) (sort_desc key l)
  = List.filter (fun a => tie k (key a)) l.
Proof.
  induction l as [|x l IH]; [ done | ].
  cbn [sort_desc foldr]. fold (sort_desc key l).
  rewrite insert_desc_stable. cbn [List.filter]. by rewrite IH.
Qed.
End SortingProperties.

(** *** Retrieval *)

Section RetrieverProperties.
Import PyStr Embedder VectorStore Retriever.
Context {F : Type} `{Float F}.

(** The count [_rerank] computes is the number of lower-cased query words
    that occur in the lower-cased text. *)
Lemma word_matches_counts (query text : str) :
  exists n,
    word_matches (lower query) (lower text) = Z.of_nat n /\
    counts (fun word => occurs_in word (lower text)) (map lower (split_ws query)) n.
Proof.
  unfold word_matches. rewrite split_ws_lower.
  induction (map lower (split_ws query)) as [|w ws (n & Hn & Hc)].
  - exists 0%nat. split; [ done | constructor ].
  - apply Nat2Z.inj in Hn. cbn [List.filter].
    destruct (contains (lower text) w) eqn:E.
    + exists (S n). split; [ cbn [length]; by rewrite Hn | ].
      constructor; [ by apply contains_spec | done ].
    + exists n. split; [ by rewrite Hn | ].
      apply counts_no; [ | done ].
      intros Hocc. apply contains_spec in Hocc. congruence.
Qed.

Lemma counts_unique {A : Type} (P : A -> Prop) (l : list A) (n m : nat) :
  counts P l n -> counts P l m -> n = m.
Proof.
  intros Hn. revert m. induction Hn as [ | x l n Hx _ IH | x l n Hx _ IH ];
    inversion 1; subst; try done; f_equal; by apply IH.
Qed.

Lemma unscored_boosted (q : str) (r : SearchResult F) :
  unscored (boosted q r) = unscored r.
Proof. reflexivity. Qed.

(** With re-ranking on, [retrieve] returns the hits of the search
    re-ranked. *)
Lemma retrieve_reranks {St : Type} (self : Retriever F St) (w : world F St)
    (query : str) (top_k_arg : option Z) (filters : option (gmap string value))
    (e : EmbeddingResult F) (hits : list (SearchResult F)) :
  blank query = false ->
  use_reranking (config self) = true ->
  embed (embedder self) query = Ok e ->
  search (vector_store self) (store w) (vector e)
    (PyList.int_or top_k_arg (top_k (config self))) filters
    (score_threshold (config self)) = Ok hits ->
  exists w',
    retrieve self w query top_k_arg filters
    = (Ok (mkResult query (_rerank query hits) (Z.of_nat (length (_rerank query hits)))
             (default ∅ filters)), w').
Proof.
  intros Hq Hr He Hs. unfold retrieve. rewrite Hq, He. cbn [log store].
  rewrite Hs, Hr. destruct hits; eauto.
Qed.
End RetrieverProperties.

(** C6: re-ranking a non-empty hit list multiplies the score of each hit
    by 1 + 0.1 * (the number of whitespace-delimited lower-cased query words
    that occur in the hit's lower-cased text) and sorts the hits by the
    new score, highest first, hits with tying scores keeping their order;
    the hits returned are the hits given, none removed and none added.
    The order of scores is assumed to be that of floats other than NaN. *)
Theorem C6_rerank {F : Type} `{Float F}
    (fltb_asym : forall a b : F, fltb a b = true -> fltb b a = false)
    (fltb_negtrans :
       forall a b c : F, fltb a b = false -> fltb b c = false -> fltb a c = false)
    (query : PyStr.str) (hits : list (VectorStore.SearchResult F)) :
  hits <> [] ->
  let adjusted := map (Retriever.boosted (PyStr.lower query)) hits in
  let ranked := Retriever._rerank query hits in
  Forall2 (fun hit hit' =>
             unscored hit' = unscored hit /\
             exists n,
               counts (fun word => occurs_in word (PyStr.lower (VectorStore.text hit)))
                      (map PyStr.lower (PyStr.split_ws query)) n /\
               VectorStore.score hit'
               = fmul (VectorStore.score hit)
                   (fadd one (fmul (of_int (Z.of_nat n)) tenth)))
          hits adjusted /\
  Permutation ranked adjusted /\
  StronglySorted (not_below VectorStore.score) ranked /\
  (forall k, List.filter (fun hit => tie k (VectorStore.score hit)) ranked
             = List.filter (fun hit => tie k (VectorStore.score hit)) adjusted) /\
  Permutation (map unscored ranked) (map unscored hits) /\
  length ranked = length hits.
Proof.
  intros _ adjusted ranked.
  assert (Permutation ranked adjusted) as Hperm by apply sort_desc_perm.
  repeat split.
  - subst adjusted. clear. induction hits as [|h hs IH]; constructor; [ | exact IH ].
    split; [ reflexivity | ].
    destruct (word_matches_counts query (VectorStore.text h)) as (n & Hn & Hc).
    exists n. split; [ exact Hc | ]. cbn. by rewrite Hn.
  - exact Hperm.
  - by apply sort_desc_sorted.
  - intros k. by apply sort_desc_stable.
  - rewrite Hperm. subst adjusted. rewrite map_map.
    erewrite map_ext; [ reflexivity | ]. intros a. apply unscored_boosted.
  - rewrite (Permutation_length Hperm). subst adjusted. apply length_map.
Qed.

Lemma exact_float_asym (a b : Q) : fltb a b = true -> fltb b a = false.
Proof.
  cbn. rewrite negb_true_iff, negb_false_iff, Qle_bool_iff.
  intros Hba. apply Qlt_le_weak, Qnot_le_lt.
  intros Hle. apply Qle_bool_iff in Hle. congruence.
Qed.

Lemma exact_float_negtrans (a b c : Q) :
  fltb a b = false -> fltb b c = false -> fltb a c = false.
Proof.
  cbn. rewrite !negb_false_iff, !Qle_bool_iff. intros Hba Hcb.
  by apply (Qle_trans _ b).
Qed.

Example rerank_sample :
  map VectorStore.id (Retriever._rerank (PyStr.lit "Leave  policy") sample_hits)
  = ["b"; "a"].
Proof. vm_compute. reflexivity. Qed.

Lemma C6_rerank_witness :
  length (Retriever._rerank (PyStr.lit "Leave  policy") sample_hits) = 2%nat /\
  StronglySorted (not_below VectorStore.score)
    (Retriever._rerank (PyStr.lit "Leave  policy") sample_hits).
Proof.
  destruct (C6_rerank exact_float_asym exact_float_negtrans
              (PyStr.lit "Leave  policy") sample_hits)
    as (_ & _ & Hsorted & _ & _ & Hlen).
  - discriminate.
  - split; [ exact Hlen | exact Hsorted ].
Defined.

(** C7: for a query that is empty or made of whitespace only, [retrieve]
    raises [ValueError], and the world is left as it was: no call to the
    embedder or to the vector store is made, and the store is unchanged. *)
Theorem C7_retrieve_rejects_blank_query {F : Type} `{Float F} {St : Type}
    (self : Retriever.Retriever F St) (w : Retriever.world F St)
    (query : PyStr.str) (top_k : option Z) (filters : option (gmap string value)) :
  (forall c, c ∈ query -> PyStr.is_space c = true) ->
  Retriever.retrieve self w query top_k filters
  = (Raise (ValueError "Query cannot be empty"), w).
Proof.
  intros Hblank. unfold Retriever.retrieve. by rewrite (blank_of_spaces query Hblank).
Qed.

Lemma C7_retrieve_rejects_blank_query_witness :
  Retriever.retrieve
    (mock_retriever (fun _ => []) (fun _ _ => 0%Q)
       (Retriever.mkConfig 5 None false "mock" "mock"))
    empty_world (PyStr.lit "   ") None None
  = (Raise (ValueError "Query cannot be empty"), empty_world).
Proof.
  apply C7_retrieve_rejects_blank_query.
  intros c Hc. apply list_elem_of_In in Hc. simpl in Hc.
  destruct Hc as [<- | [<- | [<- | []]]]; reflexivity.
Defined.

Section IndexingProperties.
Import PyStr Embedder VectorStore Retriever.
Context {F : Type} `{Float F}.
Variable generate_vector : str -> list F.
Variable uuid4 : nat -> string.

Lemma mock_embed_nonblank (text : str) :
  blank text = false ->
  mock_embed 1536 generate_vector text = Ok (mock_embedding generate_vector text).
Proof. intros Hb. unfold mock_embed. by rewrite Hb. Qed.

Lemma blank_false_strip (text : str) : blank text = false -> truthy (strip text) = true.
Proof.
  unfold blank. intros Hb. apply orb_false_iff in Hb as [_ Hs].
  by apply negb_false_iff in Hs.
Qed.

Lemma mock_embed_batch_all (texts : list str) :
  Forall (fun t => blank t = false) texts ->
  mock_embed_batch 1536 generate_vector texts = Ok (map (mock_embedding generate_vector) texts).
Proof.
  unfold mock_embed_batch. induction 1 as [|t texts Ht _ IH]; [ done | ].
  cbn [List.filter]. rewrite (blank_false_strip t Ht). cbn [collect map].
  rewrite (mock_embed_nonblank t Ht), IH. reflexivity.
Qed.

Lemma make_vector_docs_aligned (document_id : option string)
    (chunks : list Chunker.Chunk) (n : nat) :
  Forall2 (passage_of generate_vector document_id) chunks
    (make_vector_docs uuid4
       (zip chunks (map (mock_embedding generate_vector) (map Chunker.text chunks))) document_id n).
Proof.
  revert n. induction chunks as [|c chunks IH]; intros n; cbn; constructor.
  - done.
  - apply IH.
Qed.

(** When no chunk has a blank text, the mock embedder returns one
    embedding per chunk and every passage stored has the text and the
    vector of its own chunk. *)
Lemma index_chunks_aligned (cosine_similarity : list F -> list F -> F)
    (config : RetrieverConfig F) (w : world F (documents F))
    (chunks : list Chunker.Chunk) (document_id : option string) :
  chunks <> [] ->
  Forall (fun c => blank (Chunker.text c) = false) chunks ->
  exists docs w',
    index_chunks uuid4 (mock_retriever generate_vector cosine_similarity config)
      w chunks document_id
    = (Ok (Z.of_nat (length chunks)), w') /\
    calls w' = UpsertCall docs :: EmbedBatchCall (map Chunker.text chunks) :: calls w /\
    Forall2 (passage_of generate_vector document_id) chunks docs.
Proof.
  intros Hne Hall. unfold index_chunks. destruct chunks as [|c chunks]; [ done | ].
  set (cs := c :: chunks) in *.
  cbn [embedder mock_retriever embed_batch MockEmbedder].
  rewrite mock_embed_batch_all.
  2:{ apply Forall_forall. intros t Ht. apply list_elem_of_In, in_map_iff in Ht
        as (c' & <- & Hc'). rewrite Forall_forall in Hall.
      by apply Hall, list_elem_of_In. }
  pose proof (make_vector_docs_aligned document_id cs (drawn w)) as Hdocs.
  eexists _, _. split; [ | split; [ | exact Hdocs ] ].
  - cbn [vector_store mock_retriever upsert MockVectorStore log store calls drawn].
    unfold mock_upsert. rewrite <- (Forall2_length _ _ _ Hdocs). reflexivity.
  - reflexivity.
Qed.
End IndexingProperties.

(** C2 fails on the code: [index_chunks] pairs the chunks with the
    embeddings by position, and the batch of embeddings has no entry for an
    empty text.  For the chunks [""] and ["a"] the one passage stored has
    the text of the first chunk and the vector of the second. *)
Theorem C2_index_chunks_misaligned {F : Type} `{Float F}
    (generate_vector : PyStr.str -> list F)
    (cosine_similarity : list F -> list F -> F)
    (uuid4 : nat -> string) (config : Retriever.RetrieverConfig F) :
  let self := mock_retriever generate_vector cosine_similarity config in
  let chunks := [ Chunker.mkChunk [] 0 ∅; Chunker.mkChunk (PyStr.lit "a") 1 ∅ ] in
  let stored :=
    VectorStore.mkDoc (uuid4 0%nat) (generate_vector (PyStr.lit "a")) []
      (<["chunk_index" := VInt 0]> ∅) in
  Retriever.index_chunks uuid4 self empty_world chunks None
  = (Ok 1,
     Retriever.mkWorld [(uuid4 0%nat, stored)]
       [ Retriever.UpsertCall [stored];
         Retriever.EmbedBatchCall [ []; PyStr.lit "a" ] ]
       1).
Proof. reflexivity. Qed.

(** The same with the OpenAI embedder, whose [embed_batch] records the
    positions of the texts it keeps and does not return them. *)
Lemma index_chunks_misaligned_openai {F : Type} `{Float F}
    (vector_a : list F) (cosine_similarity : list F -> list F -> F)
    (uuid4 : nat -> string) (config : Retriever.RetrieverConfig F) :
  let create := fun _ : list PyStr.str => Ok [vector_a] in
  let self :=
    Retriever.mkRetriever config (Embedder.OpenAIEmbedder "text-embedding-3-small" create)
      (VectorStore.MockVectorStore cosine_similarity) in
  let chunks := [ Chunker.mkChunk (PyStr.lit "  ") 0 ∅; Chunker.mkChunk (PyStr.lit "a") 1 ∅ ] in
  let stored :=
    VectorStore.mkDoc (uuid4 0%nat) vector_a (PyStr.lit "  ")
      (<["chunk_index" := VInt 0]> ∅) in
  Retriever.store (snd (Retriever.index_chunks uuid4 self empty_world chunks None))
  = [(uuid4 0%nat, stored)].
Proof. reflexivity. Qed.

(** *** Fixed-size chunking *)

Section FixedProperties.
Import PyStr Chunker.
Variable config : ChunkerConfig.

Lemma fixed_loop_unfold (fuel : nat) (text : str) (start : Z) (chunks : list Chunk) :
  fixed_loop config fuel text start chunks =
  if start <? len text then
    match fuel with
    | O => None
    | S fuel' =>
        fixed_loop config fuel' text (next_start config start)
          (fixed_step config text start chunks)
    end
  else Some chunks.
Proof. destruct fuel; reflexivity. Qed.

Lemma length_fixed_step (text : str) (start : Z) (chunks : list Chunk) :
  (length (fixed_step config text start chunks) <= S (length chunks))%nat.
Proof.
  unfold fixed_step. destruct (truthy _); [ | lia ].
  rewrite length_app. simpl. lia.
Qed.

(** With [chunk_overlap < chunk_size] the window moves forward, and the
    loop ends within as many iterations as characters remain. *)
Lemma fixed_loop_terminates (text : str) :
  chunk_overlap config < chunk_size config ->
  forall (fuel : nat) (start : Z) (chunks : list Chunk),
    len text - start <= Z.of_nat fuel ->
    exists out,
      fixed_loop config fuel text start chunks = Some out /\
      (length out <= length chunks + Z.to_nat (len text - start))%nat.
Proof.
  intros Hstep. induction fuel as [|fuel IH]; intros start chunks Hfuel;
    rewrite fixed_loop_unfold; destruct (start <? len text) eqn:E.
  - lia.
  - exists chunks. split; [ done | lia ].
  - destruct (IH (next_start config start) (fixed_step config text start chunks))
      as (out & Hout & Hlen).
    { unfold next_start. lia. }
    exists out. split; [ exact Hout | ].
    pose proof (length_fixed_step text start chunks).
    unfold next_start in Hlen. lia.
  - exists chunks. split; [ done | lia ].
Qed.

(** More fuel than needed changes nothing. *)
Lemma fixed_loop_more_fuel (text : str) (fuel fuel' : nat) (start : Z)
    (chunks out : list Chunk) :
  fixed_loop config fuel text start chunks = Some out ->
  (fuel <= fuel')%nat ->
  fixed_loop config fuel' text start chunks = Some out.
Proof.
  revert fuel' start chunks.
  induction fuel as [|fuel IH]; intros fuel' start chunks.
  - rewrite (fixed_loop_unfold 0), (fixed_loop_unfold fuel').
    by destruct (start <? len text).
  - rewrite (fixed_loop_unfold (S fuel)), (fixed_loop_unfold fuel').
    destruct (start <? len text); [ | done ].
    intros Hout Hle. destruct fuel' as [|fuel']; [ lia | ].
    apply IH; [ exact Hout | lia ].
Qed.

(** With [chunk_size <= chunk_overlap] the window never moves forward. *)
Lemma fixed_loop_diverges (text : str) :
  chunk_size config <= chunk_overlap config ->
  0 < len text ->
  forall (fuel : nat) (start : Z) (chunks : list Chunk),
    start <= 0 -> fixed_loop config fuel text start chunks = None.
Proof.
  intros Hstep Hlen. induction fuel as [|fuel IH]; intros start chunks Hstart;
    rewrite fixed_loop_unfold; destruct (start <? len text) eqn:E; try lia.
  - done.
  - apply IH. unfold next_start. lia.
Qed.

Lemma blank_false_nonempty (text : str) : blank text = false -> 0 < len text.
Proof. destruct text; [ done | unfold len; simpl; lia ]. Qed.
End FixedProperties.

(** A text of [n + 1] letters: it passes the emptiness guard. *)
Lemma blank_letters (n : nat) : PyStr.blank (repeat "a"%char (S n)) = false.
Proof.
  assert (PyStr.dropwhile PyStr.is_space (repeat "a"%char (S n))
          = repeat "a"%char (S n)) as Hdrop by reflexivity.
  unfold PyStr.blank, PyStr.strip, PyStr.rstrip, PyStr.lstrip.
  by rewrite rev_repeat, Hdrop, rev_repeat, Hdrop.
Qed.

(** C10: when [chunk_overlap < chunk_size], every step of
    [FixedSizeChunker.chunk] moves the window start forward by
    [chunk_size - chunk_overlap], and the call returns for every text,
    within [len(text)] iterations and with at most [len(text)] chunks.
    When [chunk_size <= chunk_overlap] the call returns for no text that
    passes the emptiness guard; so a chunker that returns on every text
    longer than [chunk_size] has [chunk_overlap < chunk_size]. *)
Theorem C10_fixed_chunker_terminates (config : Chunker.ChunkerConfig) :
  (Chunker.chunk_overlap config < Chunker.chunk_size config ->
     (forall start,
        Chunker.next_start config start
        = start + (Chunker.chunk_size config - Chunker.chunk_overlap config) /\
        start < Chunker.next_start config start) /\
     forall text, exists chunks,
       Chunker.fixed_chunk config text = Some chunks /\
       (length chunks <= length text)%nat /\
       forall fuel, (length text <= fuel)%nat ->
                    Chunker.fixed_chunk_fuel config fuel text = Some chunks) /\
  (Chunker.chunk_size config <= Chunker.chunk_overlap config ->
     forall text, PyStr.blank text = false ->
     forall fuel, Chunker.fixed_chunk_fuel config fuel text = None) /\
  ((forall text, Chunker.chunk_size config < PyStr.len text ->
      exists fuel chunks, Chunker.fixed_chunk_fuel config fuel text = Some chunks) ->
   Chunker.chunk_overlap config < Chunker.chunk_size config).
Proof.
  assert (Chunker.chunk_size config <= Chunker.chunk_overlap config ->
          forall text, PyStr.blank text = false ->
          forall fuel, Chunker.fixed_chunk_fuel config fuel text = None) as Hdiv.
  { intros Hstep text Hb fuel. unfold Chunker.fixed_chunk_fuel. rewrite Hb.
    apply fixed_loop_diverges; [ done | by apply blank_false_nonempty | lia ]. }
  split; [ | split; [ exact Hdiv | ] ].
  - intros Hstep. split.
    { intros start. unfold Chunker.next_start. lia. }
    intros text. unfold Chunker.fixed_chunk, Chunker.fixed_chunk_fuel.
    destruct (PyStr.blank text) eqn:Hb.
    + exists []. split; [ done | ]. split; [ simpl; lia | done ].
    + destruct (fixed_loop_terminates config text Hstep (length text) 0 [])
        as (out & Hout & Hlen).
      { unfold PyStr.len. lia. }
      exists out. split; [ exact Hout | ]. split.
      * unfold PyStr.len in Hlen. simpl in Hlen. lia.
      * intros fuel Hfuel. by apply (fixed_loop_more_fuel config text (length text)).
  - intros Hall.
    destruct (Z.lt_ge_cases (Chunker.chunk_overlap config) (Chunker.chunk_size config))
      as [Hlt | Hge]; [ exact Hlt | exfalso ].
    set (n := Z.to_nat (Chunker.chunk_size config)).
    destruct (Hall (repeat "a"%char (S n))) as (fuel & chunks & Hsome).
    { unfold PyStr.len. rewrite repeat_length. lia. }
    rewrite (Hdiv Hge _ (blank_letters n)) in Hsome. discriminate.
Qed.

Lemma C10_fixed_chunker_terminates_witness :
  (exists chunks,
     Chunker.fixed_chunk (Chunker.mkConfig 5 1 1 []) (PyStr.lit "abcdefghijkl")
     = Some chunks) /\
  Chunker.fixed_chunk_fuel (Chunker.mkConfig 5 5 1 []) 1000 (PyStr.lit "abcdefghijkl")
  = None.
Proof.
  split.
  - destruct (C10_fixed_chunker_terminates (Chunker.mkConfig 5 1 1 [])) as [Hterm _].
    destruct Hterm as (_ & Hret); [ simpl; lia | ].
    destruct (Hret (PyStr.lit "abcdefghijkl")) as (chunks & Hchunks & _).
    exists chunks. exact Hchunks.
  - destruct (C10_fixed_chunker_terminates (Chunker.mkConfig 5 5 1 []))
      as (_ & Hdiv & _).
    apply Hdiv; [ simpl; lia | reflexivity ].
Defined.

(** *** Regular expressions and masking *)

Section ReProperties.
Import PyStr Re.
Variable P : ascii -> bool.

Lemma class_within_spec (p : ascii -> bool) (c : ascii) :
  class_within P p = true -> p c = true -> P c = true.
Proof.
  unfold class_within. rewrite forallb_forall. intros Hall Hp.
  specialize (Hall (nat_of_ascii c)).
  rewrite ascii_nat_embedding, Hp in Hall. apply Hall.
  apply in_seq. pose proof (nat_ascii_bounded c). lia.
Qed.

Lemma free_cons (c : ascii) (s : str) : free P (c :: s) -> P c = false /\ free P s.
Proof.
  intros Hfree. split; [ apply Hfree, list_elem_of_here | ].
  intros c' Hc'. apply Hfree. by right.
Qed.

Lemma free_app (s1 s2 : str) : free P s1 -> free P s2 -> free P (s1 ++ s2).
Proof.
  intros H1 H2 c Hc. apply elem_of_app in Hc as [Hc | Hc]; [ by apply H1 | by apply H2 ].
Qed.

Lemma free_suffix (pre s : str) : free P (pre ++ s) -> free P s.
Proof. intros Hfree c Hc. apply Hfree, elem_of_app. by right. Qed.

(** A match ends inside the text it started in. *)
Lemma rep_suffix p lo hi prev s q :
  In q (rep p lo hi prev s) -> exists pre, s = pre ++ snd q.
Proof.
  revert lo hi prev. induction s as [|c s IH]; intros lo hi prev; cbn [rep].
  - destruct (lo =? 0)%nat; [ | done ]. intros [<- | []]. by exists [].
  - intros Hin. apply in_app_or in Hin as [Hin | Hin].
    + destruct (p c && hi_allows hi); [ | done ].
      apply IH in Hin as (pre & ->). by exists (c :: pre).
    + destruct (lo =? 0)%nat; [ | done ]. destruct Hin as [<- | []]. by exists [].
Qed.

Lemma matches_suffix r prev s q :
  In q (matches r prev s) -> exists pre, s = pre ++ snd q.
Proof.
  revert prev s q. induction r as [ | p | r1 IH1 r2 IH2 | r1 IH1 r2 IH2 | p lo hi | | p ];
    intros prev s q; cbn [matches].
  - intros [<- | []]. by exists [].
  - destruct s as [|c s]; [ done | ]. destruct (p c); [ | done ].
    intros [<- | []]. by exists [c].
  - intros Hin. apply in_flat_map in Hin as (q1 & Hq1 & Hq).
    apply IH1 in Hq1 as (pre1 & ->). apply IH2 in Hq as (pre2 & ->).
    exists (pre1 ++ pre2). by rewrite <- app_assoc.
  - intros Hin. apply in_app_or in Hin as [Hin | Hin]; eauto.
  - apply rep_suffix.
  - destruct (xorb _ _); [ | done ]. intros [<- | []]. by exists [].
  - destruct prev as [c|]; [ | done ]. destruct (p c); [ | done ].
    intros [<- | []]. by exists [].
Qed.

Lemma flat_map_nil {A B} (f : A -> list B) (l : list A) :
  (forall a, In a l -> f a = []) -> flat_map f l = [].
Proof.
  induction l as [|a l IH]; intros Hall; simpl; [ done | ].
  rewrite (Hall a) by (by left). apply IH. intros a' Ha'. apply Hall. by right.
Qed.

(** A pattern that needs the property matches nowhere in a text free
    of it. *)
Lemma needs_no_match r prev s :
  needs P r = true -> free P s -> matches r prev s = [].
Proof.
  revert prev s. induction r as [ | p | r1 IH1 r2 IH2 | r1 IH1 r2 IH2 | p lo hi | | p ];
    intros prev s Hneeds Hfree; cbn [matches needs] in *; try discriminate.
  - destruct s as [|c s]; [ done | ]. destruct (p c) eqn:Hp; [ | done ].
    apply free_cons in Hfree as [Hc _].
    rewrite (class_within_spec p c Hneeds Hp) in Hc. discriminate.
  - apply orb_true_iff in Hneeds as [Hn | Hn].
    + by rewrite IH1.
    + apply flat_map_nil. intros q Hq. apply IH2; [ done | ].
      apply matches_suffix in Hq as (pre & Hpre). rewrite Hpre in Hfree.
      by apply free_suffix in Hfree.
  - apply andb_true_iff in Hneeds as [Hn1 Hn2]. by rewrite IH1, IH2.
  - apply andb_true_iff in Hneeds as [Hlo Hp].
    apply Nat.ltb_lt in Hlo. destruct lo as [|lo]; [ lia | ].
    destruct s as [|c s]; cbn [rep]; [ done | ].
    destruct (p c) eqn:Hpc; [ | done ].
    apply free_cons in Hfree as [Hc _].
    rewrite (class_within_spec p c Hp Hpc) in Hc. discriminate.
Qed.

Lemma scan_free r prev s :
  needs P r = true -> free P s -> scan r prev s 0 = map Txt s.
Proof.
  intros Hneeds. revert prev. induction s as [|c s IH]; intros prev Hfree;
    cbn [scan]; unfold first_match; rewrite (needs_no_match r prev _ Hneeds Hfree);
    cbn; [ done | ].
  f_equal. apply IH. by apply free_cons in Hfree as [_ Hfree].
Qed.

(** Substituting such a pattern leaves such a text as it is. *)
Lemma sub_free r repl s : needs P r = true -> free P s -> sub r repl s = s.
Proof.
  intros Hneeds Hfree. unfold sub. rewrite (scan_free r None s Hneeds Hfree).
  clear. induction s as [|c s IH]; simpl; [ done | by rewrite IH ].
Qed.
End ReProperties.

Section MaskerProperties.
Import PyStr Re PIIMasker.

Lemma patterns_need_digit_or_at :
  Forall (fun p => needs digit_or_at (pattern p) = true) (patterns init).
Proof. repeat constructor. Qed.

Lemma mask_free (text : str) : free digit_or_at text -> mask init text = text.
Proof.
  intros Hfree. unfold mask. destruct (negb (truthy text)); [ done | ].
  induction patterns_need_digit_or_at as [|p ps Hp _ IH]; [ done | ].
  cbn [fold_left]. by rewrite (sub_free digit_or_at _ _ _ Hp Hfree).
Qed.

Lemma space_free (c : ascii) : is_space c = true -> digit_or_at c = false.
Proof. destruct c as [[] [] [] [] [] [] [] []]; (reflexivity || discriminate). Qed.

Lemma placeholders_free : Forall (free digit_or_at) placeholders.
Proof.
  repeat constructor;
    (intros c Hc; apply list_elem_of_In in Hc; cbn in Hc;
     repeat (destruct Hc as [<- | Hc]; [ reflexivity | ]); destruct Hc).
Qed.

Lemma placeholder_text_free (s : str) : placeholder_text s -> free digit_or_at s.
Proof.
  induction 1 as [ | c s Hc _ IH | p s Hp _ IH ].
  - intros c Hc. inversion Hc.
  - intros c' Hc'. apply elem_of_cons in Hc' as [-> | Hc'];
      [ by apply space_free | by apply IH ].
  - apply free_app; [ | exact IH ].
    pose proof placeholders_free as Hall. rewrite Forall_forall in Hall.
    by apply Hall.
Qed.
End MaskerProperties.

(** The masker on inputs of its test suite. *)
Example mask_ni_number :
  PIIMasker.mask PIIMasker.init (PyStr.lit "NI number is ab123456c")
  = PyStr.lit "NI number is [NI_NUMBER]".
Proof. vm_compute. reflexivity. Qed.

Example mask_emails :
  PIIMasker.mask PIIMasker.init (PyStr.lit "From: alice@test.com To: bob@test.com")
  = PyStr.lit "From: [EMAIL] To: [EMAIL]".
Proof. vm_compute. reflexivity. Qed.

Example mask_phone_and_dob :
  PIIMasker.mask PIIMasker.init (PyStr.lit "Phone: +44 7700 900123, born 15/03/1990")
  = PyStr.lit "Phone: [PHONE], born [DOB]".
Proof. vm_compute. reflexivity. Qed.

Example mask_sort_code_needs_hyphens :
  PIIMasker.mask PIIMasker.init (PyStr.lit "Sort code: 12 34 56, or 12-34-56")
  = PyStr.lit "Sort code: 12 34 56, or [SORT_CODE]".
Proof. vm_compute. reflexivity. Qed.

Example mask_postcode_and_account :
  PIIMasker.mask PIIMasker.init (PyStr.lit "SW1A 2AA, account number: 12345678")
  = PyStr.lit "[POSTCODE], account number: [BANK_ACCOUNT]".
Proof. vm_compute. reflexivity. Qed.

(** C9: masking a text made only of the masker's placeholder tokens and
    whitespace returns the text unchanged. *)
Theorem C9_mask_idempotent_on_placeholders (text : PyStr.str) :
  placeholder_text text -> PIIMasker.mask PIIMasker.init text = text.
Proof. intros Htext. by apply mask_free, placeholder_text_free. Qed.

Example placeholders_listed :
  placeholders
  = map PyStr.lit [ "[NI_NUMBER]"; "[DOB]"; "[PHONE]"; "[EMAIL]"; "[POSTCODE]";
                    "[SORT_CODE]"; "[BANK_ACCOUNT]"; "[PASSPORT]" ].
Proof. reflexivity. Qed.

Lemma C9_mask_idempotent_on_placeholders_witness :
  PIIMasker.mask PIIMasker.init (PyStr.lit "[NI_NUMBER] [PHONE]")
  = PyStr.lit "[NI_NUMBER] [PHONE]".
Proof.
  apply C9_mask_idempotent_on_placeholders.
  apply (pt_token (PyStr.lit "[NI_NUMBER]") (PyStr.lit " [PHONE]")).
  { apply list_elem_of_In. cbn. tauto. }
  apply pt_space; [ reflexivity | ].
  apply (pt_token (PyStr.lit "[PHONE]") []).
  { apply list_elem_of_In. cbn. tauto. }
  apply pt_end.
Defined.

(** *** Chunking *)

Section StripProperties.
Import PyStr.

Lemma dropwhile_suffix (p : ascii -> bool) (s : str) :
  exists pre, s = pre ++ dropwhile p s.
Proof.
  induction s as [|c s (pre & IH)]; simpl; [ by exists [] | ].
  destruct (p c); [ | by exists [] ].
  exists (c :: pre). simpl. by rewrite <- IH.
Qed.







End StripProperties.

Section ChunkProperties.
Import PyStr Chunker.






(** **** Recursive *)

Lemma chunks_from_cons (k : nat) (x : str) (l : list str) :
  chunks_from k (x :: l)
  = (if truthy (strip x)
     then [mkChunk (strip x) (Z.of_nat k) (chunk_metadata (len x) "recursive")]
     else []) ++ chunks_from (S k) l.
Proof.
  unfold chunks_from. cbn [imap flat_map]. rewrite Nat.add_0_r. f_equal.
  f_equal. apply imap_ext. intros i y _. cbn. do 2 f_equal. lia.
Qed.

Lemma make_chunks_from (l : list str) : make_chunks l = chunks_from 0 l.
Proof. reflexivity. Qed.


(** **** Sentence *)



Lemma sentence_chunks_from_cons (k : nat) (x : str) (l : list str) :
  sentence_chunks_from k (x :: l)
  = mkChunk x (Z.of_nat k) (chunk_metadata (len x) "sentence")
      :: sentence_chunks_from (S k) l.
Proof.
  unfold sentence_chunks_from. cbn [imap map]. rewrite Nat.add_0_r. f_equal.
  f_equal. apply imap_ext. intros i y _. cbn. do 2 f_equal. lia.
Qed.


(** **** Fixed size *)

Lemma fixed_loop_invariant (config : ChunkerConfig) (text : str)
    (I : list Chunk -> Prop) :
  (forall start chunks, I chunks -> I (fixed_step config text start chunks)) ->
  forall fuel start chunks out,
    I chunks -> fixed_loop config fuel text start chunks = Some out -> I out.
Proof.
  intros Hstep. induction fuel as [|fuel IH]; intros start chunks out Hi;
    rewrite fixed_loop_unfold; destruct (start <? len text); try done.
  - by intros [= <-].
  - apply IH. by apply Hstep.
  - by intros [= <-].
Qed.

End ChunkProperties.

(** The chunkers on small texts. *)
Example fixed_windows :
  option_map (map (fun c => (Chunker.text c, Chunker.index c)))
    (Chunker.fixed_chunk (Chunker.mkConfig 5 1 1 []) (PyStr.lit "abcdefghijkl"))
  = Some [ (PyStr.lit "abcde", 0); (PyStr.lit "efghi", 1); (PyStr.lit "ijkl", 2) ].
Proof. vm_compute. reflexivity. Qed.

Example sentences_grouped :
  map Chunker.text
    (Chunker.sentence_chunk (Chunker.mkConfig 20 0 0 [])
       (PyStr.lit "One. Two!  Three? Four five six seven. Eight."))
  = map PyStr.lit [ "One. Two! Three?"; "Four five six seven."; "Eight." ].
Proof. vm_compute. reflexivity. Qed.

Example recursive_short_text :
  Chunker.recursive_chunk Chunker.default_config (PyStr.lit "This is a short text.")
  = [ Chunker.mkChunk (PyStr.lit "This is a short text.") 0
        (Chunker.chunk_metadata 21 "recursive") ].
Proof. vm_compute. reflexivity. Qed.




Section ChunkTextProperties.
Import PyStr Chunker.











End ChunkTextProperties.

Section ChunkCoverage.
Import PyStr Chunker.





(** **** Fixed size *)





(** **** Sentence *)








End ChunkCoverage.

(** The sentence chunker joins sentences with a space where the text
    had a line break. *)
Example sentence_joins_with_space :
  exists c,
    Chunker.chunk Chunker.Sentence Chunker.default_config
      (PyStr.lit "A." ++ Chunker.NL :: PyStr.lit "B.") = Some [c] /\
    Chunker.text c = PyStr.lit "A. B." /\
    " "%char ∈ Chunker.text c /\
    " "%char ∉ PyStr.lit "A." ++ Chunker.NL :: PyStr.lit "B.".
Proof.
  eexists. split; [ vm_compute; reflexivity | ]. split; [ reflexivity | ]. split.
  - apply list_elem_of_In. cbn. tauto.
  - intros Hin. apply list_elem_of_In in Hin. cbn in Hin. intuition discriminate.
Qed.

(** C4 does not hold of [_split_recursive] and [_merge_small_chunks]:
    [_split_recursive] puts the separator after every piece of a split,
    the last one included, and does so again with each further separator
    it tries on a buffer that is still too long.  With [chunk_size] 5,
    [chunk_overlap] 1 and [min_chunk_size] 1 the text ["aaaaaaaa"], which
    holds no separator at all, is split into seven pieces that end in
    separators, and the chunks emitted hold a line break, a full stop and
    other punctuation the text never had.  With [min_chunk_size] 4 the
    chunks of ["ab cdef gh"] have lost ["ab"] as well: [_merge_small_chunks]
    drops a buffer below [min_chunk_size] and carries on with its overlap
    only, so the chunks do not cover the text either. *)
Theorem C4_recursive_chunker_invents_separators :
  let config := Chunker.mkConfig 5 1 1 Chunker.default_separators in
  let text := PyStr.lit "aaaaaaaa" in
  let config' := Chunker.mkConfig 5 1 4 Chunker.default_separators in
  let text' := PyStr.lit "ab cdef gh" in
  Chunker._split_recursive config (Chunker.separators config) text
  = [ PyStr.lit "aaaaa"; PyStr.lit "aaa" ++ Chunker.NL :: PyStr.lit ".";
      PyStr.lit " "; PyStr.lit "? ! "; PyStr.lit "; ,  ";
      [Chunker.NL; Chunker.NL]; [Chunker.NL; Chunker.NL; Chunker.NL] ] /\
  Chunker._merge_small_chunks config
    (Chunker._split_recursive config (Chunker.separators config) text)
  = [ PyStr.lit "aaaaa"; PyStr.lit "aaaa" ++ Chunker.NL :: PyStr.lit ".";
      PyStr.lit ". "; PyStr.lit " ? ! "; PyStr.lit " ; ,  ";
      PyStr.lit " " ++ [Chunker.NL; Chunker.NL];
      [Chunker.NL; Chunker.NL; Chunker.NL; Chunker.NL] ] /\
  map Chunker.text (Chunker.recursive_chunk config text)
  = [ PyStr.lit "aaaaa"; PyStr.lit "aaaa" ++ Chunker.NL :: PyStr.lit ".";
      PyStr.lit "."; PyStr.lit "? !"; PyStr.lit "; ," ] /\
  (forall c, c ∈ Chunker.NL :: PyStr.lit ".?!;," ->
     (c ∉ text) /\
     exists chunk, chunk ∈ Chunker.recursive_chunk config text /\
                   c ∈ Chunker.text chunk) /\
  map Chunker.text (Chunker.recursive_chunk config' text')
  = [ PyStr.lit "cdef"; PyStr.lit "gh" ++ Chunker.NL :: PyStr.lit ".";
      PyStr.lit "? !"; PyStr.lit "; ," ] /\
  "a"%char ∈ text' /\
  (forall chunk, chunk ∈ Chunker.recursive_chunk config' text' ->
                 "a"%char ∉ Chunker.text chunk).
Proof.
  cbv zeta. split; [ vm_compute; reflexivity | ].
  split; [ vm_compute; reflexivity | ].
  split; [ vm_compute; reflexivity | ].
  split; [ | split; [ vm_compute; reflexivity | split ] ].
  - intros c Hc. split.
    + intros Hin. apply list_elem_of_In in Hin, Hc. cbn in Hin, Hc.
      intuition (subst; discriminate).
    + apply list_elem_of_In in Hc. cbn in Hc.
      destruct Hc as [<- | [<- | [<- | [<- | [<- | [<- | []]]]]]].
      * eexists. split; [ apply list_elem_of_In; vm_compute; right; left; reflexivity | ].
        apply list_elem_of_In. cbn. tauto.
      * eexists. split; [ apply list_elem_of_In; vm_compute; right; left; reflexivity | ].
        apply list_elem_of_In. cbn. tauto.
      * eexists. split; [ apply list_elem_of_In; vm_compute; do 3 right; left; reflexivity | ].
        apply list_elem_of_In. cbn. tauto.
      * eexists. split; [ apply list_elem_of_In; vm_compute; do 3 right; left; reflexivity | ].
        apply list_elem_of_In. cbn. tauto.
      * eexists. split; [ apply list_elem_of_In; vm_compute; do 4 right; left; reflexivity | ].
        apply list_elem_of_In. cbn. tauto.
      * eexists. split; [ apply list_elem_of_In; vm_compute; do 4 right; left; reflexivity | ].
        apply list_elem_of_In. cbn. tauto.
  - apply list_elem_of_In. cbn. tauto.
  - intros chunk Hchunk Hin. apply list_elem_of_In in Hchunk.
    vm_compute in Hchunk.
    destruct Hchunk as [<- | [<- | [<- | [<- | []]]]];
      apply list_elem_of_In in Hin; cbn in Hin; intuition discriminate.
Qed.



(** ** Part IV. Further properties *)

(** *** Evaluation metrics *)

Section MetricsProperties.
Import Evaluation Metrics.

Lemma frac_bounds (a b : nat) :
  (a <= b)%nat -> (0 <= Z.of_nat a # Pos.of_nat b <= 1)%Q.
Proof.
  intros Hle. unfold Qle; cbn [Qnum Qden]. rewrite !Z.mul_1_r, Z.mul_1_l.
  split; [ lia | ]. destruct b as [|b]; [ simpl; lia | ].
  rewrite <- positive_nat_Z, Nat2Pos.id by lia. lia.
Qed.

Lemma frac_zero (a : nat) (b : positive) : (Z.of_nat a # b == 0)%Q <-> a = 0%nat.
Proof. unfold Qeq; cbn [Qnum Qden]. lia. Qed.

(** Counting with a boolean test that decides the property. *)
Lemma filter_counts {A : Type} (P : A -> Prop) (f : A -> bool) (l : list A) :
  (forall x, f x = true <-> P x) -> counts P l (length (List.filter f l)).
Proof.
  intros Hf. induction l as [|x l IH]; cbn [List.filter]; [ constructor | ].
  destruct (f x) eqn:E.
  - cbn [length]. constructor; [ by apply Hf | done ].
  - apply counts_no; [ | done ]. intros Hx. apply Hf in Hx. congruence.
Qed.

Lemma counts_le {A : Type} (P : A -> Prop) (l : list A) (n : nat) :
  counts P l n -> (n <= length l)%nat.
Proof. induction 1; simpl; lia. Qed.

Lemma counts_zero {A : Type} (P : A -> Prop) (l : list A) :
  counts P l 0 <-> forall x, x ∈ l -> ~ P x.
Proof.
  split.
  - remember 0%nat as n eqn:Hn. induction 1 as [ | | x l n Hx Hc IH ]; [ | done | ].
    + intros x Hx. inversion Hx.
    + intros y Hy. apply elem_of_cons in Hy as [-> | Hy]; [ done | by apply IH ].
  - induction l as [|x l IH]; intros Hall; [ constructor | ].
    apply counts_no; [ apply Hall, list_elem_of_here | ].
    apply IH. intros y Hy. apply Hall. by right.
Qed.

Lemma in_relevant_set (relevant : list string) (d : string) :
  bool_decide (d ∈ (list_to_set relevant : gset string)) = true <-> d ∈ relevant.
Proof. by rewrite bool_decide_eq_true, elem_of_list_to_set. Qed.

(** The size of the set of relevant ids found, in terms of lists. *)
Lemma found_zero (top_k relevant : list string) :
  size ((list_to_set top_k : gset string) ∩ list_to_set relevant) = 0%nat <->
  forall d, d ∈ top_k -> d ∉ relevant.
Proof.
  rewrite size_empty_iff. split.
  - intros Hempty d Hd Hr. apply (not_elem_of_empty (C := gset string) d).
    rewrite <- Hempty. set_solver.
  - intros Hnone. apply elem_of_equiv_empty. intros d Hd.
    apply elem_of_intersection in Hd as [Hd Hr].
    apply elem_of_list_to_set in Hd, Hr. by apply (Hnone d).
Qed.

Lemma remove_dups_length_le (l : list string) :
  (length (remove_dups l) <= length l)%nat.
Proof.
  induction l as [|x l IH]; [ done | ]. cbn [remove_dups].
  destruct (decide_rel elem_of x l); simpl; lia.
Qed.

Lemma size_set_le (l : list string) :
  (size (list_to_set l : gset string) <= length l)%nat.
Proof. rewrite size_relevant. apply remove_dups_length_le. Qed.

Lemma found_le (top_k relevant : list string) :
  (size ((list_to_set top_k : gset string) ∩ list_to_set relevant) <= length top_k)%nat /\
  (size ((list_to_set top_k : gset string) ∩ list_to_set relevant)
   <= size (list_to_set relevant : gset string))%nat.
Proof.
  split.
  - etransitivity; [ | apply size_set_le ].
    apply (subseteq_size (C := gset string)), intersection_subseteq_l.
  - apply (subseteq_size (C := gset string)), intersection_subseteq_r.
Qed.

(** Recall is between 0 and 1, whatever [k]. *)
Lemma recall_bounds svc relevant retrieved k_arg :
  (0 <= recall_at_k svc relevant retrieved k_arg <= 1)%Q.
Proof.
  unfold recall_at_k. destruct relevant as [|x rel]; [ done | ].
  apply frac_bounds, found_le.
Qed.

Lemma precision_bounds svc relevant retrieved k_arg :
  (0 <= precision_at_k svc relevant retrieved k_arg <= 1)%Q.
Proof.
  unfold precision_at_k. destruct (PyList.slice_to _ _) as [|d top] eqn:E; [ done | ].
  apply frac_bounds, filter_length_le.
Qed.

Lemma rank_loop_bounds (s : gset string) (rank : positive) (l : list string) :
  (0 <= rank_loop s rank l <= 1)%Q.
Proof.
  revert rank. induction l as [|d l IH]; intros rank; cbn [rank_loop]; [ done | ].
  destruct (bool_decide _); [ | apply IH ].
  unfold Qle; cbn [Qnum Qden]. lia.
Qed.

Lemma reciprocal_rank_bounds svc relevant retrieved :
  (0 <= reciprocal_rank svc relevant retrieved <= 1)%Q.
Proof.
  unfold reciprocal_rank. destruct relevant, retrieved; try done.
  apply rank_loop_bounds.
Qed.

(** The loop returns the reciprocal of the rank of the first relevant
    id, counting from [rank], and 0 when there is none. *)
Lemma rank_loop_first (s : gset string) (l : list string) :
  forall (rank : positive) (i : nat) (d : string),
    l !! i = Some d -> d ∈ s ->
    (forall j d', (j < i)%nat -> l !! j = Some d' -> d' ∉ s) ->
    rank_loop s rank l = (1 # Pos.of_nat (Pos.to_nat rank + i))%Q.
Proof.
  induction l as [|x l IH]; intros rank i d Hi Hd Hbefore; [ done | ].
  cbn [rank_loop]. destruct i as [|i].
  - injection Hi as ->. rewrite bool_decide_eq_true_2 by done.
    by rewrite Nat.add_0_r, Pos2Nat.id.
  - rewrite bool_decide_eq_false_2.
    2:{ apply (Hbefore 0%nat x); [ lia | done ]. }
    rewrite (IH (Pos.succ rank) i d Hi Hd).
    + do 2 f_equal. lia.
    + intros j d' Hj Hd'. apply (Hbefore (S j) d'); [ lia | done ].
Qed.

Lemma rank_loop_none (s : gset string) (l : list string) (rank : positive) :
  (rank_loop s rank l == 0)%Q <-> forall d, d ∈ l -> d ∉ s.
Proof.
  revert rank. induction l as [|x l IH]; intros rank; cbn [rank_loop].
  - split; [ intros _ d Hd; inversion Hd | done ].
  - destruct (bool_decide (x ∈ s)) eqn:E.
    + apply bool_decide_eq_true in E. split; [ done | ].
      intros Hnone. destruct (Hnone x (list_elem_of_here _ _) E).
    + apply bool_decide_eq_false in E. rewrite IH. split.
      * intros Hnone d Hd. apply elem_of_cons in Hd as [-> | Hd]; [ done | by apply Hnone ].
      * intros Hnone d Hd. apply Hnone. by right.
Qed.

Lemma qsum_bounds (l : list Q) (a : Q) :
  Forall (fun q => 0 <= q <= 1)%Q l ->
  (a <= fold_left Qplus l a <= a + inject_Z (Z.of_nat (length l)))%Q.
Proof.
  intros Hall. revert a. induction Hall as [|q l [Hq0 Hq1] _ IH]; intros a.
  - cbn. split; [ apply Qle_refl | ]. rewrite Qplus_0_r. apply Qle_refl.
  - cbn [fold_left length]. destruct (IH (a + q)%Q) as [Hlo Hhi]. split.
    + eapply Qle_trans; [ | exact Hlo ].
      rewrite <- (Qplus_0_r a) at 1. by apply Qplus_le_r.
    + eapply Qle_trans; [ exact Hhi | ].
      rewrite Nat2Z.inj_succ, <- Z.add_1_l, inject_Z_plus.
      rewrite Qplus_assoc. apply Qplus_le_l. by apply Qplus_le_r.
Qed.

(** A mean of values between 0 and 1 is between 0 and 1. *)
Lemma mean_bounds (l : list Q) :
  l <> [] -> Forall (fun q => 0 <= q <= 1)%Q l -> (0 <= mean l <= 1)%Q.
Proof.
  intros Hne Hall. unfold mean, qsum.
  destruct (qsum_bounds l 0 Hall) as [Hlo Hhi]. rewrite Qplus_0_l in Hhi.
  assert (0 < inject_Z (Z.of_nat (length l)))%Q as Hpos.
  { destruct l; [ done | ]. unfold Qlt. simpl. lia. }
  split.
  - apply Qle_shift_div_l; [ done | ]. by rewrite Qmult_0_l.
  - apply Qle_shift_div_r; [ done | ]. by rewrite Qmult_1_l.
Qed.
(** The reciprocal rank is 0 exactly when no retrieved id is relevant. *)
Lemma reciprocal_rank_zero svc relevant retrieved :
  (reciprocal_rank svc relevant retrieved == 0)%Q <->
  forall d, d ∈ retrieved -> d ∉ relevant.
Proof.
  unfold reciprocal_rank.
  destruct relevant as [|r rel]; [ split; [ intros _ d _ Hd; inversion Hd | done ] | ].
  destruct retrieved as [|x l]; [ split; [ intros _ d Hd; inversion Hd | done ] | ].
  rewrite rank_loop_none. split; intros Hnone d Hd Hr; apply (Hnone d Hd);
    set_solver.
Qed.
End MetricsProperties.

(** X1: for a positive [k], [precision_at_k] is the number of the first
    [k] retrieved ids, repetitions counted, that are relevant, divided by
    the number of ids among those first [k] (not by [k]); it is 0 when
    nothing was retrieved, and always between 0 and 1. *)
Theorem X1_precision_at_k (svc : Evaluation.EvaluationService)
    (relevant retrieved : list string) (k : Z) :
  0 < k ->
  let top_k := take (Z.to_nat k) retrieved in
  let precision := Metrics.precision_at_k svc relevant retrieved (Some k) in
  (exists n,
     counts (fun doc_id => doc_id ∈ relevant) top_k n /\
     (top_k <> [] ->
      precision = (Z.of_nat n # Pos.of_nat (length top_k))%Q)) /\
  (retrieved = [] -> precision = 0%Q) /\
  (0 <= precision <= 1)%Q.
Proof.
  intros Hk top_k precision. split; [ | split ].
  - exists (length (List.filter
                      (fun d => bool_decide (d ∈ (list_to_set relevant : gset string)))
                      top_k)).
    split; [ apply filter_counts, in_relevant_set | ].
    intros Hne. subst precision top_k. unfold Metrics.precision_at_k, PyList.int_or.
    destruct (k =? 0) eqn:E; [ lia | ].
    rewrite slice_to_positive by done.
    by destruct (take (Z.to_nat k) retrieved).
  - intros ->. subst precision. unfold Metrics.precision_at_k, PyList.slice_to.
    by rewrite take_nil.
  - apply precision_bounds.
Qed.

Lemma X1_precision_at_k_witness :
  Metrics.precision_at_k (Evaluation.mkEvaluationService 5)
    ["a"] ["b"; "a"; "c"; "a"] (Some 4)
  = (2 # 4)%Q.
Proof.
  destruct (X1_precision_at_k (Evaluation.mkEvaluationService 5)
              ["a"] ["b"; "a"; "c"; "a"] 4) as ((n & Hn & Heq) & _); [ lia | ].
  rewrite Heq by discriminate. cbn in Hn.
  assert (n = 2%nat) as ->; [ | reflexivity ].
  eapply counts_unique; [ exact Hn | ].
  apply counts_no; [ set_solver | ]. apply counts_yes; [ set_solver | ].
  apply counts_no; [ set_solver | ]. apply counts_yes; [ set_solver | ].
  constructor.
Defined.

(** X2: [reciprocal_rank] is 1 over the 1-based rank of the first
    retrieved id that is relevant, and it is 0 exactly when no retrieved
    id is relevant, which includes the cases of an empty list. *)
Theorem X2_reciprocal_rank (svc : Evaluation.EvaluationService)
    (relevant retrieved : list string) :
  let rr := Metrics.reciprocal_rank svc relevant retrieved in
  ((rr == 0)%Q <-> forall d, d ∈ retrieved -> d ∉ relevant) /\
  (forall i d,
     retrieved !! i = Some d -> d ∈ relevant ->
     (forall j d', (j < i)%nat -> retrieved !! j = Some d' -> d' ∉ relevant) ->
     rr = (1 # Pos.of_nat (S i))%Q) /\
  (0 <= rr <= 1)%Q.
Proof.
  intros rr. subst rr. split; [ | split ].
  - apply reciprocal_rank_zero.
  - intros i d Hi Hd Hbefore. unfold Metrics.reciprocal_rank.
    destruct relevant as [|r rel]; [ inversion Hd | ].
    destruct retrieved as [|x l]; [ done | ].
    rewrite (rank_loop_first _ _ 1 i d Hi).
    + reflexivity.
    + by apply elem_of_list_to_set.
    + intros j d' Hj Hd' Hin. apply (Hbefore j d' Hj Hd').
      by apply elem_of_list_to_set in Hin.
  - apply reciprocal_rank_bounds.
Qed.

Lemma X2_reciprocal_rank_witness :
  Metrics.reciprocal_rank (Evaluation.mkEvaluationService 5) ["a"] ["x"; "a"; "y"]
  = (1 # 2)%Q.
Proof.
  destruct (X2_reciprocal_rank (Evaluation.mkEvaluationService 5) ["a"] ["x"; "a"; "y"])
    as (_ & Hfirst & _).
  apply (Hfirst 1%nat "a").
  - reflexivity.
  - set_solver.
  - intros j d' Hj Hd'. assert (j = 0%nat) as -> by lia.
    injection Hd' as <-. set_solver.
Defined.

Section EvaluateProperties.
Import Evaluation Metrics.

Lemma filter_length_zero {A : Type} (f : A -> bool) (l : list A) :
  length (List.filter f l) = 0%nat <-> forall x, x ∈ l -> f x = false.
Proof.
  induction l as [|x l IH]; cbn [List.filter].
  - split; [ intros _ y Hy; inversion Hy | done ].
  - destruct (f x) eqn:E.
    + split; [ done | ]. intros Hall. rewrite (Hall x) in E by apply list_elem_of_here.
      discriminate.
    + rewrite IH. split.
      * intros Hall y Hy. apply elem_of_cons in Hy as [-> | Hy]; [ done | by apply Hall ].
      * intros Hall y Hy. apply Hall. by right.
Qed.

Lemma slice_to_elem {A : Type} (l : list A) (b : Z) (x : A) :
  x ∈ PyList.slice_to l b -> x ∈ l.
Proof.
  unfold PyList.slice_to. intros Hx. apply elem_of_take in Hx as (i & Hi & _).
  by apply (list_elem_of_lookup_2 _ i).
Qed.

Lemma slice_to_length {A : Type} (l : list A) (b : Z) :
  (length (PyList.slice_to l b) <= length l)%nat.
Proof. unfold PyList.slice_to. rewrite length_take. lia. Qed.
End EvaluateProperties.

(** X3: the result of [evaluate_query] is coherent: the number of
    relevant ids found is at most the number of relevant ids and the number
    of retrieved ids; precision is 0 exactly when that number is 0, and so
    is recall when some relevant id is given; and a reciprocal rank of 0
    means that nothing relevant was found. *)
Theorem X3_evaluate_query_coherent (svc : Evaluation.EvaluationService)
    (query : string) (relevant retrieved : list string) (k_arg : option Z) :
  let r := Metrics.evaluate_query svc query relevant retrieved k_arg in
  0 <= EvaluationResult.relevant_found r <= EvaluationResult.relevant_total r /\
  EvaluationResult.relevant_found r <= EvaluationResult.retrieved_total r /\
  ((EvaluationResult.precision r == 0)%Q <-> EvaluationResult.relevant_found r = 0) /\
  (relevant <> [] ->
   ((EvaluationResult.recall r == 0)%Q <-> EvaluationResult.relevant_found r = 0)) /\
  ((EvaluationResult.reciprocal_rank r == 0)%Q -> EvaluationResult.relevant_found r = 0).
Proof.
  intros r. subst r. unfold Metrics.evaluate_query. cbn.
  set (k := PyList.int_or k_arg (Evaluation.k svc)).
  set (top_k := PyList.slice_to retrieved k).
  destruct (found_le top_k relevant) as [Htop Hrel].
  pose proof (size_set_le relevant). pose proof (slice_to_length retrieved k).
  assert (PyList.int_or (Some k) (Evaluation.k svc) = k) as Hk.
  { unfold PyList.int_or. destruct (k =? 0) eqn:E; [ | done ].
    apply Z.eqb_eq in E. subst k. unfold PyList.int_or in *.
    destruct k_arg as [n|]; [ destruct (n =? 0) eqn:En; [ done | lia ] | done ]. }
  split; [ lia | ]. split; [ fold top_k in H0; lia | ]. split; [ | split ].
  - unfold Metrics.precision_at_k. rewrite Hk. fold top_k.
    rewrite Nat2Z.inj_iff with (m := 0%nat), found_zero.
    destruct top_k as [|d top] eqn:E.
    { split; [ intros _ x Hx; inversion Hx | done ]. }
    rewrite frac_zero, filter_length_zero. split; intros Hnone x Hx.
    + specialize (Hnone x Hx). apply bool_decide_eq_false in Hnone.
      by rewrite elem_of_list_to_set in Hnone.
    + apply bool_decide_eq_false. rewrite elem_of_list_to_set. by apply Hnone.
  - intros Hne. unfold Evaluation.recall_at_k. rewrite Hk. fold top_k.
    destruct relevant as [|x rel]; [ done | ].
    by rewrite frac_zero, Nat2Z.inj_iff with (m := 0%nat).
  - intros Hrr. apply (Nat2Z.inj_iff _ 0%nat), found_zero. intros d Hd.
    apply (proj1 (reciprocal_rank_zero svc relevant retrieved) Hrr).
    by apply (slice_to_elem retrieved k).
Qed.

Section BatchProperties.
Import Evaluation Metrics.

(** Passing on the [k] already chosen chooses it again. *)
Lemma int_or_again (k_arg : option Z) (d : Z) :
  PyList.int_or (Some (PyList.int_or k_arg d)) d = PyList.int_or k_arg d.
Proof.
  unfold PyList.int_or. destruct k_arg as [n|].
  - destruct (n =? 0) eqn:E; [ | by rewrite E ]. by destruct (d =? 0).
  - by destruct (d =? 0).
Qed.

Lemma evaluate_query_again svc query relevant retrieved k_arg :
  evaluate_query svc query relevant retrieved (Some (PyList.int_or k_arg (k svc)))
  = evaluate_query svc query relevant retrieved k_arg.
Proof. unfold evaluate_query. by rewrite int_or_again. Qed.

Lemma Forall_map_bounds {A : Type} (f : A -> Q) (l : list A) :
  (forall x, 0 <= f x <= 1)%Q -> Forall (fun q => 0 <= q <= 1)%Q (map f l).
Proof. intros Hf. induction l; constructor; auto. Qed.
End BatchProperties.

(** X4: [evaluate_batch] evaluates every query, in order, as
    [evaluate_query] does with the same [k]; it counts the queries, and
    each of its three means lies between 0 and 1, the means of no query
    being 0. *)
Theorem X4_evaluate_batch (svc : Evaluation.EvaluationService)
    (queries : list EvaluationQuery.t) (k_arg : option Z) :
  let a := Metrics.evaluate_batch svc queries k_arg in
  AggregateResults.individual_results a
  = map (fun eq => Metrics.evaluate_query svc (EvaluationQuery.query eq)
                     (EvaluationQuery.relevant_ids eq)
                     (EvaluationQuery.retrieved_ids eq) k_arg) queries /\
  AggregateResults.total_queries a = Z.of_nat (length queries) /\
  (0 <= AggregateResults.mean_recall a <= 1)%Q /\
  (0 <= AggregateResults.mean_precision a <= 1)%Q /\
  (0 <= AggregateResults.mrr a <= 1)%Q /\
  (queries = [] ->
   AggregateResults.mean_recall a = 0%Q /\
   AggregateResults.mean_precision a = 0%Q /\
   AggregateResults.mrr a = 0%Q).
Proof.
  intros a. subst a. destruct queries as [|q qs]; [ by cbn | ].
  unfold Metrics.evaluate_batch.
  cbn [AggregateResults.individual_results AggregateResults.total_queries
       AggregateResults.mean_recall AggregateResults.mean_precision
       AggregateResults.mrr].
  split; [ | split; [ done | ] ].
  { apply map_ext. intros eq. apply evaluate_query_again. }
  rewrite !map_map.
  repeat split; try done;
    try (apply mean_bounds; [ done | apply Forall_map_bounds; intros eq; cbn ]);
    first [ apply recall_bounds | apply precision_bounds
          | apply reciprocal_rank_bounds | idtac ].
Qed.

Lemma X4_evaluate_batch_witness :
  AggregateResults.mean_recall (Metrics.evaluate_batch (Evaluation.mkEvaluationService 5) [] None)
  = 0%Q.
Proof.
  by destruct (X4_evaluate_batch (Evaluation.mkEvaluationService 5) [] None)
    as (_ & _ & _ & _ & _ & Hzero); destruct (Hzero eq_refl) as [-> _].
Defined.

(** *** Access control *)

Section AccessProperties.
Import RBAC Access.

Lemma has_any_role_spec (user : User) (rs : list string) :
  has_any_role user rs = true <-> exists r, r ∈ roles user /\ r ∈ rs.
Proof.
  unfold has_any_role. rewrite bool_decide_eq_true. split.
  - intros Hne. apply set_choose_L in Hne as (r & Hr). exists r. set_solver.
  - intros (r & Hu & Hr). set_solver.
Qed.

(** A list kept by a boolean test is a sublist. *)
Lemma filter_sublist {A : Type} (f : A -> bool) (l : list A) :
  sublist (List.filter f l) l.
Proof.
  induction l as [|x l IH]; cbn [List.filter]; [ constructor | ].
  destruct (f x); by constructor.
Qed.

Lemma filter_elem {A : Type} (f : A -> bool) (l : list A) (x : A) :
  x ∈ List.filter f l <-> x ∈ l /\ f x = true.
Proof. rewrite !list_elem_of_In. apply filter_In. Qed.

Lemma filter_filter_same {A : Type} (f : A -> bool) (l : list A) :
  List.filter f (List.filter f l) = List.filter f l.
Proof.
  induction l as [|x l IH]; [ done | ]. cbn [List.filter].
  destruct (f x) eqn:E; [ | done ]. cbn [List.filter]. by rewrite E, IH.
Qed.

Lemma kept_spec {A : Type} (shape_of : A -> shape) svc user roles_field (r : A) :
  kept shape_of svc user roles_field r = true <->
  exists document_roles,
    document_roles_of (shape_of r) roles_field = Some (Some document_roles) /\
    can_access svc user document_roles = true.
Proof.
  unfold kept. destruct (document_roles_of (shape_of r) roles_field) as [[d|]|].
  - split; [ eauto | ]. by intros (d' & [= <-] & Hd).
  - split; [ done | ]. by intros (d' & [=] & _).
  - split; [ done | ]. by intros (d' & [=] & _).
Qed.

(** Filtering what was kept keeps all of it. *)
Lemma filter_results_kept {A : Type} (shape_of : A -> shape) svc user roles_field
    (l : list A) :
  Forall (fun r => kept shape_of svc user roles_field r = true) l ->
  filter_results shape_of svc user l roles_field = Some l.
Proof.
  induction 1 as [|r l Hr _ IH]; [ done | ]. cbn [filter_results].
  apply kept_spec in Hr as (d & -> & ->). by rewrite IH.
Qed.

Lemma departments_loop_admin (l : list string) (s : gset string) :
  "admin" ∈ l -> departments_loop l s = ["*"].
Proof.
  revert s. induction l as [|role l IH]; intros s Hin; [ inversion Hin | ].
  cbn [departments_loop]. destruct (String.eqb role "admin") eqn:E; [ done | ].
  apply String.eqb_neq in E.
  apply elem_of_cons in Hin as [Heq | Hin]; [ congruence | ].
  destruct (role_department role); by apply IH.
Qed.

Lemma departments_loop_elem (l : list string) (s : gset string) (d : string) :
  "admin" ∉ l ->
  d ∈ departments_loop l s <->
  d ∈ s \/ exists role, role ∈ l /\ role_department role = Some d.
Proof.
  revert s. induction l as [|role l IH]; intros s Hadmin; cbn [departments_loop].
  - rewrite elem_of_elements. split; [ tauto | ].
    intros [Hd | (role & Hrole & _)]; [ done | inversion Hrole ].
  - destruct (String.eqb role "admin") eqn:E.
    { apply String.eqb_eq in E. subst role. exfalso. apply Hadmin. by left. }
    assert ("admin" ∉ l) as Hl by (intros Hin; apply Hadmin; by right).
    destruct (role_department role) as [dept|] eqn:Hdept; rewrite (IH _ Hl).
    + rewrite elem_of_union, elem_of_singleton. split.
      * intros [[-> | Hs] | (role' & Hin & Hd)]; [ right | by left | right ].
        -- exists role. split; [ by left | done ].
        -- exists role'. split; [ by right | done ].
      * intros [Hs | (role' & Hin & Hd)]; [ by left; right | ].
        apply elem_of_cons in Hin as [-> | Hin].
        -- left; left. congruence.
        -- right. eauto.
    + split.
      * intros [Hs | (role' & Hin & Hd)]; [ by left | right ].
        exists role'. split; [ by right | done ].
      * intros [Hs | (role' & Hin & Hd)]; [ by left | ].
        apply elem_of_cons in Hin as [-> | Hin]; [ congruence | right; eauto ].
Qed.

Lemma departments_loop_nodup (l : list string) (s : gset string) :
  NoDup (departments_loop l s).
Proof.
  revert s. induction l as [|role l IH]; intros s; cbn [departments_loop].
  - apply NoDup_elements.
  - destruct (String.eqb role "admin"); [ apply NoDup_singleton | ].
    destruct (role_department role); apply IH.
Qed.
End AccessProperties.

(** X6: access follows the user's roles.  [has_any_role] holds exactly
    when [has_role] holds of one of the roles asked for; [can_access]
    grants access exactly when the document names no role, names a public
    role, or the user [has_any_role] of the document's; so a user who gains
    roles loses no access. *)
Theorem X6_access_follows_user_roles (svc : RBAC.RBACService) (user : RBAC.User)
    (document_roles : list string) :
  (Access.has_any_role user document_roles = true <->
   exists r, Access.has_role user r = true /\ r ∈ document_roles) /\
  (RBAC.can_access svc user document_roles = true <->
   document_roles = []
   \/ (exists r, r ∈ RBAC.public_roles svc /\ r ∈ document_roles)
   \/ Access.has_any_role user document_roles = true) /\
  (forall user' : RBAC.User,
     (forall r, r ∈ RBAC.roles user -> r ∈ RBAC.roles user') ->
     RBAC.can_access svc user document_roles = true ->
     RBAC.can_access svc user' document_roles = true).
Proof.
  split; [ | split ].
  - rewrite has_any_role_spec. unfold Access.has_role.
    split; intros (r & Hu & Hr); exists r; split; try done.
    + by apply bool_decide_eq_true.
    + by apply bool_decide_eq_true in Hu.
  - by rewrite can_access_spec, has_any_role_spec.
  - intros user' Hsub. rewrite !can_access_spec.
    intros [Hnil | [Hpub | (r & Hu & Hr)]]; [ by left | by right; left | ].
    right; right. exists r. split; [ by apply Hsub | done ].
Qed.

Lemma X6_access_follows_user_roles_witness :
  RBAC.can_access (RBAC.init None) (RBAC.mkUser "u1" "ann" ["hr"; "it"] None) ["hr"]
  = true.
Proof.
  destruct (X6_access_follows_user_roles (RBAC.init None)
              (RBAC.mkUser "u1" "ann" ["hr"] None) ["hr"]) as (_ & _ & Hmono).
  apply Hmono.
  - intros r Hr. cbn in *. set_solver.
  - reflexivity.
Defined.

(** X7: [filter_results] returns, in their original order, exactly the
    results whose roles [can_access] accepts; filtering its output again
    for the same user changes nothing. *)
Theorem X7_filter_results_sublist {A : Type} (shape_of : A -> RBAC.shape)
    (svc : RBAC.RBACService) (user : RBAC.User) (results : list A)
    (roles_field : string) (out : list A) :
  RBAC.filter_results shape_of svc user results roles_field = Some out ->
  sublist out results /\
  (forall r, r ∈ out <->
     r ∈ results /\
     exists document_roles,
       RBAC.document_roles_of (shape_of r) roles_field = Some (Some document_roles) /\
       RBAC.can_access svc user document_roles = true) /\
  RBAC.filter_results shape_of svc user out roles_field = Some out.
Proof.
  intros Hout. apply filter_results_spec in Hout. subst out. split; [ | split ].
  - apply filter_sublist.
  - intros r. by rewrite filter_elem, kept_spec.
  - apply filter_results_kept, List.Forall_forall. intros r Hr.
    by apply filter_In in Hr as [_ Hr].
Qed.

Lemma X7_filter_results_sublist_witness :
  sublist [ (<["access_roles" := VList ["hr"]]> ∅ : gmap string value) ]
          [ <["access_roles" := VList ["it"]]> ∅; <["access_roles" := VList ["hr"]]> ∅ ].
Proof.
  refine (proj1 (X7_filter_results_sublist hit_shape (RBAC.init None)
                   (RBAC.mkUser "u1" "ann" ["hr"] None) _ "access_roles" _ _)).
  vm_compute. reflexivity.
Defined.

(** X8: [get_accessible_departments] answers [["*"]] for a user with the
    role ["admin"], wherever it stands among the roles.  For any other
    user it lists, without repetition, the user's own department (when it
    is given and not empty) and the departments of the user's roles, and
    nothing else. *)
Theorem X8_get_accessible_departments (user : RBAC.User) :
  ("admin" ∈ RBAC.roles user -> Access.get_accessible_departments user = ["*"]) /\
  ("admin" ∉ RBAC.roles user ->
   NoDup (Access.get_accessible_departments user) /\
   forall d, d ∈ Access.get_accessible_departments user <->
     (RBAC.department user = Some d /\ d <> "")
     \/ exists role, role ∈ RBAC.roles user /\ Access.role_department role = Some d).
Proof.
  unfold Access.get_accessible_departments. split.
  - apply departments_loop_admin.
  - intros Hadmin. split; [ apply departments_loop_nodup | ].
    intros d. rewrite (departments_loop_elem _ _ _ Hadmin).
    destruct (RBAC.department user) as [dep|].
    + destruct (String.eqb dep "") eqn:E.
      * apply String.eqb_eq in E. subst dep. split.
        -- intros [Hd | Hrole]; [ set_solver | by right ].
        -- intros [[[= <-] Hne] | Hrole]; [ done | by right ].
      * apply String.eqb_neq in E. rewrite elem_of_singleton. split.
        -- intros [-> | Hrole]; [ by left | by right ].
        -- intros [[[= ->] _] | Hrole]; [ by left | by right ].
    + split.
      * intros [Hd | Hrole]; [ set_solver | by right ].
      * intros [[[=] _] | Hrole]. by right.
Qed.

Lemma X8_get_accessible_departments_witness :
  Access.get_accessible_departments
    (RBAC.mkUser "u1" "ann" ["hr"; "admin"; "it"] (Some "Finance")) = ["*"].
Proof.
  apply (proj1 (X8_get_accessible_departments
                  (RBAC.mkUser "u1" "ann" ["hr"; "admin"; "it"] (Some "Finance")))).
  cbn. set_solver.
Defined.
Section MiddlewareProperties.
Import RBAC Access.

Lemma slice_to_sublist {A : Type} (l : list A) (b : Z) : sublist (PyList.slice_to l b) l.
Proof. unfold PyList.slice_to. apply sublist_take. Qed.

Lemma slice_to_length_le {A : Type} (l : list A) (b : Z) :
  0 <= b -> Z.of_nat (length (PyList.slice_to l b)) <= b.
Proof.
  intros Hb. unfold PyList.slice_to, PyList.clamp. rewrite length_take.
  destruct (b <? 0) eqn:E; [ apply Z.ltb_lt in E; lia | lia ].
Qed.
End MiddlewareProperties.

(** X9: [RBACMiddleware.retrieve] asks the retriever for three times
    [top_k] results and passes on what it raises, so a blank query is
    refused before anything is searched.  On success the results are
    results of the retriever, in their order, each of them accessible to
    the user; [total_results] is their number, at most [top_k] when
    [top_k] is not negative; the query and the filters are the
    retriever's. *)
Theorem X9_middleware_retrieve {F : Type} `{Float F} {St : Type}
    (self : Access.RBACMiddleware F St) (w : Retriever.world F St)
    (query : PyStr.str) (user : RBAC.User) (top_k : Z)
    (filters : option (gmap string value)) :
  (PyStr.blank query = true ->
   Access.middleware_retrieve self w query user top_k filters
   = Some (Raise (ValueError "Query cannot be empty"), w)) /\
  (forall e w',
     Retriever.retrieve (Access.retriever self) w query (Some (top_k * 3)) filters
     = (Raise e, w') ->
     Access.middleware_retrieve self w query user top_k filters = Some (Raise e, w')) /\
  (forall res w',
     Access.middleware_retrieve self w query user top_k filters = Some (Ok res, w') ->
     exists raw,
       Retriever.retrieve (Access.retriever self) w query (Some (top_k * 3)) filters
       = (Ok raw, w') /\
       sublist (Retriever.results res) (Retriever.results raw) /\
       Forall (fun r => kept Access.result_shape (Access.rbac self) user
                          RBAC.default_roles_field r = true)
              (Retriever.results res) /\
       Retriever.total_results res = Z.of_nat (length (Retriever.results res)) /\
       (0 <= top_k -> Retriever.total_results res <= top_k) /\
       Retriever.query res = Retriever.query raw /\
       Retriever.filters_applied res = Retriever.filters_applied raw).
Proof.
  unfold Access.middleware_retrieve. split; [ | split ].
  - intros Hblank. unfold Retriever.retrieve. by rewrite Hblank.
  - intros e w' ->. reflexivity.
  - intros res w'.
    destruct (Retriever.retrieve _ _ _ _ _) as [[raw | e] w1]; [ | by intros [=] ].
    destruct (RBAC.filter_results _ _ _ _ _) as [filtered|] eqn:Hf; [ | by intros [=] ].
    cbn. intros [= <- <-]. exists raw. cbn.
    apply filter_results_spec in Hf. subst filtered.
    split; [ done | ]. split.
    { etransitivity; [ apply slice_to_sublist | apply filter_sublist ]. }
    split.
    { apply List.Forall_forall. intros r Hr. apply list_elem_of_In in Hr.
      apply slice_to_elem in Hr. apply list_elem_of_In in Hr.
      by apply filter_In in Hr as [_ Hr]. }
    split; [ done | ]. split; [ apply slice_to_length_le | done ].
Qed.

Lemma X9_middleware_retrieve_witness :
  Access.middleware_retrieve
    (Access.middleware_init
       (mock_retriever (fun _ => [1%Q]) (fun _ _ => 1%Q)
          (Retriever.mkConfig 5 None false "mock" "mock")) None)
    empty_world (PyStr.lit "   ") (RBAC.mkUser "u1" "ann" ["hr"] None) 5 None
  = Some (Raise (ValueError "Query cannot be empty"), empty_world).
Proof.
  apply (proj1 (X9_middleware_retrieve _ _ _ _ _ _)). reflexivity.
Defined.

(** *** Masking with statistics *)

Section StatsProperties.
Import PyStr Re PIIMasker Findall MaskerStats.

(** [findall] finds nothing exactly when the scan marks no match. *)
Lemma findall_nil_scan (r : regex) (s : str) :
  forall prev, findall_from r prev s 0 = [] <-> scan r prev s 0 = map Txt s.
Proof.
  induction s as [|c s IH]; intros prev; cbn [findall_from scan map].
  - destruct (first_match r prev [] false) as [[|n]|]; [ | | done ].
    + split; [ done | ]. by destruct (first_match r prev [] true) as [[|n]|].
    + split; done.
  - destruct (first_match r prev (c :: s) false) as [[|n]|].
    + split; [ done | ]. by destruct (first_match r prev (c :: s) true) as [[|n]|].
    + split; done.
    + rewrite IH. split; [ by intros -> | by intros [= ->] ].
Qed.

Lemma flat_map_txt (repl : str) (s : str) :
  flat_map (fun p => match p with Txt c => [c] | Hit => repl end) (map Txt s) = s.
Proof. induction s as [|c s IH]; [ done | ]. cbn. by rewrite IH. Qed.

(** A pattern that is not found is not substituted. *)
Lemma sub_not_found (r : regex) (repl s : str) : findall r s = [] -> sub r repl s = s.
Proof.
  unfold findall, sub. intros Hnone. apply findall_nil_scan in Hnone.
  rewrite Hnone. apply flat_map_txt.
Qed.

(** What [findall] returns is found in the subject. *)
Lemma findall_occurs_in (r : regex) (s : str) :
  forall prev skip x, x ∈ findall_from r prev s skip -> occurs_in x s.
Proof.
  assert (forall (t : str) n, occurs_in (take n t) t) as Htake.
  { intros t n. exists [], (drop n t). cbn. by rewrite take_drop. }
  assert (forall x c (t : str), occurs_in x t -> occurs_in x (c :: t)) as Hcons.
  { intros x c t (pre & post & ->). by exists (c :: pre), post. }
  induction s as [|c s IH]; intros prev skip x; destruct skip as [|k];
    cbn [findall_from].
  - destruct (first_match r prev [] false) as [[|n]|].
    + intros Hx. apply elem_of_cons in Hx as [-> | Hx]; [ by exists [], [] | ].
      destruct (first_match r prev [] true) as [[|n]|]; try by inversion Hx.
      apply elem_of_cons in Hx as [-> | Hx]; [ apply Htake | inversion Hx ].
    + intros Hx. apply elem_of_cons in Hx as [-> | Hx]; [ apply Htake | inversion Hx ].
    + intros Hx. inversion Hx.
  - intros Hx. inversion Hx.
  - destruct (first_match r prev (c :: s) false) as [[|n]|].
    + intros Hx. apply elem_of_cons in Hx as [-> | Hx]; [ by exists [], (c :: s) | ].
      destruct (first_match r prev (c :: s) true) as [[|n]|].
      * eauto.
      * apply elem_of_cons in Hx as [-> | Hx]; [ apply Htake | eauto ].
      * eauto.
    + intros Hx. apply elem_of_cons in Hx as [-> | Hx]; [ apply Htake | eauto ].
    + eauto.
  - eauto.
Qed.

(** A text without the characters a pattern needs holds no match. *)
Lemma findall_free (P : ascii -> bool) (r : regex) (s : str) :
  needs P r = true -> free P s -> findall r s = [].
Proof.
  intros Hr Hs. unfold findall. apply findall_nil_scan. by apply (scan_free P).
Qed.

(** The loop of [mask_with_stats]. *)
Definition stats_step (acc : str * gmap string Z) (pii_pattern : PIIPattern)
    : str * gmap string Z :=
  let '(masked_text, stats) := acc in
  let matches := findall (pattern pii_pattern) masked_text in
  match matches with
  | [] => (masked_text, stats)
  | _ =>
      (sub (pattern pii_pattern) (replacement pii_pattern) masked_text,
       <[name pii_pattern := Z.of_nat (length matches)]> stats)
  end.

Lemma stats_step_text (text : str) (stats : gmap string Z) (p : PIIPattern) :
  fst (stats_step (text, stats) p) = sub (pattern p) (replacement p) text.
Proof.
  unfold stats_step. destruct (findall (pattern p) text) eqn:E; [ | done ].
  cbn. by rewrite sub_not_found.
Qed.

Lemma stats_loop (ps : list PIIPattern) :
  forall (text : str) (stats : gmap string Z),
    let out := fold_left stats_step ps (text, stats) in
    fst out = fold_left (fun masked_text p => sub (pattern p) (replacement p) masked_text)
                ps text /\
    (forall nm n, snd out !! nm = Some n ->
       stats !! nm = Some n \/ (1 <= n /\ exists p, p ∈ ps /\ name p = nm)) /\
    (snd out = ∅ -> stats = ∅ /\ fst out = text).
Proof.
  induction ps as [|p ps IH]; intros text stats; cbn [fold_left].
  - cbn. split; [ done | ]. split; [ by left | done ].
  - pose proof (stats_step_text text stats p) as Htext.
    destruct (stats_step (text, stats) p) as [text' stats'] eqn:Hstep.
    cbn in Htext. subst text'.
    destruct (IH (sub (pattern p) (replacement p) text) stats') as (Hfst & Hsnd & Hnone).
    split; [ exact Hfst | ]. split.
    + intros nm n Hn. destruct (Hsnd nm n Hn) as [Hold | (Hpos & q & Hq & Hname)].
      * unfold stats_step in Hstep.
        destruct (findall (pattern p) text) as [|m ms] eqn:E.
        { injection Hstep as _ <-. by left. }
        injection Hstep as <-.
        destruct (decide (name p = nm)) as [<- | Hne].
        -- rewrite lookup_insert_eq in Hold. injection Hold as <-.
           right. split; [ cbn [length]; lia | ]. exists p. split; [ by left | done ].
        -- rewrite lookup_insert_ne in Hold by done. by left.
      * right. split; [ done | ]. exists q. split; [ by right | done ].
    + intros Hempty. destruct (Hnone Hempty) as [-> Htext].
      unfold stats_step in Hstep.
      destruct (findall (pattern p) text) as [|m ms] eqn:E.
      * injection Hstep as Hsub ->. split; [ done | ].
        rewrite Htext. by apply sub_not_found.
      * injection Hstep as Hins. by apply insert_non_empty in Hins.
Qed.

(** The loop of [detect_only]. *)
Lemma detect_loop (text : str) (ps : list PIIPattern) :
  forall (detections : gmap string (list str)),
    let out :=
      fold_left (fun (detections : gmap string (list str)) p =>
                   match findall (pattern p) text with
                   | [] => detections
                   | _ => <[name p := findall (pattern p) text]> detections
                   end) ps detections in
    (forall nm ms, out !! nm = Some ms ->
       detections !! nm = Some ms \/
       (ms <> [] /\ exists p, p ∈ ps /\ name p = nm /\ ms = findall (pattern p) text)) /\
    (out = ∅ -> detections = ∅ /\ forall p, p ∈ ps -> findall (pattern p) text = []).
Proof.
  induction ps as [|p ps IH]; intros detections; cbn [fold_left].
  - split; [ by left | ]. intros ->. split; [ done | ]. intros p Hp. inversion Hp.
  - cbv zeta in IH.
    destruct (findall (pattern p) text) as [|m ms'] eqn:E.
    + destruct (IH detections) as (Hsome & Hnone). split.
      * intros nm ms Hms. destruct (Hsome nm ms Hms) as [Hold | (Hne & q & Hq & Hname)];
          [ by left | right ].
        split; [ done | ]. exists q. split; [ by right | done ].
      * intros Hempty. destruct (Hnone Hempty) as [-> Hall]. split; [ done | ].
        intros q Hq. apply elem_of_cons in Hq as [-> | Hq]; [ done | by apply Hall ].
    + destruct (IH (<[name p := m :: ms']> detections)) as (Hsome & Hnone). split.
      * intros nm ms Hms. destruct (Hsome nm ms Hms) as [Hold | (Hne & q & Hq & Hname)].
        -- destruct (decide (name p = nm)) as [<- | Hneq].
           ++ rewrite lookup_insert_eq in Hold. injection Hold as <-. right.
              split; [ done | ]. exists p. split; [ by left | done ].
           ++ rewrite lookup_insert_ne in Hold by done. by left.
        -- right. split; [ done | ]. exists q. split; [ by right | done ].
      * intros Hempty. destruct (Hnone Hempty) as [Hins _].
        by apply insert_non_empty in Hins.
Qed.

Lemma mask_not_found (text : str) (ps : list PIIPattern) :
  (forall p, p ∈ ps -> findall (pattern p) text = []) ->
  fold_left (fun masked_text p => sub (pattern p) (replacement p) masked_text) ps text
  = text.
Proof.
  induction ps as [|p ps IH]; intros Hall; [ done | ]. cbn [fold_left].
  rewrite sub_not_found by (apply Hall; by left). apply IH.
  intros q Hq. apply Hall. by right.
Qed.
End StatsProperties.

(** X10: [mask_with_stats] masks as [mask] does.  Every count it
    reports is at least 1 and stands under the name of one of the
    masker's patterns; when it reports nothing the text is returned
    unchanged, as it is for a text without digits and at signs under the
    patterns of [__init__]. *)
Theorem X10_mask_with_stats (self : PIIMasker.PIIMasker) (text : PyStr.str) :
  fst (MaskerStats.mask_with_stats self text) = PIIMasker.mask self text /\
  (forall name n,
     snd (MaskerStats.mask_with_stats self text) !! name = Some n ->
     1 <= n /\ exists p, p ∈ PIIMasker.patterns self /\ PIIMasker.name p = name) /\
  (snd (MaskerStats.mask_with_stats self text) = ∅ ->
   fst (MaskerStats.mask_with_stats self text) = text) /\
  (free digit_or_at text ->
   MaskerStats.mask_with_stats PIIMasker.init text = (text, ∅)).
Proof.
  unfold MaskerStats.mask_with_stats, PIIMasker.mask.
  split; [ | split; [ | split ] ].
  - destruct (negb (PyStr.truthy text)); [ done | ].
    apply (stats_loop (PIIMasker.patterns self) text ∅).
  - intros name n. destruct (negb (PyStr.truthy text)); [ by cbn | ].
    intros Hn.
    destruct (stats_loop (PIIMasker.patterns self) text ∅) as (_ & Hsnd & _).
    destruct (Hsnd name n Hn) as [Hold | Hnew]; [ by rewrite lookup_empty in Hold | done ].
  - destruct (negb (PyStr.truthy text)); [ done | ].
    intros Hempty.
    by destruct (stats_loop (PIIMasker.patterns self) text ∅) as (_ & _ & Hnone);
      destruct (Hnone Hempty).
  - intros Hfree. destruct (negb (PyStr.truthy text)); [ done | ].
    induction patterns_need_digit_or_at as [|p ps Hp _ IH]; [ done | ].
    cbn [fold_left]. by rewrite (findall_free digit_or_at _ _ Hp Hfree).
Qed.

Lemma X10_mask_with_stats_witness :
  MaskerStats.mask_with_stats PIIMasker.init (PyStr.lit "Annual leave policy")
  = (PyStr.lit "Annual leave policy", ∅).
Proof.
  apply (proj2 (proj2 (proj2 (X10_mask_with_stats PIIMasker.init
                                (PyStr.lit "Annual leave policy"))))).
  intros c Hc. apply list_elem_of_In in Hc. cbn in Hc.
  repeat (destruct Hc as [<- | Hc]; [ reflexivity | ]). destruct Hc.
Defined.

(** X11: every entry of [detect_only] stands under the name of one of
    the masker's patterns and holds what [findall] finds of that pattern in
    the text: a list that is not empty, of parts of the text.  When
    [detect_only] reports nothing, [mask] returns the text unchanged; it
    reports nothing for a text without digits and at signs. *)
Theorem X11_detect_only (self : PIIMasker.PIIMasker) (text : PyStr.str) :
  (forall name ms,
     MaskerStats.detect_only self text !! name = Some ms ->
     ms <> [] /\
     (exists p, p ∈ PIIMasker.patterns self /\ PIIMasker.name p = name /\
                ms = Findall.findall (PIIMasker.pattern p) text) /\
     forall m, m ∈ ms -> occurs_in m text) /\
  (MaskerStats.detect_only self text = ∅ -> PIIMasker.mask self text = text) /\
  (free digit_or_at text -> MaskerStats.detect_only PIIMasker.init text = ∅).
Proof.
  unfold MaskerStats.detect_only, PIIMasker.mask. split; [ | split ].
  - intros name ms. destruct (negb (PyStr.truthy text)); [ by rewrite lookup_empty | ].
    intros Hms.
    destruct (detect_loop text (PIIMasker.patterns self) ∅) as (Hsome & _).
    destruct (Hsome name ms Hms) as [Hold | (Hne & p & Hp & Hname & ->)];
      [ by rewrite lookup_empty in Hold | ].
    split; [ done | ]. split; [ by exists p | ].
    intros m Hm. by apply (findall_occurs_in (PIIMasker.pattern p) text None 0%nat).
  - destruct (negb (PyStr.truthy text)); [ done | ]. intros Hempty.
    destruct (detect_loop text (PIIMasker.patterns self) ∅) as (_ & Hnone).
    destruct (Hnone Hempty) as [_ Hall]. by apply mask_not_found.
  - intros Hfree. destruct (negb (PyStr.truthy text)); [ done | ].
    induction patterns_need_digit_or_at as [|p ps Hp _ IH]; [ done | ].
    cbn [fold_left]. by rewrite (findall_free digit_or_at _ _ Hp Hfree).
Qed.

Lemma X11_detect_only_witness :
  MaskerStats.detect_only PIIMasker.init (PyStr.lit "Annual leave policy") = ∅.
Proof.
  apply (proj2 (proj2 (X11_detect_only PIIMasker.init (PyStr.lit "Annual leave policy")))).
  intros c Hc. apply list_elem_of_In in Hc. cbn in Hc.
  repeat (destruct Hc as [<- | Hc]; [ reflexivity | ]). destruct Hc.
Defined.

(** Cases of the test suite. *)
Example stats_counts_matches :
  MaskerStats.mask_with_stats PIIMasker.init
    (PyStr.lit "Contact john@test.com or jane@test.com about NI AB123456C")
  = (PyStr.lit "Contact [EMAIL] or [EMAIL] about NI [NI_NUMBER]",
     <["EMAIL" := 2]> (<["NI_NUMBER" := 1]> ∅)).
Proof. vm_compute. reflexivity. Qed.

Example detect_only_values :
  MaskerStats.detect_only PIIMasker.init
    (PyStr.lit "NI number is AB123456C and email is test@example.com")
  = <["EMAIL" := [PyStr.lit "test@example.com"]]>
      (<["NI_NUMBER" := [PyStr.lit "AB123456C"]]> ∅).
Proof. vm_compute. reflexivity. Qed.

(** *** Embedders *)

Section EmbedderProperties.
Import PyStr Embedder.
Context {F : Type}.

(** The test of [embed_batch] is the guard of [embed]. *)
Lemma truthy_strip_blank (text : str) : truthy (strip text) = negb (blank text).
Proof.
  unfold blank. destruct text as [|c text]; [ reflexivity | ].
  cbn [truthy negb orb]. by rewrite negb_involutive.
Qed.

Lemma collect_all {A B : Type} (f : A -> result B) (g : A -> B) (l : list A) :
  Forall (fun a => f a = Ok (g a)) l -> collect f l = Ok (map g l).
Proof.
  induction 1 as [|a l Ha _ IH]; [ done | ]. cbn [collect map].
  rewrite Ha, IH. reflexivity.
Qed.

Lemma filter_length_all {A : Type} (f : A -> bool) (l : list A) :
  length (List.filter f l) = length l <-> Forall (fun a => f a = true) l.
Proof.
  induction l as [|a l IH]; cbn [List.filter].
  - split; [ constructor | done ].
  - pose proof (filter_length_le f l). destruct (f a) eqn:E; cbn [length].
    + split.
      * intros Hlen. constructor; [ done | ]. apply IH. lia.
      * intros Hall. inversion Hall; subst. f_equal. by apply IH.
    + split; [ lia | ]. intros Hall. inversion Hall; subst. congruence.
Qed.

(** [openai_results] pairs the texts with the embeddings returned. *)
Lemma openai_results_zip (model : string) (data : list (list F)) :
  forall texts_to_embed : list str,
    (length data <= length texts_to_embed)%nat ->
    openai_results model texts_to_embed data
    = Ok (map (fun tv : str * list F =>
                 mkEmbedding (fst tv) (snd tv) model (Z.of_nat (length (snd tv))))
              (zip texts_to_embed data)).
Proof.
  induction data as [|v data IH]; intros texts Hlen; cbn [openai_results].
  - by destruct texts.
  - destruct texts as [|t texts]; [ cbn in Hlen; lia | ].
    simpl. rewrite IH by (cbn in Hlen; lia). reflexivity.
Qed.

Lemma openai_results_short (model : string) (data : list (list F)) :
  forall texts_to_embed : list str,
    (length texts_to_embed < length data)%nat ->
    openai_results model texts_to_embed data
    = Raise (IndexError "tuple index out of range").
Proof.
  induction data as [|v data IH]; intros texts Hlen; cbn [openai_results].
  - cbn in Hlen. lia.
  - destruct texts as [|t texts]; [ done | ].
    simpl. rewrite IH by (cbn in Hlen; lia). reflexivity.
Qed.
End EmbedderProperties.

(** X12: [MockEmbedder.embed] raises [ValueError] exactly on the texts
    that are empty or whitespace only.  [embed_batch] never raises: it
    leaves those texts out and returns the embeddings of the others, in
    their order and with their text as given, so that it returns as many
    embeddings as texts only when no text is blank. *)
Theorem X12_mock_embed_batch {F : Type} (dimensions : Z)
    (generate_vector : PyStr.str -> list F) (texts : list PyStr.str) :
  (forall text,
     Embedder.mock_embed dimensions generate_vector text
     = if PyStr.blank text
       then Raise (ValueError "Cannot embed empty text")
       else Ok (Embedder.mkEmbedding text (generate_vector text)
                  "mock-embedder" dimensions)) /\
  Embedder.mock_embed_batch dimensions generate_vector texts
  = Ok (map (fun text => Embedder.mkEmbedding text (generate_vector text)
                           "mock-embedder" dimensions)
            (List.filter (fun text => negb (PyStr.blank text)) texts)) /\
  (forall embeddings,
     Embedder.mock_embed_batch dimensions generate_vector texts = Ok embeddings ->
     (length embeddings <= length texts)%nat /\
     (length embeddings = length texts <->
      Forall (fun text => PyStr.blank text = false) texts)).
Proof.
  assert (Embedder.mock_embed_batch dimensions generate_vector texts
          = Ok (map (fun text => Embedder.mkEmbedding text (generate_vector text)
                                   "mock-embedder" dimensions)
                    (List.filter (fun text => negb (PyStr.blank text)) texts))) as Hbatch.
  { unfold Embedder.mock_embed_batch.
    rewrite (filter_ext _ _ truthy_strip_blank).
    apply collect_all, List.Forall_forall. intros text Htext.
    apply filter_In in Htext as [_ Hb]. unfold Embedder.mock_embed.
    by destruct (PyStr.blank text). }
  split; [ done | ]. split; [ exact Hbatch | ].
  intros embeddings. rewrite Hbatch. intros [= <-]. rewrite length_map. split.
  - apply filter_length_le.
  - rewrite filter_length_all. split; intros Hall; eapply Forall_impl; try exact Hall;
      intros text; cbn; by destruct (PyStr.blank text).
Qed.

(** X13: [OpenAIEmbedder.embed_batch] returns no embedding for no text,
    and raises [ValueError] without a request when every text is empty
    once cleaned.  Otherwise it requests the embeddings of the cleaned
    texts that are not empty and pairs them, in order, with what the
    service returns: the text of each result is the cleaned text, its
    dimensions the length of its vector.  A response with more
    embeddings than texts raises [IndexError]. *)
Theorem X13_openai_embed_batch {F : Type} (model : string)
    (create : list PyStr.str -> result (list (list F))) (texts : list PyStr.str) :
  let texts_to_embed := List.filter PyStr.truthy (map (@Embedder.clean) texts) in
  (texts = [] -> Embedder.openai_embed_batch model create texts = Ok []) /\
  (texts <> [] -> texts_to_embed = [] ->
   Embedder.openai_embed_batch model create texts
   = Raise (ValueError "All texts are empty")) /\
  (texts_to_embed <> [] ->
   (forall e, create texts_to_embed = Raise e ->
              Embedder.openai_embed_batch model create texts = Raise e) /\
   (forall data, create texts_to_embed = Ok data ->
      Embedder.openai_embed_batch model create texts
      = if (length data <=? length texts_to_embed)%nat
        then Ok (map (fun tv : PyStr.str * list F =>
                        Embedder.mkEmbedding (fst tv) (snd tv) model
                          (Z.of_nat (length (snd tv))))
                     (zip texts_to_embed data))
        else Raise (IndexError "tuple index out of range"))).
Proof.
  intros texts_to_embed. split; [ by intros -> | ]. split.
  - intros Hne Hnone. unfold Embedder.openai_embed_batch.
    destruct texts as [|t texts]; [ done | ].
    fold texts_to_embed. by rewrite Hnone.
  - intros Hsome. unfold Embedder.openai_embed_batch.
    destruct texts as [|t texts]; [ done | ]. fold texts_to_embed.
    destruct texts_to_embed as [|t0 ts] eqn:E; [ done | ]. split.
    + by intros e ->.
    + intros data ->. cbn [mbind result_bind].
      destruct (length data <=? length (t0 :: ts))%nat eqn:Hlen.
      * apply Nat.leb_le in Hlen. by apply openai_results_zip.
      * apply Nat.leb_gt in Hlen. by apply openai_results_short.
Qed.

Lemma X13_openai_embed_batch_witness :
  Embedder.openai_embed_batch (F := Q) "text-embedding-3-small"
    (fun _ => Ok [[1%Q]]) [PyStr.lit "  "; [Chunker.NL]]
  = Raise (ValueError "All texts are empty").
Proof.
  by apply (proj1 (proj2 (X13_openai_embed_batch "text-embedding-3-small"
                            (fun _ => Ok [[1%Q]]) [PyStr.lit "  "; [Chunker.NL]]))).
Defined.

(** *** The chunker factory *)

(** X14: [ChunkerFactory.get_chunker] knows the names ["recursive"],
    ["sentence"] and ["fixed"]: each gives the chunker of that strategy,
    and every other name raises [ValueError]. *)
Theorem X14_get_chunker (name : string) :
  (forall s, Chunker.get_chunker (Chunker.strategy_name s) = Ok s) /\
  (forall s, Chunker.get_chunker name = Ok s -> name = Chunker.strategy_name s) /\
  ((forall s, name <> Chunker.strategy_name s) ->
   Chunker.get_chunker name
   = Raise (ValueError ("Unknown chunking strategy: " ++ name
                        ++ ". Available: recursive, sentence, fixed"))).
Proof.
  split; [ by intros [] | ]. unfold Chunker.get_chunker.
  destruct (String.eqb name "recursive") eqn:E1;
    [ apply String.eqb_eq in E1; subst;
      split; [ by intros s [= <-] | intros Hn; by destruct (Hn Chunker.Recursive) ] | ].
  destruct (String.eqb name "sentence") eqn:E2;
    [ apply String.eqb_eq in E2; subst;
      split; [ by intros s [= <-] | intros Hn; by destruct (Hn Chunker.Sentence) ] | ].
  destruct (String.eqb name "fixed") eqn:E3;
    [ apply String.eqb_eq in E3; subst;
      split; [ by intros s [= <-] | intros Hn; by destruct (Hn Chunker.Fixed) ] | ].
  split; [ by intros s [=] | done ].
Qed.

Lemma X14_get_chunker_witness :
  Chunker.get_chunker "fixed_size"
  = Raise (ValueError
      "Unknown chunking strategy: fixed_size. Available: recursive, sentence, fixed").
Proof.
  apply (proj2 (proj2 (X14_get_chunker "fixed_size"))). by intros [].
Defined.

(** *** The mock vector store *)

Section MockStoreProperties.
Import VectorStore MockStore.
Context {F : Type}.

Implicit Types (d : documents F) (k id : string) (v doc : VectorDocument F).

Lemma dict_get_set d k v k' :
  dict_get (dict_set d k v) k' = if String.eqb k k' then Some v else dict_get d k'.
Proof.
  induction d as [|[k0 v0] d IH]; cbn [dict_set dict_get]; [ done | ].
  destruct (String.eqb k0 k) eqn:E0; cbn [dict_get].
  - apply String.eqb_eq in E0. subst k0. by destruct (String.eqb k k').
  - rewrite IH. destruct (String.eqb k0 k') eqn:E1; [ | done ].
    apply String.eqb_eq in E1. subst k'. by rewrite String.eqb_sym, E0.
Qed.

Lemma dict_set_keys d k v x :
  x ∈ map fst (dict_set d k v) <-> x = k \/ x ∈ map fst d.
Proof.
  induction d as [|[k0 v0] d IH]; cbn [dict_set map fst].
  - rewrite list_elem_of_singleton. split; [ by left | ].
    intros [-> | Hx]; [ done | inversion Hx ].
  - destruct (String.eqb k0 k) eqn:E0; cbn [map fst]; rewrite !elem_of_cons.
    + apply String.eqb_eq in E0. subst k0. tauto.
    + rewrite IH. tauto.
Qed.

Lemma dict_set_nodup d k v : NoDup (map fst d) -> NoDup (map fst (dict_set d k v)).
Proof.
  induction d as [|[k0 v0] d IH]; cbn [dict_set map fst]; intros Hnd.
  - apply NoDup_singleton.
  - apply NoDup_cons in Hnd as [Hk0 Hnd].
    destruct (String.eqb k0 k) eqn:E0; cbn [map fst].
    + apply String.eqb_eq in E0. subst k0. by apply NoDup_cons.
    + apply String.eqb_neq in E0. apply NoDup_cons. split; [ | by apply IH ].
      rewrite dict_set_keys. intros [-> | Hin]; done.
Qed.

Lemma dict_set_length d k v :
  (length d <= length (dict_set d k v) <= S (length d))%nat.
Proof.
  induction d as [|[k0 v0] d IH]; cbn [dict_set length]; [ lia | ].
  destruct (String.eqb k0 k); cbn [length]; lia.
Qed.

Lemma upsert_snoc d (docs : list (VectorDocument F)) doc :
  fst (mock_upsert d (docs ++ [doc]))
  = dict_set (fst (mock_upsert d docs)) (doc_id doc) doc.
Proof. unfold mock_upsert. cbn [fst]. by rewrite fold_left_app. Qed.

Lemma dict_get_none d k : k ∉ map fst d -> dict_get d k = None.
Proof.
  induction d as [|[k0 v0] d IH]; cbn [dict_get map fst]; [ done | ].
  intros Hk. destruct (String.eqb k0 k) eqn:E.
  - apply String.eqb_eq in E. subst k0. exfalso. apply Hk. by left.
  - apply IH. intros Hin. apply Hk. by right.
Qed.

Lemma dict_get_elem d k v : dict_get d k = Some v -> (k, v) ∈ d.
Proof.
  induction d as [|[k0 v0] d IH]; cbn [dict_get]; [ done | ].
  destruct (String.eqb k0 k) eqn:E.
  - apply String.eqb_eq in E. subst k0. intros [= ->]. by left.
  - intros Hv. right. by apply IH.
Qed.

Lemma dict_del_sublist d k : sublist (dict_del d k) d.
Proof.
  induction d as [|[k0 v0] d IH]; cbn [dict_del]; [ done | ].
  destruct (String.eqb k0 k); [ by apply sublist_cons | by apply sublist_skip ].
Qed.

Lemma sublist_keys_nodup d d' : sublist d' d -> NoDup (map fst d) -> NoDup (map fst d').
Proof. intros Hsub Hnd. eapply sublist_NoDup; [ done | by apply fmap_sublist ]. Qed.

Lemma dict_del_length d k v :
  dict_get d k = Some v -> S (length (dict_del d k)) = length d.
Proof.
  induction d as [|[k0 v0] d IH]; cbn [dict_get dict_del length]; [ done | ].
  destruct (String.eqb k0 k); [ done | ]. intros Hv. cbn [length]. by rewrite IH.
Qed.

(** In a dict, where no key stands twice, deleting a key keeps the
    entries of the other keys. *)
Lemma dict_del_filter d k :
  NoDup (map fst d) ->
  dict_del d k = List.filter (fun kv => negb (String.eqb (fst kv) k)) d.
Proof.
  induction d as [|[k0 v0] d IH]; cbn [dict_del List.filter map fst]; [ done | ].
  intros Hnd. apply NoDup_cons in Hnd as [Hk0 Hnd].
  destruct (String.eqb k0 k) eqn:E; cbn [negb].
  - apply String.eqb_eq in E. subst k0. symmetry.
    apply forallb_filter_id, forallb_forall. intros [k1 v1] Hin. cbn [fst].
    apply negb_true_iff, String.eqb_neq. intros ->. apply Hk0.
    apply list_elem_of_In, in_map_iff. by exists (k, v1).
  - by rewrite IH.
Qed.

Lemma dict_get_del d k k' :
  NoDup (map fst d) ->
  dict_get (dict_del d k) k' = if String.eqb k k' then None else dict_get d k'.
Proof.
  induction d as [|[k0 v0] d IH]; cbn [dict_del dict_get map fst]; intros Hnd.
  - by destruct (String.eqb k k').
  - apply NoDup_cons in Hnd as [Hk0 Hnd].
    destruct (String.eqb k0 k) eqn:E0.
    + apply String.eqb_eq in E0. subst k0.
      destruct (String.eqb k k') eqn:E1; [ | done ].
      apply String.eqb_eq in E1. subst k'. by apply dict_get_none.
    + cbn [dict_get]. rewrite IH by done.
      destruct (String.eqb k0 k') eqn:E1; [ | done ].
      apply String.eqb_eq in E1. subst k'. by rewrite String.eqb_sym, E0.
Qed.

Lemma filter_and {A : Type} (f g : A -> bool) (l : list A) :
  List.filter g (List.filter f l) = List.filter (fun a => f a && g a) l.
Proof.
  induction l as [|a l IH]; [ done | ]. cbn [List.filter].
  destruct (f a); cbn [List.filter andb]; [ | done ]. destruct (g a); by rewrite IH.
Qed.

Lemma fold_dict_del (ks : list string) :
  forall d, NoDup (map fst d) ->
    fold_left dict_del ks d
    = List.filter (fun kv => negb (existsb (String.eqb (fst kv)) ks)) d.
Proof.
  induction ks as [|k ks IH]; intros d Hnd; cbn [fold_left existsb].
  - symmetry. by apply forallb_filter_id, forallb_forall.
  - rewrite IH by (eapply sublist_keys_nodup; [ apply dict_del_sublist | done ]).
    rewrite dict_del_filter by done. rewrite filter_and.
    apply filter_ext. intros kv. by rewrite negb_orb.
Qed.

Lemma nodup_keys_entry d k v v' :
  NoDup (map fst d) -> (k, v) ∈ d -> (k, v') ∈ d -> v = v'.
Proof.
  induction d as [|[k0 v0] d IH]; cbn [map fst]; intros Hnd Hv Hv'; [ inversion Hv | ].
  apply NoDup_cons in Hnd as [Hk0 Hnd].
  assert (forall w, (k0, w) ∈ d -> False) as Hfresh.
  { intros w Hw. apply Hk0, list_elem_of_In, in_map_iff. exists (k0, w).
    split; [ done | by apply list_elem_of_In ]. }
  apply elem_of_cons in Hv as [Hv | Hv]; apply elem_of_cons in Hv' as [Hv' | Hv'].
  - congruence.
  - injection Hv as -> _. by destruct (Hfresh v').
  - injection Hv' as -> _. by destruct (Hfresh v).
  - by apply IH.
Qed.
(** [delete_by_filter] keeps the entries that do not match. *)
Lemma mock_delete_by_filter_filter d (filters : gmap string value) :
  NoDup (map fst d) ->
  mock_delete_by_filter d filters
  = List.filter (fun kv => negb (matches_filters filters (snd kv))) d.
Proof.
  intros Hnd. unfold mock_delete_by_filter. rewrite fold_dict_del by done.
  apply filter_ext_in. intros [k v] Hkv. cbn [fst snd]. f_equal.
  destruct (matches_filters filters v) eqn:Hm.
  - apply existsb_exists. exists k. split; [ | apply String.eqb_refl ].
    apply in_map_iff. exists (k, v). split; [ done | ].
    apply filter_In. by split.
  - apply not_true_iff_false. intros Hex.
    apply existsb_exists in Hex as (k' & Hin & Hk). apply String.eqb_eq in Hk.
    subst k'. apply in_map_iff in Hin as ([k' v'] & Hfst & Hin).
    cbn in Hfst. subst k'. apply filter_In in Hin as [Hin Hm']. cbn [snd] in Hm'.
    apply list_elem_of_In in Hkv, Hin.
    rewrite (nodup_keys_entry _ _ _ _ Hnd Hkv Hin) in Hm. congruence.
Qed.
End MockStoreProperties.

(** X15: what [upsert] stores can be looked up.  After [upsert] the
    store answers, for an id among the documents given, the last of them
    with that id, and for any other id what it answered before; no id is
    stored twice; the number returned is the number of documents given,
    whereas the store grows by at most that number. *)
Theorem X15_mock_upsert_lookup {F : Type} (_documents : VectorStore.documents F)
    (docs : list (VectorStore.VectorDocument F)) :
  NoDup (map fst _documents) ->
  let after := fst (VectorStore.mock_upsert _documents docs) in
  snd (VectorStore.mock_upsert _documents docs) = Z.of_nat (length docs) /\
  NoDup (map fst after) /\
  (forall id,
     MockStore.dict_get after id
     = match find (fun doc => String.eqb (VectorStore.doc_id doc) id) (rev docs) with
       | Some doc => Some doc
       | None => MockStore.dict_get _documents id
       end) /\
  MockStore.mock_count _documents <= MockStore.mock_count after
    <= MockStore.mock_count _documents + Z.of_nat (length docs).
Proof.
  intros Hnd. cbv zeta. split; [ done | ].
  induction docs as [|doc docs IH] using rev_ind.
  - cbn. split; [ done | ]. split; [ done | ]. unfold MockStore.mock_count. lia.
  - destruct IH as (Hnd' & Hget & Hcount). rewrite upsert_snoc. split; [ | split ].
    + by apply dict_set_nodup.
    + intros id. rewrite dict_get_set, rev_unit. cbn [find].
      destruct (String.eqb (VectorStore.doc_id doc) id); [ done | apply Hget ].
    + unfold MockStore.mock_count in *. rewrite length_app. cbn [length].
      pose proof (dict_set_length (fst (VectorStore.mock_upsert _documents docs))
                    (VectorStore.doc_id doc) doc). lia.
Qed.

Lemma X15_mock_upsert_lookup_witness :
  MockStore.dict_get
    (fst (VectorStore.mock_upsert []
            [ VectorStore.mkDoc "a" [1%Q] (PyStr.lit "old") ∅;
              VectorStore.mkDoc "b" [1%Q] (PyStr.lit "other") ∅;
              VectorStore.mkDoc "a" [1%Q] (PyStr.lit "new") ∅ ])) "a"
  = Some (VectorStore.mkDoc "a" [1%Q] (PyStr.lit "new") ∅).
Proof.
  destruct (X15_mock_upsert_lookup (F := Q) []
              [ VectorStore.mkDoc "a" [1%Q] (PyStr.lit "old") ∅;
                VectorStore.mkDoc "b" [1%Q] (PyStr.lit "other") ∅;
                VectorStore.mkDoc "a" [1%Q] (PyStr.lit "new") ∅ ])
    as (_ & _ & Hget & _); [ constructor | ].
  by rewrite Hget.
Defined.

(** X16: [delete] removes the ids given and nothing else: afterwards
    the store answers nothing for those ids and what it answered before
    for the others; the entries left keep their order, and the number
    returned is the number of entries removed. *)
Theorem X16_mock_delete {F : Type} (_documents : VectorStore.documents F)
    (ids : list string) :
  NoDup (map fst _documents) ->
  let after := fst (MockStore.mock_delete _documents ids) in
  (forall id,
     MockStore.dict_get after id
     = if bool_decide (id ∈ ids) then None else MockStore.dict_get _documents id) /\
  sublist after _documents /\
  NoDup (map fst after) /\
  snd (MockStore.mock_delete _documents ids)
  = MockStore.mock_count _documents - MockStore.mock_count after.
Proof.
  cbv zeta. revert _documents.
  induction ids as [|id0 ids IH]; intros d Hnd; cbn [MockStore.mock_delete].
  - cbn [fst snd]. split; [ done | ]. split; [ done | ]. split; [ done | ].
    unfold MockStore.mock_count. lia.
  - destruct (MockStore.dict_get d id0) as [v|] eqn:Hid0.
    + assert (NoDup (map fst (MockStore.dict_del d id0))) as Hnd1.
      { eapply sublist_keys_nodup; [ apply dict_del_sublist | done ]. }
      destruct (IH _ Hnd1) as (Hget & Hsub & Hnd' & Hcount).
      destruct (MockStore.mock_delete (MockStore.dict_del d id0) ids) as [d' n].
      cbn [fst snd] in *. split; [ | split; [ | split ] ].
      * intros id. rewrite Hget, dict_get_del by done.
        destruct (String.eqb id0 id) eqn:E.
        -- apply String.eqb_eq in E. subst id.
           rewrite (bool_decide_eq_true_2 (id0 ∈ id0 :: ids)) by by left.
           by destruct (bool_decide (id0 ∈ ids)).
        -- apply String.eqb_neq in E.
           destruct (decide (id ∈ ids)) as [Hin | Hout].
           ++ rewrite !bool_decide_eq_true_2; [ done | by right | done ].
           ++ rewrite !bool_decide_eq_false_2; [ done | | done ].
              intros Hin. apply elem_of_cons in Hin as [-> | Hin]; done.
      * etransitivity; [ exact Hsub | apply dict_del_sublist ].
      * done.
      * unfold MockStore.mock_count in *.
        pose proof (dict_del_length d id0 v Hid0). lia.
    + destruct (IH _ Hnd) as (Hget & Hsub & Hnd' & Hcount).
      split; [ | done ]. intros id. rewrite Hget.
      destruct (decide (id ∈ ids)) as [Hin | Hout].
      * rewrite !bool_decide_eq_true_2; [ done | by right | done ].
      * rewrite (bool_decide_eq_false_2 (id ∈ ids)) by done.
        destruct (decide (id = id0)) as [-> | Hne].
        -- rewrite bool_decide_eq_true_2 by by left. done.
        -- rewrite bool_decide_eq_false_2; [ done | ].
           intros Hin. apply elem_of_cons in Hin as [-> | Hin]; done.
Qed.

Lemma X16_mock_delete_witness :
  let _documents :=
    [ ("a", VectorStore.mkDoc "a" [1%Q] (PyStr.lit "one") ∅);
      ("b", VectorStore.mkDoc "b" [1%Q] (PyStr.lit "two") ∅) ] in
  MockStore.dict_get (fst (MockStore.mock_delete _documents ["b"; "c"; "b"])) "b" = None /\
  snd (MockStore.mock_delete _documents ["b"; "c"; "b"]) = 1.
Proof.
  intros _documents.
  destruct (X16_mock_delete (F := Q) _documents ["b"; "c"; "b"])
    as (Hget & _ & _ & Hcount).
  - repeat constructor; set_solver.
  - split; [ by rewrite Hget | by rewrite Hcount ].
Defined.

(** X17: [delete_by_filter] leaves, in their order, exactly the
    documents whose metadata does not agree with every entry of the
    filter; an empty filter empties the store. *)
Theorem X17_mock_delete_by_filter {F : Type} (_documents : VectorStore.documents F)
    (filters : gmap string value) :
  NoDup (map fst _documents) ->
  let after := MockStore.mock_delete_by_filter _documents filters in
  sublist after _documents /\
  (forall kv, kv ∈ after <->
     kv ∈ _documents /\
     ~ (forall k v, filters !! k = Some v ->
                    VectorStore.doc_metadata (snd kv) !! k = Some v)) /\
  (filters = ∅ -> after = []).
Proof.
  intros Hnd. cbv zeta.
  rewrite mock_delete_by_filter_filter by done.
  split; [ apply filter_sublist | ]. split.
  - intros kv. rewrite filter_elem, negb_true_iff.
    unfold MockStore.matches_filters. rewrite bool_decide_eq_false.
    by rewrite map_Forall_lookup.
  - intros ->. apply length_zero_iff_nil, (proj2 (filter_length_zero _ _)).
    intros kv _. unfold MockStore.matches_filters.
    rewrite bool_decide_eq_true_2 by apply map_Forall_empty. done.
Qed.

Lemma X17_mock_delete_by_filter_witness :
  MockStore.mock_delete_by_filter
    [ ("a", VectorStore.mkDoc "a" [1%Q] (PyStr.lit "one")
              (<["document_id" := VStr "d1"]> ∅));
      ("b", VectorStore.mkDoc "b" [1%Q] (PyStr.lit "two") ∅) ] ∅
  = [].
Proof.
  apply (X17_mock_delete_by_filter (F := Q)); [ | done ].
  repeat constructor; set_solver.
Defined.

Section SearchProperties.
Import VectorStore.
Context {F : Type} `{Float F}.



End SearchProperties.



Example search_best_first :
  map VectorStore.id
    (VectorStore.mock_search (fun _ v => hd 0%Q v)
       [ ("a", VectorStore.mkDoc "a" [(1 # 2)%Q] (PyStr.lit "one") ∅);
         ("b", VectorStore.mkDoc "b" [(3 # 4)%Q] (PyStr.lit "two") ∅);
         ("c", VectorStore.mkDoc "c" [(1 # 4)%Q] (PyStr.lit "three") ∅) ]
       [] 2 None None)
  = ["b"; "a"].
Proof. reflexivity. Qed.

(** *** The retriever over the mock services *)

Section RetrieverProperties2.
Import PyStr Embedder VectorStore Retriever MockStore.
Context {F : Type} `{Float F}.

Lemma dict_set_fresh (d : documents F) (k : string) (v : VectorDocument F) :
  k ∉ map fst d -> dict_set d k v = d ++ [(k, v)].
Proof.
  induction d as [|[k0 v0] d IH]; cbn [dict_set map fst]; intros Hk; [ done | ].
  destruct (String.eqb k0 k) eqn:E.
  - apply String.eqb_eq in E. subst k0. exfalso. apply Hk. by left.
  - cbn [app]. rewrite IH; [ done | ]. intros Hin. apply Hk. by right.
Qed.

(** Documents under fresh ids are added at the end. *)
Lemma upsert_fresh (docs : list (VectorDocument F)) :
  forall d : documents F,
    NoDup (map fst d ++ map doc_id docs) ->
    fst (mock_upsert d docs) = d ++ map (fun doc => (doc_id doc, doc)) docs.
Proof.
  unfold mock_upsert. cbn [fst].
  induction docs as [|doc docs IH]; intros d Hnd; cbn [fold_left map].
  - by rewrite app_nil_r.
  - cbn [map] in Hnd. apply NoDup_app in Hnd as (Hd & Hdis & Hdocs).
    apply NoDup_cons in Hdocs as [Hdoc Hdocs].
    rewrite dict_set_fresh by (intros Hin; apply (Hdis _ Hin); by left).
    rewrite IH, <- app_assoc; [ done | ].
    rewrite map_app. cbn [map fst]. rewrite <- app_assoc. cbn [app].
    apply NoDup_app. split; [ done | ]. split; [ | by apply NoDup_cons ].
    intros x Hx Hin. by apply (Hdis x Hx).
Qed.

Lemma make_vector_docs_ids (uuid4 : nat -> string) (document_id : option string)
    (pairs : list (Chunker.Chunk * EmbeddingResult F)) :
  forall n, map doc_id (make_vector_docs uuid4 pairs document_id n)
            = map uuid4 (seq n (length pairs)).
Proof.
  induction pairs as [|[chunk embedding] pairs IH]; intros n; [ done | ].
  cbn [make_vector_docs map length seq doc_id]. by rewrite IH.
Qed.

Lemma make_vector_docs_metadata (uuid4 : nat -> string) (document_id : option string)
    (pairs : list (Chunker.Chunk * EmbeddingResult F)) :
  forall n doc, In doc (make_vector_docs uuid4 pairs document_id n) ->
                exists chunk, doc_metadata doc = passage_metadata chunk document_id.
Proof.
  induction pairs as [|[chunk embedding] pairs IH]; intros n doc; [ done | ].
  cbn [make_vector_docs]. intros [<- | Hin]; [ by exists chunk | eauto ].
Qed.

Lemma make_vector_docs_length (uuid4 : nat -> string) (document_id : option string)
    (pairs : list (Chunker.Chunk * EmbeddingResult F)) (n : nat) :
  length (make_vector_docs uuid4 pairs document_id n) = length pairs.
Proof.
  rewrite <- (length_map doc_id), make_vector_docs_ids.
  by rewrite length_map, length_seq.
Qed.

Lemma passage_metadata_document_id (chunk : Chunker.Chunk) (document_id : string) :
  document_id <> "" ->
  passage_metadata chunk (Some document_id) !! "document_id" = Some (VStr document_id).
Proof.
  intros Hne. unfold passage_metadata.
  destruct (String.eqb document_id "") eqn:E; [ by apply String.eqb_eq in E | ].
  by rewrite lookup_insert_eq.
Qed.

Lemma matches_document_id (document_id : string) (doc : VectorDocument F) :
  matches_filters {["document_id" := VStr document_id]} doc = true <->
  doc_metadata doc !! "document_id" = Some (VStr document_id).
Proof.
  unfold matches_filters. rewrite bool_decide_eq_true.
  apply (map_Forall_singleton (fun k v => doc_metadata doc !! k = Some v)).
Qed.
End RetrieverProperties2.

(** X19: [retrieve] only reads: it leaves the vector store and the
    identifiers drawn as they are, whatever happens.  It calls the
    embedder once, for the query, and then the store once, unless the
    query is blank (no call at all) or the embedder raises (no search).
    A result carries the query, the filters (none as the empty dict) and
    the number of its results. *)
Theorem X19_retrieve_read_only {F : Type} `{Float F} {St : Type}
    (self : Retriever.Retriever F St) (w : Retriever.world F St)
    (query : PyStr.str) (top_k : option Z) (filters : option (gmap string value)) :
  let out := Retriever.retrieve self w query top_k filters in
  Retriever.store (snd out) = Retriever.store w /\
  Retriever.drawn (snd out) = Retriever.drawn w /\
  (Retriever.calls (snd out) = Retriever.calls w /\ PyStr.blank query = true
   \/ Retriever.calls (snd out) = Retriever.EmbedCall query :: Retriever.calls w /\
      (exists e, Embedder.embed (Retriever.embedder self) query = Raise e /\
                 fst out = Raise e)
   \/ exists embedding,
        Embedder.embed (Retriever.embedder self) query = Ok embedding /\
        Retriever.calls (snd out)
        = Retriever.SearchCall (Embedder.vector embedding)
            (PyList.int_or top_k (Retriever.top_k (Retriever.config self)))
            filters (Retriever.score_threshold (Retriever.config self))
          :: Retriever.EmbedCall query :: Retriever.calls w) /\
  (forall res, fst out = Ok res ->
     PyStr.blank query = false /\
     Retriever.query res = query /\
     Retriever.total_results res = Z.of_nat (length (Retriever.results res)) /\
     Retriever.filters_applied res = default ∅ filters).
Proof.
  cbv zeta. unfold Retriever.retrieve.
  destruct (PyStr.blank query) eqn:Hb.
  { cbn. repeat split; try done. by left. }
  destruct (Embedder.embed (Retriever.embedder self) query) as [embedding | e] eqn:He.
  2:{ cbn. repeat split; try done. right; left. split; [ done | ]. by exists e. }
  cbn [Retriever.log Retriever.store Retriever.calls Retriever.drawn].
  destruct (VectorStore.search _ _ _ _ _ _) as [hits | e];
    cbn; (split; [ done | ]); (split; [ done | ]);
    (split; [ right; right; by exists embedding | ]).
  - by intros res [= <-].
  - by intros res [=].
Qed.

Lemma X19_retrieve_read_only_witness :
  Retriever.store
    (snd (Retriever.retrieve
            (mock_retriever (fun _ => [1%Q]) (fun _ _ => 1%Q)
               (Retriever.mkConfig 5 None true "mock" "mock"))
            (Retriever.mkWorld
               [("a", VectorStore.mkDoc "a" [1%Q] (PyStr.lit "leave policy") ∅)] [] 1)
            (PyStr.lit "leave") None None))
  = [("a", VectorStore.mkDoc "a" [1%Q] (PyStr.lit "leave policy") ∅)].
Proof.
  by destruct (X19_retrieve_read_only
                 (mock_retriever (fun _ => [1%Q]) (fun _ _ => 1%Q)
                    (Retriever.mkConfig 5 None true "mock" "mock"))
                 (Retriever.mkWorld
                    [("a", VectorStore.mkDoc "a" [1%Q] (PyStr.lit "leave policy") ∅)] [] 1)
                 (PyStr.lit "leave") None None) as (-> & _).
Defined.

(** X20: indexing a document and deleting it again restores the
    store.  With the mock embedder and the mock store, chunks none of
    which is blank, a document id that is not empty and is not yet in the
    store, and identifiers drawn that are new and distinct,
    [index_chunks] stores one passage per chunk, in order after what was
    stored, and returns their number, which [get_stats] then reports on
    top of the former count; [delete_document] removes these passages
    and nothing else. *)
Theorem X20_index_then_delete {F : Type} `{Float F}
    (generate_vector : PyStr.str -> list F)
    (cosine_similarity : list F -> list F -> F) (uuid4 : nat -> string)
    (config : Retriever.RetrieverConfig F)
    (w : Retriever.world F (VectorStore.documents F))
    (chunks : list Chunker.Chunk) (document_id : string) :
  let self := mock_retriever generate_vector cosine_similarity config in
  chunks <> [] ->
  Forall (fun c => PyStr.blank (Chunker.text c) = false) chunks ->
  document_id <> "" ->
  NoDup (map fst (Retriever.store w)
         ++ map uuid4 (seq (Retriever.drawn w) (length chunks))) ->
  (forall kv, kv ∈ Retriever.store w ->
     VectorStore.doc_metadata (snd kv) !! "document_id" <> Some (VStr document_id)) ->
  exists w1 w2 stats,
    Retriever.index_chunks uuid4 self w chunks (Some document_id)
    = (Ok (Z.of_nat (length chunks)), w1) /\
    Retriever.store w1
    = Retriever.store w
      ++ imap (fun i chunk =>
                 (uuid4 (Retriever.drawn w + i)%nat,
                  VectorStore.mkDoc (uuid4 (Retriever.drawn w + i)%nat)
                    (generate_vector (Chunker.text chunk)) (Chunker.text chunk)
                    (Retriever.passage_metadata chunk (Some document_id))))
           chunks /\
    RetrieverAdmin.get_stats self RetrieverAdmin.MockVectorStoreAdmin w1 = Ok stats /\
    stats !! "total_vectors"
    = Some (VInt (MockStore.mock_count (Retriever.store w) + Z.of_nat (length chunks))) /\
    RetrieverAdmin.delete_document RetrieverAdmin.MockVectorStoreAdmin w1 document_id
    = (Ok tt, w2) /\
    Retriever.store w2 = Retriever.store w.
Proof.
  intros self Hne Hall Hid Hnd Hold.
  set (pairs := zip chunks (map (mock_embedding generate_vector)
                                (map Chunker.text chunks))).
  assert (length pairs = length chunks) as Hlen.
  { unfold pairs. rewrite length_zip_with, !length_map. lia. }
  set (docs := Retriever.make_vector_docs uuid4 pairs (Some document_id)
                 (Retriever.drawn w)).
  assert (fst (VectorStore.mock_upsert (Retriever.store w) docs)
          = Retriever.store w ++ map (fun doc => (VectorStore.doc_id doc, doc)) docs)
    as Hupsert.
  { apply upsert_fresh. unfold docs. by rewrite make_vector_docs_ids, Hlen. }
  assert (map (fun doc => (VectorStore.doc_id doc, doc)) docs
          = imap (fun i chunk =>
                    (uuid4 (Retriever.drawn w + i)%nat,
                     VectorStore.mkDoc (uuid4 (Retriever.drawn w + i)%nat)
                       (generate_vector (Chunker.text chunk)) (Chunker.text chunk)
                       (Retriever.passage_metadata chunk (Some document_id))))
              chunks) as Hdocs.
  { unfold docs, pairs. generalize (Retriever.drawn w). clear.
    induction chunks as [|chunk chunks IH]; intros n; [ done | ].
    cbn [map zip zip_with Retriever.make_vector_docs imap].
    rewrite Nat.add_0_r. f_equal. rewrite IH. apply imap_ext.
    intros i c _. cbn. by rewrite Nat.add_succ_r. }
  eexists _, _, _. split; [ | split; [ | split; [ | split; [ | split ] ] ] ].
  - unfold Retriever.index_chunks. subst self.
    destruct chunks as [|c0 cs]; [ exfalso; by apply Hne | ].
    cbn [Retriever.embedder mock_retriever Embedder.embed_batch
         Embedder.MockEmbedder].
    rewrite (mock_embed_batch_all generate_vector)
      by (apply Forall_map; exact Hall).
    fold pairs. cbn [Retriever.log Retriever.store Retriever.calls Retriever.drawn].
    fold docs.
    change (VectorStore.upsert _ (Retriever.store w) docs)
      with (Ok (VectorStore.mock_upsert (Retriever.store w) docs)
            : result (VectorStore.documents F * Z)).
    cbv beta iota.
    rewrite (surjective_pairing (VectorStore.mock_upsert (Retriever.store w) docs)).
    f_equal. f_equal. unfold VectorStore.mock_upsert. cbn [snd].
    unfold docs. by rewrite make_vector_docs_length, Hlen.
  - cbn [Retriever.store]. by rewrite Hupsert, Hdocs.
  - reflexivity.
  - rewrite lookup_insert_eq. f_equal. f_equal.
    cbn [Retriever.store]. unfold MockStore.mock_count.
    rewrite Hupsert, length_app, length_map. unfold docs.
    rewrite make_vector_docs_length, Hlen. lia.
  - reflexivity.
  - cbn [Retriever.store RetrieverAdmin.delete_by_filter
         RetrieverAdmin.MockVectorStoreAdmin].
    rewrite Hupsert. rewrite mock_delete_by_filter_filter.
    2:{ rewrite map_app, map_map. cbn [fst].
        unfold docs at 1. by rewrite make_vector_docs_ids, Hlen. }
    rewrite List.filter_app.
    rewrite (forallb_filter_id _ (Retriever.store w)).
    2:{ apply forallb_forall. intros kv Hkv. apply negb_true_iff.
        apply not_true_iff_false. rewrite matches_document_id.
        apply Hold. by apply list_elem_of_In. }
    match goal with
    | |- _ ++ ?l = _ => assert (l = []) as ->; [ | by rewrite app_nil_r ]
    end.
    apply length_zero_iff_nil, filter_length_zero.
    intros kv Hkv. apply negb_false_iff.
    apply matches_document_id.
    apply list_elem_of_In, in_map_iff in Hkv as (doc & <- & Hdoc). cbn [snd].
    apply make_vector_docs_metadata in Hdoc as (chunk & ->).
    by apply passage_metadata_document_id.
Qed.

Lemma X20_index_then_delete_witness :
  exists w1 w2,
    Retriever.index_chunks (fun n => String (ascii_of_nat (48 + n)) "")
      (mock_retriever (fun _ => [1%Q]) (fun _ _ => 1%Q)
         (Retriever.mkConfig 5 None false "mock" "mock"))
      empty_world
      [ Chunker.mkChunk (PyStr.lit "one") 0 ∅; Chunker.mkChunk (PyStr.lit "two") 1 ∅ ]
      (Some "doc")
    = (Ok 2, w1) /\
    RetrieverAdmin.delete_document RetrieverAdmin.MockVectorStoreAdmin w1 "doc"
    = (Ok tt, w2) /\
    Retriever.store w2 = [].
Proof.
  destruct (X20_index_then_delete (fun _ => [1%Q]) (fun _ _ => 1%Q)
              (fun n => String (ascii_of_nat (48 + n)) "")
              (Retriever.mkConfig 5 None false "mock" "mock") empty_world
              [ Chunker.mkChunk (PyStr.lit "one") 0 ∅;
                Chunker.mkChunk (PyStr.lit "two") 1 ∅ ] "doc")
    as (w1 & w2 & stats & Hindex & _ & _ & _ & Hdelete & Hstore).
  - discriminate.
  - repeat constructor.
  - discriminate.
  - cbn. repeat constructor; set_solver.
  - intros kv Hkv. inversion Hkv.
  - exists w1, w2. split; [ exact Hindex | ]. split; [ exact Hdelete | exact Hstore ].
Defined.

(** *** Merging without overlap *)

Section MergeProperties.
Import PyStr Chunker.
Variable config : ChunkerConfig.
Hypothesis no_overlap : chunk_overlap config = 0.

Lemma slice_from_zero (s : str) : slice_from s 0 = s.
Proof.
  unfold slice_from, PyList.slice_from, PyList.clamp. cbn [Z.ltb Z.compare].
  by rewrite Z.min_l by lia.
Qed.

Lemma rest_cons {A : Type} (x : A) (l : list A) : PyList.rest (x :: l) = l.
Proof.
  unfold PyList.rest, PyList.slice_from, PyList.clamp.
  change (1 <? 0) with false. cbv iota.
  rewrite Z.min_l by (cbn [length]; lia). reflexivity.
Qed.

(** With [chunk_overlap] 0 the overlap [current[-0:]] is all of
    [current]: the running chunk only grows. *)
Lemma merge_loop_no_overlap (nexts : list str) :
  forall (merged : list str) (current : str),
    snd (merge_loop config nexts merged current) = current ++ concat nexts /\
    exists emitted,
      fst (merge_loop config nexts merged current) = merged ++ emitted /\
      forall m, m ∈ emitted ->
        (exists k, m = current ++ concat (take k nexts)) /\
        min_chunk_size config <= len m.
Proof.
  induction nexts as [|next_chunk nexts IH]; intros merged current;
    cbn [merge_loop concat].
  - cbn [fst snd]. rewrite app_nil_r. split; [ done | ]. exists [].
    rewrite app_nil_r. split; [ done | ]. intros m Hm. inversion Hm.
  - destruct (len current + len next_chunk <=? chunk_size config).
    + destruct (IH merged (current ++ next_chunk)) as (Hcur & emitted & Hmerged & Hall).
      split; [ by rewrite Hcur, <- app_assoc | ].
      exists emitted. split; [ done | ]. intros m Hm.
      destruct (Hall m Hm) as ((k & ->) & Hmin). split; [ | done ].
      exists (S k). cbn [take concat]. by rewrite <- !app_assoc.
    + assert ((if len current >? chunk_overlap config
               then slice_from current (- chunk_overlap config)
               else current) = current) as ->.
      { rewrite no_overlap. destruct (len current >? 0); [ apply slice_from_zero | done ]. }
      set (merged' := if len current >=? min_chunk_size config
                      then merged ++ [current] else merged).
      destruct (IH merged' (current ++ next_chunk)) as (Hcur & emitted & Hmerged & Hall).
      split; [ by rewrite Hcur, <- app_assoc | ].
      assert (forall m, m ∈ emitted ->
                (exists k, m = current ++ concat (take k (next_chunk :: nexts))) /\
                min_chunk_size config <= len m) as Hall'.
      { intros m Hm. destruct (Hall m Hm) as ((k & ->) & Hmin). split; [ | done ].
        exists (S k). cbn [take concat]. by rewrite <- !app_assoc. }
      subst merged'. destruct (len current >=? min_chunk_size config) eqn:Hge.
      * exists (current :: emitted). split.
        { rewrite Hmerged, <- app_assoc. done. }
        intros m Hm. apply elem_of_cons in Hm as [-> | Hm]; [ | by apply Hall' ].
        split; [ exists 0%nat; cbn; by rewrite app_nil_r | lia ].
      * exists emitted. split; [ done | exact Hall' ].
Qed.
End MergeProperties.

(** X21: with [chunk_overlap] 0, [_merge_small_chunks] carries the whole
    running chunk over where no overlap is asked for, since
    [current[-0:]] is all of [current].  Each chunk it returns is then the
    concatenation of the first pieces up to some point, and the last one
    is the concatenation of all of them, whatever [chunk_size]. *)
Theorem X21_merge_without_overlap (config : Chunker.ChunkerConfig)
    (chunks : list PyStr.str) :
  Chunker.chunk_overlap config = 0 ->
  concat chunks <> [] ->
  exists front,
    Chunker._merge_small_chunks config chunks = front ++ [concat chunks] /\
    forall m, m ∈ front ->
      (exists k, m = concat (take k chunks)) /\
      Chunker.min_chunk_size config <= PyStr.len m.
Proof.
  intros Hzero Hne. unfold Chunker._merge_small_chunks.
  destruct chunks as [|first rest]; [ done | ].
  rewrite rest_cons.
  destruct (merge_loop_no_overlap config Hzero rest [] first)
    as (Hcur & emitted & Hmerged & Hall).
  destruct (Chunker.merge_loop config rest [] first) as [merged current].
  cbn [fst snd] in Hcur, Hmerged. cbn [app] in Hmerged. subst merged current.
  change (first ++ concat rest) with (concat (first :: rest)) in *.
  assert (forall m, m ∈ emitted ->
            (exists k, m = concat (take k (first :: rest))) /\
            Chunker.min_chunk_size config <= PyStr.len m) as Hall'.
  { intros m Hm. destruct (Hall m Hm) as ((k & ->) & Hmin). split; [ | done ].
    by exists (S k). }
  assert (PyStr.truthy (concat (first :: rest)) = true) as ->.
  { by destruct (concat (first :: rest)). }
  cbn [andb].
  destruct (PyStr.len (concat (first :: rest)) >=? Chunker.min_chunk_size config)
    eqn:Hge; [ by exists emitted | ].
  destruct emitted as [|m emitted]; [ by exists [] | ].
  exfalso. destruct (Hall m) as ((k & Hm) & Hmin); [ by left | ].
  assert (PyStr.len m <= PyStr.len (concat (first :: rest))); [ | lia ].
  rewrite Hm. change (concat (first :: rest)) with (first ++ concat rest).
  unfold PyStr.len. rewrite !length_app.
  rewrite <- (take_drop k rest) at 2. rewrite concat_app, length_app. lia.
Qed.

Lemma X21_merge_without_overlap_witness :
  exists front,
    Chunker._merge_small_chunks (Chunker.mkConfig 5 0 1 Chunker.default_separators)
      [PyStr.lit "abcd "; PyStr.lit "efgh "; PyStr.lit "ij"]
    = front ++ [PyStr.lit "abcd efgh ij"].
Proof.
  destruct (X21_merge_without_overlap
              (Chunker.mkConfig 5 0 1 Chunker.default_separators)
              [PyStr.lit "abcd "; PyStr.lit "efgh "; PyStr.lit "ij"])
    as (front & Hfront & _); [ reflexivity | discriminate | ].
  by exists front.
Defined.

(** The chunks of a text of three words with [chunk_size] 5 and no
    overlap: each repeats all that came before. *)
Example recursive_chunks_without_overlap :
  map Chunker.text
    (Chunker.recursive_chunk (Chunker.mkConfig 5 0 1 [PyStr.lit " "])
       (PyStr.lit "abcd efgh ij"))
  = [ PyStr.lit "abcd"; PyStr.lit "abcd efgh"; PyStr.lit "abcd efgh ij" ].
Proof. vm_compute. reflexivity. Qed.

(** *** Trimmed chunks *)

Section TrimProperties.
Import PyStr Chunker.

Lemma dropwhile_head (p : ascii -> bool) (s : str) :
  match dropwhile p s with
  | [] => True
  | c :: _ => p c = false
  end.
Proof.
  induction s as [|c s IH]; cbn [dropwhile]; [ done | ].
  destruct (p c) eqn:E; [ exact IH | exact E ].
Qed.

Lemma dropwhile_id (p : ascii -> bool) (s : str) :
  match s with [] => True | c :: _ => p c = false end -> dropwhile p s = s.
Proof. destruct s as [|c s]; [ done | ]. cbn [dropwhile]. by intros ->. Qed.

Lemma strip_trimmed (s : str) : trimmed (strip s).
Proof.
  unfold trimmed, strip, lstrip, rstrip.
  set (t := rev (dropwhile is_space (rev s))).
  set (u := dropwhile is_space t).
  assert (rev (dropwhile is_space (rev u)) = u) as ->.
  { rewrite dropwhile_id; [ apply rev_involutive | ].
    destruct (dropwhile_suffix is_space t) as (pre & Hpre). fold u in Hpre.
    pose proof (dropwhile_head is_space (rev s)) as Hhead.
    assert (dropwhile is_space (rev s) = rev u ++ rev pre) as Hrev.
    { rewrite <- rev_app_distr, <- Hpre. unfold t. by rewrite rev_involutive. }
    rewrite Hrev in Hhead. by destruct (rev u). }
  apply dropwhile_id, dropwhile_head.
Qed.

Lemma sentence_loop_trimmed (config : ChunkerConfig) (sentences chunks : list str)
    (current : str) :
  Forall trimmed chunks ->
  Forall trimmed (fst (sentence_loop config sentences chunks current)).
Proof.
  revert chunks current. induction sentences as [|x sentences IH];
    intros chunks current Hall; cbn [sentence_loop]; [ done | ].
  destruct (_ <=? _); [ by apply IH | ]. apply IH.
  destruct (truthy (strip current)); [ | done ].
  apply Forall_app. split; [ done | ]. constructor; [ apply strip_trimmed | done ].
Qed.

Lemma sentence_texts_trimmed (config : ChunkerConfig) (text : str) :
  Forall trimmed (sentence_texts config text).
Proof.
  unfold sentence_texts.
  pose proof (sentence_loop_trimmed config (Re.split sentence_pattern text) [] []
                (List.Forall_nil _)) as Hall.
  destruct (sentence_loop _ _ _ _) as [chunks current]. cbn [fst] in Hall.
  destruct (truthy (strip current)); [ | done ].
  apply Forall_app. split; [ done | ]. constructor; [ apply strip_trimmed | done ].
Qed.

Lemma sentence_chunks_from_trimmed (k : nat) (l : list str) :
  Forall trimmed l -> Forall (fun c => trimmed (Chunker.text c)) (sentence_chunks_from k l).
Proof.
  intros Hall. revert k. induction Hall as [|x l Hx _ IH]; intros k; [ constructor | ].
  rewrite sentence_chunks_from_cons. constructor; [ done | apply IH ].
Qed.

Lemma chunks_from_trimmed (k : nat) (l : list str) :
  Forall (fun c => trimmed (Chunker.text c)) (chunks_from k l).
Proof.
  revert k. induction l as [|x l IH]; intros k; [ constructor | ].
  rewrite chunks_from_cons. destruct (truthy (strip x)); [ | apply IH ].
  constructor; [ apply strip_trimmed | apply IH ].
Qed.

Lemma fixed_step_trimmed (config : ChunkerConfig) (text : str) (start : Z)
    (chunks : list Chunk) :
  Forall (fun c => trimmed (Chunker.text c)) chunks ->
  Forall (fun c => trimmed (Chunker.text c)) (fixed_step config text start chunks).
Proof.
  intros Hall. unfold fixed_step. destruct (truthy (strip _)); [ | done ].
  apply Forall_app. split; [ done | ]. constructor; [ apply strip_trimmed | done ].
Qed.
End TrimProperties.

(** X22: whatever the strategy and the configuration, the text of an
    emitted chunk is trimmed: stripping it again changes nothing, so it
    neither begins nor ends with whitespace. *)
Theorem X22_chunk_text_trimmed (s : Chunker.strategy) (config : Chunker.ChunkerConfig)
    (text : PyStr.str) (chunks : list Chunker.Chunk) :
  Chunker.chunk s config text = Some chunks ->
  Forall (fun c =>
            PyStr.strip (Chunker.text c) = Chunker.text c /\
            (forall first rest, Chunker.text c = first :: rest ->
                                PyStr.is_space first = false) /\
            (forall front last, Chunker.text c = front ++ [last] ->
                                PyStr.is_space last = false))
         chunks.
Proof.
  intros Hchunks.
  assert (Forall (fun c => trimmed (Chunker.text c)) chunks) as Hall.
  { destruct s; cbn [Chunker.chunk] in Hchunks.
    - injection Hchunks as <-. unfold Chunker.recursive_chunk.
      destruct (PyStr.blank text); [ constructor | ].
      rewrite make_chunks_from. apply chunks_from_trimmed.
    - injection Hchunks as <-. unfold Chunker.sentence_chunk.
      destruct (PyStr.blank text); [ constructor | ].
      apply (sentence_chunks_from_trimmed 0), sentence_texts_trimmed.
    - unfold Chunker.fixed_chunk, Chunker.fixed_chunk_fuel in Hchunks.
      destruct (PyStr.blank text); [ injection Hchunks as <-; constructor | ].
      revert Hchunks.
      apply (fixed_loop_invariant config text
               (fun chunks => Forall (fun c => trimmed (Chunker.text c)) chunks)
               (fixed_step_trimmed config text)).
      constructor. }
  eapply Forall_impl; [ exact Hall | ]. intros c Hc. cbv beta in Hc.
  split; [ exact Hc | ]. unfold trimmed, PyStr.strip, PyStr.lstrip, PyStr.rstrip in Hc.
  split.
  - intros first rest Htext.
    pose proof (dropwhile_head PyStr.is_space
                  (rev (PyStr.dropwhile PyStr.is_space (rev (Chunker.text c))))) as Hhead.
    rewrite Hc, Htext in Hhead. exact Hhead.
  - intros front last Htext.
    pose proof (dropwhile_head PyStr.is_space (rev (Chunker.text c))) as Hhead.
    destruct (dropwhile_suffix PyStr.is_space
                (rev (PyStr.dropwhile PyStr.is_space (rev (Chunker.text c)))))
      as (pre & Hpre).
    rewrite Hc in Hpre.
    assert (PyStr.dropwhile PyStr.is_space (rev (Chunker.text c))
            = rev (Chunker.text c) ++ rev pre) as Hrev.
    { rewrite <- rev_app_distr, <- Hpre. by rewrite rev_involutive. }
    rewrite Hrev, Htext, rev_unit in Hhead. exact Hhead.
Qed.

Lemma X22_chunk_text_trimmed_witness :
  Forall (fun c => PyStr.strip (Chunker.text c) = Chunker.text c)
    (Chunker.sentence_chunk Chunker.default_config (PyStr.lit "  One.  Two!  ")).
Proof.
  eapply Forall_impl;
    [ apply (X22_chunk_text_trimmed Chunker.Sentence Chunker.default_config
               (PyStr.lit "  One.  Two!  ")); reflexivity | ].
  by intros c (Hc & _).
Defined.
